(** * SoundScoop: the processing engine wrapper and the batch orchestrator

    A shallow embedding of the job registry ([src/store/useAppStore.ts]),
    of the engine wrapper ([FFmpegProcessor]: [load], [extractAudio],
    [getQualityParams], [getVideoInfo]), of the batch orchestrator
    ([src/pages/Processing.tsx]) and of the checks of the upload page
    ([src/utils/fileUtils.ts], [handleFiles]), with the properties the
    specification states about them and further properties of the code.

    Conventions of the embedding.
    - JavaScript strings are byte strings ([string]); a text that is not
      ASCII is held as its UTF-8 bytes.  [toLowerCase] is a parameter
      ([Js.Casing]), known on the texts without cased characters beyond
      ASCII.
    - A size, a time stamp and the progress kept in the registry are whole
      numbers ([Z]); the numbers the code computes with fractions (the
      progress of the engine, the drifting [lastProgress], the overall
      progress of the page) are IEEE doubles ([Num.number]).
    - An [async] function that may reject returns a sum [Exn + A]; the
      engine, the network and the browser are parameters (a type class or an
      oracle record), never fixed behaviour. *)

From Stdlib Require Import ZArith QArith Qround Qpower Lqa Lia.
From Stdlib Require Import List String Ascii DecimalString Permutation Sorted.
From Stdlib Require OrderedTypeEx SpecFloat.
From stdpp Require Import gmap strings list.

Open Scope string_scope.
Open Scope Z_scope.

(* ================================================================= *)
(** ** JavaScript values shared by every component *)

Module Js.

(** A thrown value: an [Error] carrying its message, or anything else. *)
Inductive Exn : Type :=
| JsError (message : string)
| JsOther.

Definition bytes : Type := list Byte.byte.

Definition byteLength (b : bytes) : Z := Z.of_nat (List.length b).

(** Lower case on the ASCII letters, every other byte kept. *)
Definition lower_ascii (c : ascii) : ascii :=
  let n := nat_of_ascii c in
  if ((65 <=? n)%nat && (n <=? 90)%nat)%bool then ascii_of_nat (n + 32) else c.

Fixpoint asciiLower (s : string) : string :=
  match s with
  | EmptyString => EmptyString
  | String c r => String (lower_ascii c) (asciiLower r)
  end.

(** The UTF-8 bytes of a character without case of the blocks the
    messages of the application are written in: U+3000..U+303F (CJK
    punctuation), U+4E00..U+9FFF (CJK ideographs), U+FF01..U+FF20
    (full-width punctuation and digits). *)
Definition continuation (n : nat) : bool := ((128 <=? n) && (n <=? 191))%nat.

Definition uncased (a b c : nat) : bool :=
  ((a =? 227) && (b =? 128) && continuation c
   || (a =? 228) && (184 <=? b) && (b <=? 191) && continuation c
   || (229 <=? a) && (a <=? 233) && continuation b && continuation c
   || (a =? 239) && (b =? 188) && (129 <=? c) && (c <=? 160))%nat.

(** A text of ASCII characters only. *)
Fixpoint plain (s : string) : bool :=
  match s with
  | EmptyString => true
  | String a r => (nat_of_ascii a <? 128)%nat && plain r
  end.

(** A text of ASCII characters and of characters without case. *)
Fixpoint caseless (s : string) : bool :=
  match s with
  | EmptyString => true
  | String a r =>
      if (nat_of_ascii a <? 128)%nat then caseless r
      else match r with
           | String b (String c r') =>
               uncased (nat_of_ascii a) (nat_of_ascii b) (nat_of_ascii c) && caseless r'
           | _ => false
           end
  end.

(** [String.prototype.toLowerCase] applies the case mappings of Unicode
    (the Kelvin sign becomes [k], a capital sigma depends on what follows
    it); the tables are not spelled out here.  The method is a parameter,
    known where the tables have nothing to say: on a caseless text it
    lowers the ASCII letters and keeps the rest. *)
Class Casing : Type := {
  toLowerCase : string -> string;
  toLowerCase_caseless : forall s, caseless s = true -> toLowerCase s = asciiLower s
}.

(** [String.prototype.includes]. *)
Fixpoint includes (s sub : string) : bool :=
  if String.prefix sub s then true
  else match s with
       | EmptyString => false
       | String _ r => includes r sub
       end.

(** [s.split(sep)] for a one-character separator: never an empty list. *)
Fixpoint split (sep : ascii) (s : string) : list string :=
  match s with
  | EmptyString => [EmptyString]
  | String c r =>
      if Ascii.eqb c sep then EmptyString :: split sep r
      else match split sep r with
           | [] => [String c EmptyString]
           | seg :: segs => String c seg :: segs
           end
  end.

(** The character [c] does not occur in [s]. *)
Fixpoint freeOf (c : ascii) (s : string) : bool :=
  match s with
  | EmptyString => true
  | String a r => negb (Ascii.eqb a c) && freeOf c r
  end.

(** [arr.pop()] read as a value: the last element, [undefined] when empty. *)
Definition pop (l : list string) : option string := List.last (List.map Some l) None.

(** [arr.join(sep)]. *)
Definition join (sep : string) (l : list string) : string := String.concat sep l.

(** [arr.includes(x)] on strings. *)
Definition mem (x : string) (l : list string) : bool :=
  List.existsb (String.eqb x) l.

(** [s.substr(start, len)] and [s.substring(start, end)] with
    [start <= end]: short strings are cut, never padded. *)
Definition substr (start len : nat) (s : string) : string := String.substring start len s.
Definition substring (start stop : nat) (s : string) : string :=
  String.substring start (stop - start) s.

(** The default comparison of [Array.prototype.sort], on byte strings. *)
Fixpoint insert_sorted (x : string) (l : list string) : list string :=
  match l with
  | [] => [x]
  | y :: r => if String.leb x y then x :: y :: r else y :: insert_sorted x r
  end.

Definition sort (l : list string) : list string :=
  List.fold_right insert_sorted [] l.

(** The whole number nearest to a real, halves upward. *)
Definition round (x : Q) : Z := Qfloor (x + (1 # 2))%Q.

End Js.

(* ================================================================= *)
(** ** JavaScript numbers *)

(** A [number] is an IEEE 754 double: a zero or an infinity with its
    sign, NaN, or a sign, a mantissa [m] and an exponent [e] that stand for
    [m * 2^e].  The arithmetic is that of the standard at 53 bits, rounding
    to nearest, ties to even.  A value may be written with any mantissa and
    exponent that stand for it: the operations and the comparisons below go
    by the value, never by the way it is written. *)
Module Num.
Import SpecFloat.

Definition number : Type := spec_float.

Definition prec : Z := 53.
Definition emax : Z := 1024.

Definition add : number -> number -> number := SFadd prec emax.
Definition mul : number -> number -> number := SFmul prec emax.
Definition div : number -> number -> number := SFdiv prec emax.

Definition NaN : number := S754_nan.

(** A whole number (below [2^53] in absolute value, as every whole number
    the code computes with), written with exponent 0. *)
Definition ofZ (z : Z) : number :=
  match z with
  | Z0 => S754_zero false
  | Zpos p => S754_finite false p 0
  | Zneg p => S754_finite true p 0
  end.

(** A decimal literal [a/b], such as [0.5] or [0.99]: the double nearest
    to the quotient. *)
Definition ratio (a b : Z) : number := div (ofZ a) (ofZ b).

(** The value of a zero or of a finite number. *)
Definition real (x : number) : Q :=
  match x with
  | S754_finite s m e => (inject_Z (if s then Zneg m else Zpos m) * 2 ^ e)%Q
  | _ => 0%Q
  end.

(** The values that can be compared: the reals and the two infinities. *)
Inductive Ext : Type :=
| MInf
| Real (q : Q)
| PInf.

Definition ext (x : number) : option Ext :=
  match x with
  | S754_nan => None
  | S754_infinity s => Some (if s then MInf else PInf)
  | _ => Some (Real (real x))
  end.

Definition ext_ltb (a b : Ext) : bool :=
  match a, b with
  | MInf, MInf => false
  | MInf, _ => true
  | _, MInf => false
  | PInf, _ => false
  | _, PInf => true
  | Real p, Real q => negb (Qle_bool q p)
  end.

Definition ext_leb (a b : Ext) : bool :=
  match a, b with
  | MInf, _ => true
  | _, MInf => false
  | _, PInf => true
  | PInf, _ => false
  | Real p, Real q => Qle_bool p q
  end.

(** [x < y], [x > y] and [x <= y]: false when either side is NaN. *)
Definition ltb (x y : number) : bool :=
  match ext x, ext y with
  | Some a, Some b => ext_ltb a b
  | _, _ => false
  end.

Definition gtb (x y : number) : bool := ltb y x.

Definition leb (x y : number) : bool :=
  match ext x, ext y with
  | Some a, Some b => ext_leb a b
  | _, _ => false
  end.

(** [Math.min] and [Math.max] of two numbers: NaN when either is NaN,
    and [-0] is below [+0]. *)
Definition min (a b : number) : number :=
  match a, b with
  | S754_nan, _ | _, S754_nan => S754_nan
  | _, _ =>
      if ltb a b then a
      else if ltb b a then b
      else match a, b with
           | S754_zero sa, S754_zero sb => S754_zero (sa || sb)
           | _, _ => a
           end
  end.

Definition max (a b : number) : number :=
  match a, b with
  | S754_nan, _ | _, S754_nan => S754_nan
  | _, _ =>
      if ltb a b then b
      else if ltb b a then a
      else match a, b with
           | S754_zero sa, S754_zero sb => S754_zero (sa && sb)
           | _, _ => a
           end
  end.

(** [Math.round]: the nearest whole number, halves upward; a number
    without fractional part, an infinity and NaN are returned as they are,
    and a result of zero keeps the sign of the argument. *)
Definition round (x : number) : number :=
  match x with
  | S754_finite s m e =>
      if 0 <=? e then x
      else match Js.round (real x) with
           | Z0 => S754_zero s
           | z => ofZ z
           end
  | _ => x
  end.

(** A number that is not negative: [+0], above zero, or [+Infinity]. *)
Definition nonNegative (x : number) : bool :=
  match x with
  | S754_zero false | S754_infinity false | S754_finite false _ _ => true
  | _ => false
  end.

(** The whole numbers. *)
Definition whole (x : number) : bool :=
  match x with
  | S754_zero _ => true
  | S754_finite _ _ _ => Qeq_bool (real x) (inject_Z (Qfloor (real x)))
  | _ => false
  end.

End Num.

(* ================================================================= *)
(** ** Media values *)

Module Media.
Import Js.

Inductive Format : Type := mp3 | wav | aac.
Inductive Quality : Type := high | medium | low.

(** The string each value of the two union types is. *)
Definition format_name (f : Format) : string :=
  match f with mp3 => "mp3" | wav => "wav" | aac => "aac" end.

Definition quality_name (q : Quality) : string :=
  match q with high => "high" | medium => "medium" | low => "low" end.

(** The browser's [File]: what the code reads of it without awaiting. *)
Record File : Type := mkFile {
  file_name : string;
  file_size : Z;
  file_type : string
}.

(** [new Blob([data], { type })]. *)
Record Blob : Type := mkBlob {
  blob_data : bytes;
  blob_type : string
}.

Definition blob_size (b : Blob) : Z := byteLength (blob_data b).

End Media.

(* ================================================================= *)
(** ** The parameter table of the specification *)

Module Table.
Import Media.

(** The two codec families of the specification's table. *)
Inductive Family : Type := ConstantBitrate | SampleRateSelect.

(** The table as the specification prints it: the family of each format
    and the value of each cell (a sample rate is given in Hz). *)
Definition table_family (f : Format) : Family :=
  match f with
  | mp3 => ConstantBitrate
  | wav => SampleRateSelect
  | aac => ConstantBitrate
  end.

Definition table_value (f : Format) (q : Quality) : string :=
  match f, q with
  | mp3, high => "320k" | mp3, medium => "192k" | mp3, low => "128k"
  | wav, high => "48000" | wav, medium => "44100" | wav, low => "22050"
  | aac, high => "256k" | aac, medium => "128k" | aac, low => "96k"
  end.

(** How a family is spelled on the command line, and the encoder the
    wrapper names for each format. *)
Definition family_flag (fam : Family) : string :=
  match fam with ConstantBitrate => "-b:a" | SampleRateSelect => "-ar" end.

Definition encoder (f : Format) : string :=
  match f with mp3 => "libmp3lame" | wav => "pcm_s16le" | aac => "aac" end.

End Table.

(* ================================================================= *)
(** ** The job registry: [useAppStore] *)

Module Store.
Import Js Media.

Inductive Status : Type :=
| pending | uploading | uploaded | processing | completed | error.

Definition status_eqb (a b : Status) : bool :=
  match a, b with
  | pending, pending | uploading, uploading | uploaded, uploaded
  | processing, processing | completed, completed | error, error => true
  | _, _ => false
  end.

Record VideoFile : Type := mkVideoFile {
  id : string;
  name : string;
  size : Z;
  type : string;
  file : File;
  duration : option Z;
  resolution : option string;
  uploadProgress : Z;
  processingProgress : Z;
  status : Status;
  audioUrl : option string;
  audioBlob : option Blob;
  audioFormat : option Format;
  audioQuality : option Quality;
  error_ : option string;
  createdAt : Z
}.

(** [Partial<VideoFile>]: [None] is an absent key; for an optional field
    [Some None] is a key present with the value [undefined]. *)
Record Partial : Type := mkPartial {
  p_id : option string;
  p_name : option string;
  p_size : option Z;
  p_type : option string;
  p_file : option File;
  p_duration : option (option Z);
  p_resolution : option (option string);
  p_uploadProgress : option Z;
  p_processingProgress : option Z;
  p_status : option Status;
  p_audioUrl : option (option string);
  p_audioBlob : option (option Blob);
  p_audioFormat : option (option Format);
  p_audioQuality : option (option Quality);
  p_error : option (option string);
  p_createdAt : option Z
}.

Definition noInfo : Partial :=
  mkPartial None None None None None None None None None None None None None None None None.

(** [{ error: e }] *)
Definition errorInfo (e : option string) : Partial :=
  mkPartial None None None None None None None None None None None None None None (Some e) None.

(** [{ audioUrl, audioBlob, audioFormat, audioQuality, status }] *)
Definition resultInfo (url : string) (b : Blob) (f : Format) (q : Quality) (s : Status) : Partial :=
  mkPartial None None None None None None None None None (Some s)
            (Some (Some url)) (Some (Some b)) (Some (Some f)) (Some (Some q)) None None.

(** [{ ...file, ...info }] *)
Definition spread (f : VideoFile) (info : Partial) : VideoFile :=
  {| id := default (id f) (p_id info);
     name := default (name f) (p_name info);
     size := default (size f) (p_size info);
     type := default (type f) (p_type info);
     file := default (file f) (p_file info);
     duration := default (duration f) (p_duration info);
     resolution := default (resolution f) (p_resolution info);
     uploadProgress := default (uploadProgress f) (p_uploadProgress info);
     processingProgress := default (processingProgress f) (p_processingProgress info);
     status := default (status f) (p_status info);
     audioUrl := default (audioUrl f) (p_audioUrl info);
     audioBlob := default (audioBlob f) (p_audioBlob info);
     audioFormat := default (audioFormat f) (p_audioFormat info);
     audioQuality := default (audioQuality f) (p_audioQuality info);
     error_ := default (error_ f) (p_error info);
     createdAt := default (createdAt f) (p_createdAt info) |}.

Inductive ProgressKind : Type := upload | processing_.

Inductive OperationType : Type := audio_extraction | transcription | both.

(** [ProcessingHistory], without the transcription payload. *)
Record ProcessingHistory : Type := mkProcessingHistory {
  h_id : string;
  originalFileName : string;
  audioFileName : option string;
  h_audioUrl : option string;
  h_audioBlob : option Blob;
  h_audioFormat : option string;
  h_audioQuality : option string;
  fileSize : Z;
  h_duration : option Z;
  processedAt : Z;
  hasTranscription : bool;
  operationType : OperationType
}.

(** The state held by the store, as far as the registry and the history go. *)
Record AppState : Type := mkAppState {
  files : list VideoFile;
  history : list ProcessingHistory;
  ffmpegLoaded : bool
}.

Definition set_files (st : AppState) (fs : list VideoFile) : AppState :=
  {| files := fs; history := history st; ffmpegLoaded := ffmpegLoaded st |}.

(** *** [addFiles] *)

(** The [filter] callback of [addFiles] reads and grows the set
    [existingFileNames]; the set is threaded through the traversal. *)
Fixpoint uniqueFiles (existingFileNames : gset string) (newFiles : list File) : list File :=
  match newFiles with
  | [] => []
  | f :: rest =>
      if bool_decide (file_name f ∈ existingFileNames)
      then uniqueFiles existingFileNames rest
      else f :: uniqueFiles ({[ file_name f ]} ∪ existingFileNames) rest
  end.

(** What the browser hands to the [k]-th [map] callback of one call:
    [Math.random().toString(36)] and [new Date()]. *)
Record Fresh : Type := mkFresh {
  random36 : nat -> string;
  now : nat -> Z
}.

Definition newVideoFile (fr : Fresh) (k : nat) (f : File) : VideoFile :=
  {| id := substr 2 9 (random36 fr k);
     name := file_name f;
     size := file_size f;
     type := file_type f;
     file := f;
     duration := None;
     resolution := None;
     uploadProgress := 0;
     processingProgress := 0;
     status := pending;
     audioUrl := None;
     audioBlob := None;
     audioFormat := None;
     audioQuality := None;
     error_ := None;
     createdAt := now fr k |}.

Definition enqueued (fr : Fresh) (st : AppState) (newFiles : list File) : list VideoFile :=
  imap (newVideoFile fr)
       (uniqueFiles (list_to_set (List.map name (files st))) newFiles).

Definition addFiles (fr : Fresh) (newFiles : list File) (st : AppState) : AppState :=
  set_files st (files st ++ enqueued fr st newFiles).

(** *** [updateFileProgress], [updateFileStatus], [updateFileInfo] *)

Definition with_progress (f : VideoFile) (k : ProgressKind) (v : Z) : VideoFile :=
  match k with
  | upload => spread f (mkPartial None None None None None None None (Some v) None None
                                  None None None None None None)
  | processing_ => spread f (mkPartial None None None None None None None None (Some v) None
                                       None None None None None None)
  end.

Definition progress_of (f : VideoFile) (k : ProgressKind) : Z :=
  match k with upload => uploadProgress f | processing_ => processingProgress f end.

Definition updateFileProgress (i : string) (progress : Z) (k : ProgressKind)
           (st : AppState) : AppState :=
  set_files st
    (List.map (fun f =>
       if String.eqb (id f) i then
         let currentProgress := progress_of f k in
         let newProgress := Z.max currentProgress (Z.min 100 (Z.max 0 progress)) in
         with_progress f k newProgress
       else f) (files st)).

Definition updateFileStatus (i : string) (s : Status) (st : AppState) : AppState :=
  set_files st
    (List.map (fun f =>
       if String.eqb (id f) i
       then spread f (mkPartial None None None None None None None None None (Some s)
                                None None None None None None)
       else f) (files st)).

Definition updateFileInfo (i : string) (info : Partial) (st : AppState) : AppState :=
  set_files st
    (List.map (fun f => if String.eqb (id f) i then spread f info else f) (files st)).

(** The shape the three updates share: [files.map] with a change for the
    jobs that carry the id. *)
Definition onId (i : string) (F : VideoFile -> VideoFile) (st : AppState) : AppState :=
  set_files st (List.map (fun g => if String.eqb (id g) i then F g else g) (files st)).

Definition setFFmpegLoaded (b : bool) (st : AppState) : AppState :=
  {| files := files st; history := history st; ffmpegLoaded := b |}.

Definition addToHistory (item : ProcessingHistory) (st : AppState) : AppState :=
  {| files := files st; history := item :: history st; ffmpegLoaded := ffmpegLoaded st |}.

End Store.

(* ================================================================= *)
(** ** The engine wrapper: [FFmpegProcessor] *)

Module Ffmpeg.
Import Js Media.

(** *** The codec parameters and the media types *)

(** Both take plain strings, as in the source; a [switch] without a
    matching case adds nothing. *)
Definition getQualityParams (format quality : string) : list string :=
  if String.eqb format "mp3" then
    ["-acodec"; "libmp3lame"] ++
    (if String.eqb quality "high" then ["-b:a"; "320k"]
     else if String.eqb quality "medium" then ["-b:a"; "192k"]
     else if String.eqb quality "low" then ["-b:a"; "128k"]
     else [])
  else if String.eqb format "wav" then
    ["-acodec"; "pcm_s16le"] ++
    (if String.eqb quality "high" then ["-ar"; "48000"]
     else if String.eqb quality "medium" then ["-ar"; "44100"]
     else if String.eqb quality "low" then ["-ar"; "22050"]
     else [])
  else if String.eqb format "aac" then
    ["-acodec"; "aac"] ++
    (if String.eqb quality "high" then ["-b:a"; "256k"]
     else if String.eqb quality "medium" then ["-b:a"; "128k"]
     else if String.eqb quality "low" then ["-b:a"; "96k"]
     else [])
  else [].

Definition getMimeType (format : string) : string :=
  if String.eqb format "mp3" then "audio/mpeg"
  else if String.eqb format "wav" then "audio/wav"
  else if String.eqb format "aac" then "audio/aac"
  else "audio/mpeg".

(** *** The messages of the errors the wrapper raises *)

Definition msg_not_loaded : string := "音频处理引擎未加载，请刷新页面重试".
Definition msg_too_large : string := "文件过大，请选择小于100MB的视频文件".
Definition supportedExtensions : list string :=
  ["mp4"; "avi"; "mov"; "mkv"; "webm"; "flv"; "3gp"; "wmv"; "ts"; "m4v"].
Definition msg_unsupported : string :=
  "不支持的视频格式。支持的格式：" ++ join ", " supportedExtensions.
Definition msg_write_verify : string := "文件写入验证失败".
Definition msg_read_output : string := "音频提取失败：无法读取输出文件".
Definition msg_empty_output : string := "音频提取失败：输出文件为空".
Definition msg_corrupt_input : string :=
  "视频文件格式不支持或文件已损坏，请尝试其他格式的视频文件".
Definition msg_file_read : string := "文件读取失败，请重新选择文件".
Definition msg_permission : string := "文件访问权限不足".
Definition msg_memory : string := "内存不足，请尝试较小的文件".
Definition msg_codec : string :=
  "视频编码格式不支持，请尝试转换为常见格式（如MP4）后重试".
Definition msg_damaged : string := "视频文件已损坏，请检查文件完整性".
Definition msg_generic : string :=
  "音频提取失败，请检查视频文件格式是否支持或尝试其他视频文件".
Definition msg_load_failed : string :=
  "无法加载音频处理引擎，请检查网络连接或稍后重试".
Definition msg_selftest_failed : string := "FFmpeg加载后验证失败".
Definition msg_instance_null : string := "FFmpeg instance is null".

Definition supportedTypes : list string :=
  ["video/mp4"; "video/avi"; "video/mov"; "video/mkv"; "video/webm";
   "video/quicktime"; "video/x-msvideo"; "video/x-matroska";
   "video/mp2t"; "video/3gpp"; "video/x-flv"; "video/x-ms-wmv"].

Definition sizeLimit : Z := 100 * 1024 * 1024.

(** The object's two fields. *)
Inductive FFmpeg : Type := NewFFmpeg.

Record Processor : Type := mkProcessor {
  ffmpeg : option FFmpeg;
  loaded : bool
}.

Definition isLoaded (p : Processor) : bool := loaded p.

(** The object before any load, and after a failed one. *)
Definition notLoaded : Processor := mkProcessor None false.

(** *** The pre-flight checks of [extractAudio] *)

(** [videoFile.name.split('.').pop()] *)
Definition rawExtension (f : File) : option string := pop (split "." (file_name f)).

(** [... ?.toLowerCase()] *)
Definition fileExtension `{Casing} (f : File) : option string :=
  option_map toLowerCase (rawExtension f).

(** A string in a condition: the empty string is falsy. *)
Definition truthy (s : string) : bool := negb (String.eqb s "").

Definition isTypeSupported (f : File) : bool :=
  if truthy (file_type f) then mem (file_type f) supportedTypes else false.

Definition isExtensionSupported `{Casing} (f : File) : bool :=
  match fileExtension f with
  | Some e => if truthy e then mem e supportedExtensions else false
  | None => false
  end.

(** *** The progress estimate kept while the command runs *)

(** What happens while [exec] is awaited: the engine emits a progress
    event, or the 300ms interval fires (with its [Math.random()]). *)
Inductive Signal : Type :=
| EngineProgress (progress : Num.number)
| TimerTick (random : Num.number).

Record Tracker : Type := mkTracker {
  lastProgress : Num.number;
  isCompleted : bool
}.

(** Each handler returns the new tracker and what it passes to
    [onProgress], if anything. *)
Definition progressCallback (progress : Num.number) (t : Tracker)
  : Tracker * option Num.number :=
  if negb (isCompleted t) then
    let progressPercent := Num.round (Num.mul progress (Num.ofZ 100)) in
    if Num.gtb progressPercent (lastProgress t)
    then (mkTracker progressPercent (isCompleted t), Some progressPercent)
    else (t, None)
  else (t, None).

Definition intervalTick (random : Num.number) (t : Tracker)
  : Tracker * option Num.number :=
  if negb (isCompleted t) && Num.ltb (lastProgress t) (Num.ofZ 95) then
    let increment := Num.add (Num.mul random (Num.ofZ 2)) (Num.ratio 1 2) in
    let newProgress := Num.min (Num.add (lastProgress t) increment) (Num.ofZ 95) in
    if Num.gtb newProgress (lastProgress t)
    then (mkTracker newProgress (isCompleted t), Some (Num.round newProgress))
    else (t, None)
  else (t, None).

Definition handle (sg : Signal) (t : Tracker) : Tracker * option Num.number :=
  match sg with
  | EngineProgress p => progressCallback p t
  | TimerTick r => intervalTick r t
  end.

(** The handlers run in the order of the signals; the reports are
    collected oldest first. *)
Fixpoint feed (sgs : list Signal) (t : Tracker) : Tracker * list Num.number :=
  match sgs with
  | [] => (t, [])
  | sg :: rest =>
      let '(t1, r) := handle sg t in
      let '(t2, rs) := feed rest t1 in
      (t2, match r with Some v => v :: rs | None => rs end)
  end.

Definition initialTracker : Tracker := mkTracker (Num.ofZ 0) false.

(** What a signal offers as the new value: the rounded percentage of the
    engine, or the filler's step from the current value, held at 95. *)
Definition candidate (sg : Signal) (t : Tracker) : Num.number :=
  match sg with
  | EngineProgress p => Num.round (Num.mul p (Num.ofZ 100))
  | TimerTick r =>
      Num.min (Num.add (lastProgress t) (Num.add (Num.mul r (Num.ofZ 2)) (Num.ratio 1 2)))
              (Num.ofZ 95)
  end.

(** The larger of the value kept and the value offered, as the two
    handlers compare them: NaN is never larger. *)
Definition larger (kept offered : Num.number) : Num.number :=
  if Num.gtb offered kept then offered else kept.

(** The engine's own percentage stays at or below 95; the timer is free. *)
Definition modest (sg : Signal) : bool :=
  match sg with
  | EngineProgress p => Num.leb (Num.round (Num.mul p (Num.ofZ 100))) (Num.ofZ 95)
  | TimerTick _ => true
  end.

(** *** The engine, the browser and the monad of the wrapper *)

(** What the wrapper asks of its surroundings.  Every operation may
    change the world and, when it is a promise, may reject. *)
Class Env (W : Type) : Type := {
  dateNow : W -> Z * W;
  mathRandom36 : W -> string * W;
  fetchFile : File -> W -> (Exn + bytes) * W;
  ff_listDir : string -> W -> (Exn + list string) * W;
  ff_writeFile : string -> bytes -> W -> (Exn + unit) * W;
  ff_readFile : string -> W -> (Exn + bytes) * W;
  ff_deleteFile : string -> W -> (Exn + unit) * W;
  ff_exec : list string -> W -> (list Signal * (Exn + unit)) * W
}.

(** The calls made, in order. *)
Inductive Call : Type :=
| CListDir (path : string)
| CFetchFile (f : File)
| CWriteFile (path : string) (data : bytes)
| CReadFile (path : string)
| CDeleteFile (path : string)
| CExec (command : list string).

(** A call on the engine instance; [fetchFile] reads the browser's file. *)
Definition engine_call (c : Call) : bool :=
  match c with CFetchFile _ => false | _ => true end.

(** A call that creates or fills a file of the virtual filesystem. *)
Definition writes (c : Call) : bool :=
  match c with CWriteFile _ _ | CExec _ => true | _ => false end.

(** A listing of the directory or the deletion of a file. *)
Definition housekeeping (c : Call) : bool :=
  match c with CListDir _ | CDeleteFile _ => true | _ => false end.

(** What is sent to the console at the error level and matters below. *)
Inductive Log : Type :=
| LogSizeMismatch (written original : Z)
| LogCleanupFailed.

Record Sys (W : Type) : Type := mkSys {
  world : W;
  calls : list Call;
  reports : list Num.number;
  console : list Log
}.
Arguments mkSys {W}.
Arguments world {W}.
Arguments calls {W}.
Arguments reports {W}.
Arguments console {W}.

Definition M (W A : Type) : Type := Sys W -> (Exn + A) * Sys W.

Definition ret {W A} (a : A) : M W A := fun s => (inr a, s).

Definition bind {W A B} (m : M W A) (k : A -> M W B) : M W B :=
  fun s => match m s with
           | (inr a, s1) => k a s1
           | (inl e, s1) => (inl e, s1)
           end.

Definition throw {W A} (e : Exn) : M W A := fun s => (inl e, s).

(** [try { m } catch (e) { h e }] *)
Definition catch {W A} (m : M W A) (h : Exn -> M W A) : M W A :=
  fun s => match m s with
           | (inr a, s1) => (inr a, s1)
           | (inl e, s1) => h e s1
           end.

(** [try { m } catch { console.warn(...) }] *)
Definition attempt {W A} (m : M W A) : M W unit :=
  fun s => match m s with (_, s1) => (inr tt, s1) end.

Definition ambient {W A} (op : W -> A * W) : M W A :=
  fun s => let '(a, w) := op (world s) in
           (inr a, mkSys w (calls s) (reports s) (console s)).

Definition call {W A} (c : Call) (op : W -> (Exn + A) * W) : M W A :=
  fun s => let '(r, w) := op (world s) in
           (r, mkSys w (calls s ++ [c]) (reports s) (console s)).

Definition log {W} (l : Log) : M W unit :=
  fun s => (inr tt, mkSys (world s) (calls s) (reports s) (console s ++ [l])).

Definition onProgress {W} (vs : list Num.number) : M W unit :=
  fun s => (inr tt, mkSys (world s) (calls s) (reports s ++ vs) (console s)).

#[local] Notation "'await' x <- m ;; k" := (bind m (fun x => k))
  (at level 10, x name, m at level 99, k at level 200, only parsing).
#[local] Notation "'perform' m ;; k" := (bind m (fun _ => k))
  (at level 10, m at level 99, k at level 200, only parsing).

(** *** [extractAudio] *)

Section ExtractAudio.
Context `{Casing} {W : Type} `{Env W}.

(** [`${n}`] for an integer. *)
Definition decimal (n : Z) : string := NilZero.string_of_int (Z.to_int n).

Definition inputName (uniqueId : string) (videoFile : File) : string :=
  "input_" ++ uniqueId ++ "." ++
  match rawExtension videoFile with
  | Some e => if truthy e then e else "mp4"
  | None => "mp4"
  end.

Definition outputName (uniqueId : string) (outputFormat : Format) : string :=
  "output_" ++ uniqueId ++ "." ++ format_name outputFormat.

(** The size check and the check of the type and the extension. *)
Definition preflight (videoFile : File) : M W unit :=
  if file_size videoFile >? sizeLimit then throw (JsError msg_too_large)
  else if negb (isTypeSupported videoFile) && negb (isExtensionSupported videoFile)
  then throw (JsError msg_unsupported)
  else ret tt.

(** Write the source and read it back. *)
Definition writeInput (inputFileName : string) (videoFile : File) : M W unit :=
  await fileData <- call (CFetchFile videoFile) (fetchFile videoFile) ;;
  let originalSize := byteLength fileData in
  perform call (CWriteFile inputFileName fileData) (ff_writeFile inputFileName fileData) ;;
  catch
    (await writtenFileData <- call (CReadFile inputFileName) (ff_readFile inputFileName) ;;
     let writtenSize := byteLength writtenFileData in
     if negb (writtenSize =? originalSize)
     then log (LogSizeMismatch writtenSize originalSize)
     else ret tt)
    (fun verifyError => throw (JsError msg_write_verify)).

(** Run the command with the two progress handlers installed when the
    caller gave a callback; a completed command reports 100. *)
Definition runCommand (hasCallback : bool) (command : list string) : M W unit :=
  fun s =>
    let '((signals, outcome), w) := ff_exec command (world s) in
    let during := if hasCallback then snd (feed signals initialTracker) else [] in
    let s1 := mkSys w (calls s ++ [CExec command]) (reports s ++ during) (console s) in
    match outcome with
    | inr _ => (if hasCallback then onProgress [Num.ofZ 100] else ret tt) s1
    | inl execError => (inl execError, s1)
    end.

Definition readOutput (outputFileName : string) : M W bytes :=
  catch
    (perform call (CListDir "/") (ff_listDir "/") ;;
     call (CReadFile outputFileName) (ff_readFile outputFileName))
    (fun readError =>
       perform attempt (call (CListDir "/") (ff_listDir "/")) ;;
       throw (JsError msg_read_output)).

Definition cleanup (inputFileName outputFileName : string) : M W unit :=
  fun s =>
    match (perform call (CDeleteFile inputFileName) (ff_deleteFile inputFileName) ;;
           call (CDeleteFile outputFileName) (ff_deleteFile outputFileName)) s with
    | (inr _, s1) => (inr tt, s1)
    | (inl cleanupError, s1) => log LogCleanupFailed s1
    end.

(** The last part of the [catch] block: which error leaves. *)
Definition classify (error : Exn) : Exn :=
  match error with
  | JsError message =>
      let errorMessage := toLowerCase message in
      if includes errorMessage "invalid data found" || includes errorMessage "invalid argument"
      then JsError msg_corrupt_input
      else if includes errorMessage "no such file" || includes errorMessage "file not found"
      then JsError msg_file_read
      else if includes errorMessage "permission denied"
      then JsError msg_permission
      else if includes errorMessage "out of memory" || includes errorMessage "memory"
      then JsError msg_memory
      else if includes errorMessage "codec" || includes errorMessage "format"
      then JsError msg_codec
      else if includes errorMessage "corrupted" || includes errorMessage "damaged"
      then JsError msg_damaged
      else if includes message "不支持的视频格式"
      then error
      else JsError msg_generic
  | JsOther => JsError msg_generic
  end.

Definition deleteLeftover (p : Processor) (fileName : string) : M W unit :=
  fun s =>
    match ffmpeg p with
    | Some _ =>
        match call (CDeleteFile fileName) (ff_deleteFile fileName) s with
        | (inr _, s1) => (inr tt, s1)
        | (inl cleanupError, s1) => log LogCleanupFailed s1
        end
    | None => (inr tt, s)
    end.

Definition onFailure (p : Processor) (inputFileName outputFileName : string)
           (error : Exn) : M W Blob :=
  perform attempt (match ffmpeg p with
                   | Some _ => call (CListDir "/") (ff_listDir "/")
                   | None => ret []
                   end) ;;
  perform deleteLeftover p inputFileName ;;
  perform deleteLeftover p outputFileName ;;
  throw (classify error).

Definition extractAudio (p : Processor) (videoFile : File) (outputFormat : Format)
           (quality : Quality) (hasCallback : bool) : M W Blob :=
  if negb (bool_decide (is_Some (ffmpeg p))) || negb (loaded p)
  then throw (JsError msg_not_loaded)
  else
    await timestamp <- ambient dateNow ;;
    await random <- ambient mathRandom36 ;;
    let randomId := substring 2 8 random in
    let uniqueId := decimal timestamp ++ "_" ++ randomId in
    let inputFileName := inputName uniqueId videoFile in
    let outputFileName := outputName uniqueId outputFormat in
    perform attempt (call (CListDir "/") (ff_listDir "/")) ;;
    catch
      (perform preflight videoFile ;;
       perform writeInput inputFileName videoFile ;;
       let qualityParams := getQualityParams (format_name outputFormat) (quality_name quality) in
       let command := (["-i"; inputFileName; "-vn"] ++ qualityParams ++ [outputFileName])%list in
       perform runCommand hasCallback command ;;
       await data <- readOutput outputFileName ;;
       if byteLength data =? 0 then throw (JsError msg_empty_output)
       else
         perform cleanup inputFileName outputFileName ;;
         ret (mkBlob data (getMimeType (format_name outputFormat))))
      (onFailure p inputFileName outputFileName).

Definition start (w : W) : Sys W := mkSys w [] [] [].

(** The claim of the specification: the call is rejected and the engine
    has not been asked anything. *)
Definition rejectedBeforeEngine (r : (Exn + Blob) * Sys W) : Prop :=
  (exists e, fst r = inl e) /\ Forall (fun c => engine_call c = false) (calls (snd r)).

(** The two temporary names a call draws from the clock and the random
    source of the world it starts in. *)
Definition uniqueIdIn (w : W) : string :=
  let '(timestamp, w1) := dateNow w in
  let '(random, _) := mathRandom36 w1 in
  (decimal timestamp ++ "_" ++ substring 2 8 random)%string.

Definition inputNameIn (w : W) (videoFile : File) : string :=
  inputName (uniqueIdIn w) videoFile.

Definition outputNameIn (w : W) (outputFormat : Format) : string :=
  outputName (uniqueIdIn w) outputFormat.

(** The processor passes the guard at the head of [extractAudio]. *)
Definition usable (p : Processor) : bool :=
  bool_decide (is_Some (ffmpeg p)) && loaded p.

End ExtractAudio.

(** *** [load] and [loadWithRetry] *)

(** The network and the engine's initialisation, as the loader sees
    them.  A cache-busted URL is told apart by the URL and the number of
    the retry. *)
Inductive Response : Type :=
| Responded (ok : bool) (status : Z) (statusText : string)
| FetchRejected (reason : Exn).

Record Net : Type := mkNet {
  fetchHead : string -> nat -> Response;
  toBlobURL : string -> string -> nat -> Exn + string;
  engineLoad : string -> string -> Exn + unit;
  execVersion : string -> string -> Exn + unit
}.

Definition cdnSources : list string :=
  ["https://unpkg.com/@ffmpeg/core@0.12.6/dist/esm";
   "https://cdn.jsdelivr.net/npm/@ffmpeg/core@0.12.6/dist/esm";
   "https://fastly.jsdelivr.net/npm/@ffmpeg/core@0.12.6/dist/esm"].

(** One pass of the body of the retry loop. *)
Definition fetchOnce (net : Net) (url type : string) (i : nat) : Exn + string :=
  match fetchHead net url i with
  | Responded true _ _ => toBlobURL net url type i
  | Responded false status statusText =>
      inl (JsError ("HTTP " ++ decimal status ++ ": " ++ statusText))
  | FetchRejected reason => inl reason
  end.

(** [Math.min(1000 * Math.pow(2, i), 5000)] *)
Definition backoff (i : nat) : Z := Z.min (1000 * 2 ^ Z.of_nat i) 5000.

(** The loop [for (let i = 0; i < maxRetries; i++)], entered at [i] with
    [todo] passes left; the delays waited are collected. *)
Fixpoint retryLoop (net : Net) (url type : string) (maxRetries : nat)
         (todo i : nat) (lastError : option Exn) : (Exn + string) * list Z :=
  match todo with
  | O =>
      (inl (default (JsError ("Failed to load " ++ url ++ " after " ++
                              decimal (Z.of_nat maxRetries) ++ " attempts")) lastError), [])
  | S todo' =>
      match fetchOnce net url type i with
      | inr blobURL => (inr blobURL, [])
      | inl error =>
          let waited := if (S i <? maxRetries)%nat then [backoff i] else [] in
          let '(r, ds) := retryLoop net url type maxRetries todo' (S i) (Some error) in
          (r, (waited ++ ds)%list)
      end
  end.

Definition loadWithRetry (net : Net) (url type : string) (maxRetries : nat)
  : (Exn + string) * list Z :=
  retryLoop net url type maxRetries maxRetries 0%nat None.

(** [await this.ffmpeg.load({ coreURL, wasmURL })] *)
Definition ffmpegLoad (net : Net) (inst : option FFmpeg) (coreURL wasmURL : string)
  : Exn + unit :=
  match inst with
  | None => inl (JsError "Cannot read properties of null (reading 'load')")
  | Some _ => engineLoad net coreURL wasmURL
  end.

Definition validateFFmpeg (net : Net) (inst : option FFmpeg) (coreURL wasmURL : string)
  : Exn + unit :=
  match inst with
  | None => inl (JsError msg_instance_null)
  | Some _ =>
      match execVersion net coreURL wasmURL with
      | inr _ => inr tt
      | inl _ => inl (JsError msg_selftest_failed)
      end
  end.

(** Initialise and self-test. *)
Definition initialize (net : Net) (inst : option FFmpeg) (coreURL wasmURL : string)
  : Exn + unit :=
  match ffmpegLoad net inst coreURL wasmURL with
  | inr _ => validateFFmpeg net inst coreURL wasmURL
  | inl e => inl e
  end.

Definition direct (net : Net) (inst : option FFmpeg) (baseURL : string) : Exn + unit :=
  initialize net inst (baseURL ++ "/ffmpeg-core.js") (baseURL ++ "/ffmpeg-core.wasm").

(** The staged path: fetch both artifacts, then initialise from them. *)
Definition staged (net : Net) (inst : option FFmpeg) (baseURL : string)
  : (Exn + unit) * list Z :=
  match loadWithRetry net (baseURL ++ "/ffmpeg-core.js") "text/javascript" 3 with
  | (inl e, d1) => (inl e, d1)
  | (inr coreURL, d1) =>
      match loadWithRetry net (baseURL ++ "/ffmpeg-core.wasm") "application/wasm" 3 with
      | (inl e, d2) => (inl e, (d1 ++ d2)%list)
      | (inr wasmURL, d2) => (initialize net inst coreURL wasmURL, (d1 ++ d2)%list)
      end
  end.

(** The body of the outer [try] for one source. *)
Definition fromSource (net : Net) (inst : option FFmpeg) (baseURL : string)
  : (Exn + unit) * list Z :=
  match direct net inst baseURL with
  | inr _ => (inr tt, [])
  | inl directError => staged net inst baseURL
  end.

(** The loop over the sources.  The instance is set to [null] when a
    source fails and is not created again inside the loop. *)
Fixpoint loadLoop (net : Net) (sources : list string) (p : Processor)
  : ((Exn + unit) * Processor) * list Z :=
  match sources with
  | [] => ((inl (JsError msg_load_failed), mkProcessor None false), [])
  | baseURL :: rest =>
      match fromSource net (ffmpeg p) baseURL with
      | (inr _, d) => ((inr tt, mkProcessor (ffmpeg p) true), d)
      | (inl error, d) =>
          let '(r, d') := loadLoop net rest (mkProcessor None false) in
          (r, (d ++ d')%list)
      end
  end.

Definition loadFrom (net : Net) (sources : list string) (p : Processor)
  : ((Exn + unit) * Processor) * list Z :=
  if loaded p && bool_decide (is_Some (ffmpeg p)) then ((inr tt, p), [])
  else loadLoop net sources (mkProcessor (Some NewFFmpeg) (loaded p)).

Definition load (net : Net) (p : Processor) : ((Exn + unit) * Processor) * list Z :=
  loadFrom net cdnSources p.

(** A source, tried on a live instance: does the direct initialisation
    fail, does the staged path fail. *)
Definition directFails (net : Net) (baseURL : string) : bool :=
  match direct net (Some NewFFmpeg) baseURL with inl _ => true | inr _ => false end.

Definition stagedFails (net : Net) (baseURL : string) : bool :=
  match fst (staged net (Some NewFFmpeg) baseURL) with inl _ => true | inr _ => false end.

End Ffmpeg.

(* ================================================================= *)
(** ** The batch orchestrator: the [Processing] page *)

Module Processing.
Import Js Media Store.

(** *** The guard of the effect *)

Definition generateFilesHash (fileList : list VideoFile) : string :=
  join "|" (sort (List.map id fileList)).

Record Refs : Type := mkRefs {
  hasStartedProcessingRef : bool;
  filesHashRef : string
}.

Definition initialRefs : Refs := mkRefs false "".

Definition hasPending (fs : list VideoFile) : bool :=
  List.existsb (fun f => status_eqb (status f) pending) fs.

(** The body of the effect, run with the values of one render: the refs
    after it, and whether it called [startProcessing]. *)
Definition effect (files : list VideoFile) (ffmpegLoaded isProcessing : bool) (r : Refs)
  : Refs * bool :=
  let currentFilesHash := generateFilesHash files in
  let r1 := if negb (String.eqb (filesHashRef r) currentFilesHash)
            then mkRefs false currentFilesHash
            else r in
  if ffmpegLoaded && negb isProcessing && (0 <? List.length files)%nat
     && negb (hasStartedProcessingRef r1)
  then if hasPending files
       then (mkRefs true (filesHashRef r1), true)
       else (r1, false)
  else (r1, false).

(** *** The pipeline as the orchestrator uses it *)

(** [extract] stands for [ffmpegProcessor.extractAudio] awaited with a
    progress callback: its result, the values passed to the callback, and
    the world after it.  Only an awaited call lets the world change. *)
Class Pipeline (W : Type) : Type := {
  isLoaded : W -> bool;
  extract : File -> Format -> Quality -> W -> ((Exn + Blob) * list Z) * W;
  createObjectURL : Blob -> W -> string * W;
  getTime : W -> Z * W;
  random36 : W -> string * W
}.

Inductive Toast : Type :=
| ToastError (message : string)
| ToastSuccess (message : string).

Definition msg_not_ready : string := "音频处理引擎未就绪，请稍等片刻或刷新页面重试".
Definition msg_not_ready_retry : string := "音频处理引擎未就绪，请刷新页面重试".
Definition msg_engine_lost : string := "音频处理引擎异常，请重新加载页面".
Definition msg_failed : string := "处理失败".
Definition msg_none_succeeded : string := "没有文件处理成功，请检查文件格式或重试".
Definition dquote : string := String (ascii_of_nat 34) EmptyString.

(** [originalName.replace(/\.[^/.]+$/, '')]: the text after the last dot
    goes, with the dot, when it is not empty and holds no slash. *)
Definition nameWithoutExt (originalName : string) : string :=
  let segs := split "." originalName in
  match pop segs with
  | Some ext =>
      if (1 <? List.length segs)%nat && negb (String.eqb ext "") && negb (includes ext "/")
      then join "." (List.removelast segs)
      else originalName
  | None => originalName
  end.

(** [generateUniqueFilename], with the time stamp it reads. *)
Definition generateUniqueFilename (originalName format : string) (timestamp : Z) : string :=
  nameWithoutExt originalName ++ "_audio_" ++ Ffmpeg.decimal timestamp ++ "." ++ format.

(** *** The component and a run *)

Record Component : Type := mkComponent {
  currentProcessingIndex : nat;
  isProcessing : bool;
  processingStartTime : option Z;
  refs : Refs
}.

(** Everything a call of [startProcessing] or [retryProcessing] can
    change.  [dispatched] lists the ids of the jobs handed to the
    pipeline, in order. *)
Record Run (W : Type) : Type := mkRun {
  store : AppState;
  world : W;
  component : Component;
  toasts : list Toast;
  processedFiles : list ProcessingHistory;
  dispatched : list string
}.
Arguments mkRun {W}.
Arguments store {W}.
Arguments world {W}.
Arguments component {W}.
Arguments toasts {W}.
Arguments processedFiles {W}.
Arguments dispatched {W}.

(** How a call of [startProcessing] ends. *)
Inductive Verdict : Type :=
| Skipped
| NotReady
| Advance
| Failure.

(** What the three updates of the retry action make of a job. *)
Definition rearmed (g : VideoFile) : VideoFile :=
  spread (with_progress
            (spread g (mkPartial None None None None None None None None None (Some pending)
                                 None None None None None None))
            processing_ (Z.max (processingProgress g) 0))
         (errorInfo None).

(** Does [g] carry the id of a failed job of [files]. *)
Definition failedId (files : list VideoFile) (g : VideoFile) : bool :=
  List.existsb (fun f => status_eqb (status f) Store.error && String.eqb (id g) (id f)) files.

(** Would the loop start this job: it is pending, and so is the first
    job of the rendered list that carries its id. *)
Definition dispatchable (files : list VideoFile) (f : VideoFile) : bool :=
  status_eqb (status f) pending &&
  match List.find (fun g => String.eqb (id g) (id f)) files with
  | Some currentFileState => status_eqb (status currentFileState) pending
  | None => false
  end.

(** Does [g] carry the id of a job of [rest] that the loop would start. *)
Definition startedId (files rest : list VideoFile) (g : VideoFile) : bool :=
  List.existsb (fun f => dispatchable files f && String.eqb (id g) (id f)) rest.

(** What the loop makes of a job it starts while the engine is not
    loaded: the two updates that open the [try] block, then the two of the
    [catch] block. *)
Definition lostJob (g : VideoFile) : VideoFile :=
  spread
    (spread
       (with_progress
          (spread g (mkPartial None None None None None None None None None (Some processing)
                               None None None None None None))
          processing_ (Z.max (processingProgress g) 0))
       (mkPartial None None None None None None None None None (Some Store.error)
                  None None None None None None))
    (errorInfo (Some msg_engine_lost)).

Definition lostToast (f : VideoFile) : Toast :=
  ToastError (dquote ++ name f ++ dquote ++ " 处理失败: " ++ msg_engine_lost).

(** The updates of the registry that the orchestrator and the pipeline
    make while jobs run. *)
Inductive Update : Type :=
| SetStatus (i : string) (s : Status)
| SetProgress (i : string) (v : Z) (k : ProgressKind)
| SetInfo (i : string) (info : Partial).

Definition applyUpdate (st : AppState) (u : Update) : AppState :=
  match u with
  | SetStatus i s => updateFileStatus i s st
  | SetProgress i v k => updateFileProgress i v k st
  | SetInfo i info => updateFileInfo i info st
  end.

(** An update of statuses, progress and results: it gives no job another id. *)
Definition keepsIds (u : Update) : bool :=
  match u with
  | SetInfo _ info => match p_id info with None => true | Some _ => false end
  | _ => true
  end.

(** An id that cannot be taken for two ids, or for none, once the ids
    are joined with a bar. *)
Definition wellFormedId (i : string) : bool :=
  negb (String.eqb i "") && freeOf "|" i.

Section Orchestrator.
Context {W : Type} `{Pipeline W}.

Definition with_store (r : Run W) (st : AppState) : Run W :=
  mkRun st (world r) (component r) (toasts r) (processedFiles r) (dispatched r).

Definition with_world (r : Run W) (w : W) : Run W :=
  mkRun (store r) w (component r) (toasts r) (processedFiles r) (dispatched r).

Definition with_component (r : Run W) (c : Component) : Run W :=
  mkRun (store r) (world r) c (toasts r) (processedFiles r) (dispatched r).

Definition toast (r : Run W) (t : Toast) : Run W :=
  mkRun (store r) (world r) (component r) (toasts r ++ [t]) (processedFiles r) (dispatched r).

Definition setCurrentProcessingIndex (i : nat) (c : Component) : Component :=
  mkComponent i (isProcessing c) (processingStartTime c) (refs c).

Definition setIsProcessing (b : bool) (c : Component) : Component :=
  mkComponent (currentProcessingIndex c) b (processingStartTime c) (refs c).

Definition setProcessingStartTime (t : Z) (c : Component) : Component :=
  mkComponent (currentProcessingIndex c) (isProcessing c) (Some t) (refs c).

Definition setHasStarted (b : bool) (c : Component) : Component :=
  mkComponent (currentProcessingIndex c) (isProcessing c) (processingStartTime c)
              (mkRefs b (filesHashRef (refs c))).

(** The [catch] block of one job. *)
Definition failJob (file : VideoFile) (thrown : Exn) (r : Run W) : Run W :=
  let errorMessage := match thrown with JsError m => m | JsOther => msg_failed end in
  let r1 := with_store r (updateFileInfo (id file) (errorInfo (Some errorMessage))
                            (updateFileStatus (id file) Store.error (store r))) in
  toast r1 (ToastError (dquote ++ name file ++ dquote ++ " 处理失败: " ++ errorMessage)).

(** The part of the [try] block after a successful extraction. *)
Definition completeJob (file : VideoFile) (audioBlob : Blob) (r : Run W) : Run W :=
  let '(audioUrl, w1) := createObjectURL audioBlob (world r) in
  let '(stamp, w2) := getTime w1 in
  let audioFileName := generateUniqueFilename (name file) "mp3" stamp in
  let st := updateFileInfo (id file) (resultInfo audioUrl audioBlob mp3 high completed)
                           (store r) in
  let '(rnd, w3) := random36 w2 in
  let '(processed, w4) := getTime w3 in
  let item :=
    {| h_id := substr 2 9 rnd;
       originalFileName := name file;
       audioFileName := Some audioFileName;
       h_audioUrl := Some audioUrl;
       h_audioBlob := Some audioBlob;
       h_audioFormat := Some "mp3";
       h_audioQuality := Some "high";
       fileSize := blob_size audioBlob;
       h_duration := Some (match duration file with
                           | Some d => d
                           | None => 0
                           end);
       processedAt := processed;
       hasTranscription := false;
       operationType := audio_extraction |} in
  mkRun st w4 (component r) (toasts r) (processedFiles r ++ [item]) (dispatched r).

(** The body of the loop for [files[i]]; [files] is the list the
    component rendered with, not the store's current one. *)
Definition processFile (files : list VideoFile) (i : nat) (file : VideoFile) (r : Run W)
  : Run W :=
  if negb (status_eqb (status file) pending) then r
  else
    match List.find (fun f => String.eqb (id f) (id file)) files with
    | None => r
    | Some currentFileState =>
        if negb (status_eqb (status currentFileState) pending) then r
        else
          let r1 := with_component r (setCurrentProcessingIndex i (component r)) in
          let r2 := with_store r1
                      (updateFileProgress (id file) 0 processing_
                         (updateFileStatus (id file) processing (store r1))) in
          if negb (isLoaded (world r2))
          then failJob file (JsError msg_engine_lost) r2
          else
            let '((result, progress), w) := extract (Store.file file) mp3 high (world r2) in
            let st := List.fold_left
                        (fun st v => updateFileProgress (id file) v processing_ st)
                        progress (store r2) in
            let r3 := mkRun st w (component r2) (toasts r2) (processedFiles r2)
                            (dispatched r2 ++ [id file]) in
            match result with
            | inr audioBlob => completeJob file audioBlob r3
            | inl thrown => failJob file thrown r3
            end
    end.

(** [for (let i = 0; i < files.length; i++)], entered at index [i] with
    [rest] still to visit. *)
Fixpoint processFrom (files : list VideoFile) (i : nat) (rest : list VideoFile) (r : Run W)
  : Run W :=
  match rest with
  | [] => r
  | file :: rest' => processFrom files (S i) rest' (processFile files i file r)
  end.

Definition countStatus (s : Status) (fs : list VideoFile) : nat :=
  List.length (List.filter (fun f => status_eqb (status f) s) fs).

(** What follows the loop. *)
Definition finish (r : Run W) : Run W * Verdict :=
  let r1 := with_component r (setHasStarted false (setIsProcessing false (component r))) in
  let r2 := with_store r1
              (List.fold_left (fun st item => addToHistory item st)
                              (processedFiles r1) (store r1)) in
  let currentFiles := Store.files (store r2) in
  let completedFiles := countStatus completed currentFiles in
  let errorFiles := countStatus Store.error currentFiles in
  if (0 <? completedFiles)%nat then
    (toast r2 (ToastSuccess
       (if (0 <? errorFiles)%nat
        then "处理完成！" ++ Ffmpeg.decimal (Z.of_nat completedFiles) ++ " 个文件成功，"
             ++ Ffmpeg.decimal (Z.of_nat errorFiles) ++ " 个文件失败"
        else "所有文件处理完成！共 " ++ Ffmpeg.decimal (Z.of_nat completedFiles)
             ++ " 个文件")), Advance)
  else (toast r2 (ToastError msg_none_succeeded), Failure).

(** [startProcessing], called with the values of the render that
    created it. *)
Definition startProcessing (files : list VideoFile) (ffmpegLoaded isProcessing : bool)
           (r : Run W) : Run W * Verdict :=
  if isProcessing || (List.length files =? 0)%nat then (r, Skipped)
  else if (countStatus pending files =? 0)%nat then (r, Skipped)
  else if negb ffmpegLoaded || negb (isLoaded (world r))
  then (toast r (ToastError msg_not_ready), NotReady)
  else
    let '(started, w) := getTime (world r) in
    let r1 := mkRun (store r) w
                    (setProcessingStartTime started (setIsProcessing true (component r)))
                    (toasts r) [] (dispatched r) in
    finish (processFrom files 0 files r1).

(** The [forEach] of [retryProcessing]. *)
Definition resetFailed (files : list VideoFile) (st : AppState) : AppState :=
  List.fold_left
    (fun st file =>
       if status_eqb (status file) Store.error
       then updateFileInfo (id file) (errorInfo None)
              (updateFileProgress (id file) 0 processing_
                 (updateFileStatus (id file) pending st))
       else st)
    files st.

(** [retryProcessing]: the run after the synchronous part, and whether
    [startProcessing] was scheduled (it runs 500ms later). *)
Definition retryProcessing (files : list VideoFile) (ffmpegLoaded : bool) (r : Run W)
  : Run W * bool :=
  if negb ffmpegLoaded || negb (isLoaded (world r))
  then (toast r (ToastError msg_not_ready_retry), false)
  else
    let r1 := with_store r (resetFailed files (store r)) in
    (with_component r1
       (setHasStarted false (setIsProcessing false
          (setCurrentProcessingIndex 0 (component r1)))), true).

(** *** A run cut at its awaits, and the instances of the page *)

(** [startProcessing] up to its loop: the run there, and whether the
    loop is entered. *)
Definition openRun (files : list VideoFile) (ffmpegLoaded isProcessing : bool) (r : Run W)
  : Run W * bool :=
  if isProcessing || (List.length files =? 0)%nat then (r, false)
  else if (countStatus pending files =? 0)%nat then (r, false)
  else if negb ffmpegLoaded || negb (isLoaded (world r))
  then (toast r (ToastError msg_not_ready), false)
  else
    let '(started, w) := getTime (world r) in
    (mkRun (store r) w
           (setProcessingStartTime started (setIsProcessing true (component r)))
           (toasts r) [] (dispatched r), true).

(** The body of the loop up to [await ffmpegProcessor.extractAudio(...)]:
    the run there, and whether the job has been handed to the pipeline and
    is awaited. *)
Definition beginJob (files : list VideoFile) (i : nat) (file : VideoFile) (r : Run W)
  : Run W * bool :=
  if negb (status_eqb (status file) pending) then (r, false)
  else
    match List.find (fun f => String.eqb (id f) (id file)) files with
    | None => (r, false)
    | Some currentFileState =>
        if negb (status_eqb (status currentFileState) pending) then (r, false)
        else
          let r1 := with_component r (setCurrentProcessingIndex i (component r)) in
          let r2 := with_store r1
                      (updateFileProgress (id file) 0 processing_
                         (updateFileStatus (id file) processing (store r1))) in
          if negb (isLoaded (world r2))
          then (failJob file (JsError msg_engine_lost) r2, false)
          else (mkRun (store r2) (world r2) (component r2) (toasts r2) (processedFiles r2)
                      (dispatched r2 ++ [id file]), true)
    end.

(** The body of the loop from the moment the awaited extraction
    settles. *)
Definition resumeJob (file : VideoFile) (r : Run W) : Run W :=
  let '((result, progress), w) := extract (Store.file file) mp3 high (world r) in
  let st := List.fold_left
              (fun st v => updateFileProgress (id file) v processing_ st)
              progress (store r) in
  let r3 := mkRun st w (component r) (toasts r) (processedFiles r) (dispatched r) in
  match result with
  | inr audioBlob => completeJob file audioBlob r3
  | inl thrown => failJob file thrown r3
  end.

(** The loop from index [i], run until it awaits an extraction or has
    visited every job: the run there and, when it awaits, the job awaited,
    the next index and the jobs still to visit. *)
Fixpoint advance (files : list VideoFile) (i : nat) (rest : list VideoFile) (r : Run W)
  : Run W * option (VideoFile * nat * list VideoFile) :=
  match rest with
  | [] => (r, None)
  | file :: rest' =>
      let '(r1, awaited) := beginJob files i file r in
      if awaited then (r1, Some (file, S i, rest'))
      else advance files (S i) rest' r1
  end.

(** The state of a component that mounts: the initial values of its
    three [useState] and its two [useRef]. *)
Definition mounted : Component := mkComponent 0 false None initialRefs.

(** One render of an instance with its effect: the effect runs on the
    job list the render sees and calls [startProcessing], which runs up to
    its loop.  The run after it, and whether a run has been opened. *)
Definition render (files : list VideoFile) (ffmpegLoaded : bool) (r : Run W) : Run W * bool :=
  let c := component r in
  let '(refs1, called) := effect files ffmpegLoaded (isProcessing c) (refs c) in
  let r1 := with_component r (mkComponent (currentProcessingIndex c) (isProcessing c)
                                          (processingStartTime c) refs1) in
  if called then openRun files ffmpegLoaded (isProcessing c) r1 else (r1, false).

(** [App] renders [<Processing />] only while [currentPage] is
    ['processing']: when the page is left and entered again, a new instance
    mounts.  The registry, the engine and the toasts belong to the
    application and are shared; the component state and the
    [processedFiles] of a call of [startProcessing] belong to the instance
    and to the call.  [mountOn shared] is the new instance on what an
    earlier one has left, [takeover mine shared] an instance that goes on,
    after an await, on what another one has left. *)
Definition mountOn (shared : Run W) : Run W :=
  mkRun (store shared) (world shared) mounted (toasts shared) [] (dispatched shared).

Definition takeover (mine shared : Run W) : Run W :=
  mkRun (store shared) (world shared) (component mine) (toasts shared)
        (processedFiles mine) (dispatched shared).

End Orchestrator.

End Processing.

(* ================================================================= *)
(** ** Worlds to run the model in *)

Module Sim.
Import Js Media Ffmpeg.

(** The lower-casing of a browser, on the texts of the examples: they hold
    ASCII and caseless characters only. *)
#[global] Instance plainCasing : Casing | 100 := {|
  toLowerCase := asciiLower;
  toLowerCase_caseless := fun s _ => eq_refl
|}.

(** An engine whose filesystem is a finite map.  [keep] makes it lossy:
    a write stores only the first [n] bytes.  [signals] is what happens
    while a command runs, [encoded] what the codec makes of its input. *)
Record Mem : Type := mkMem {
  fs : gmap string bytes;
  clock : Z;
  seed : string;
  keep : option nat;
  signals : list Signal;
  encoded : Exn + bytes
}.

Definition with_fs (m : Mem) (f : gmap string bytes) : Mem :=
  mkMem f (clock m) (seed m) (keep m) (signals m) (encoded m).

Definition fsError : Exn := JsError "ErrnoError: FS error".

Definition memExec (command : list string) (m : Mem) : (list Signal * (Exn + unit)) * Mem :=
  let input := List.nth 1 command "" in
  let output := List.last command "" in
  match fs m !! input with
  | None => (([], inl (JsError (input ++ ": No such file or directory"))), m)
  | Some _ =>
      match encoded m with
      | inr out => ((signals m, inr tt), with_fs m (<[output := out]> (fs m)))
      | inl e => ((signals m, inl e), m)
      end
  end.

#[global] Instance memEnv : Env Mem := {|
  dateNow m := (clock m, mkMem (fs m) (clock m + 1) (seed m) (keep m) (signals m) (encoded m));
  mathRandom36 m := (seed m, m);
  fetchFile f m := (inr (List.repeat Byte.x00 (Z.to_nat (file_size f))), m);
  ff_listDir path m := (inr (List.map fst (map_to_list (fs m))), m);
  ff_writeFile path data m :=
    (inr tt, with_fs m (<[path := match keep m with
                                  | Some n => List.firstn n data
                                  | None => data
                                  end]> (fs m)));
  ff_readFile path m :=
    (match fs m !! path with Some d => inr d | None => inl fsError end, m);
  ff_deleteFile path m :=
    match fs m !! path with
    | Some _ => (inr tt, with_fs m (delete path (fs m)))
    | None => (inl fsError, m)
    end;
  ff_exec := memExec
|}.

Definition ready : Processor := mkProcessor (Some NewFFmpeg) true.

Definition quiet : Mem := mkMem ∅ 1700000000000 "0.k3x9q2ab7" None [] (inr [Byte.x01; Byte.x02]).

Definition clip (size : Z) : File := mkFile "clip.mp4" size "video/mp4".

(** The same engine with a filesystem that keeps two bytes of a write,
    and an engine that reports 99% before the command is over. *)
Definition lossy : Mem := mkMem ∅ 1700000000000 "0.k3x9q2ab7" (Some 2%nat) [] (inr [Byte.x01]).

Definition eager : Mem :=
  mkMem ∅ 1700000000000 "0.k3x9q2ab7" None
        [TimerTick (Num.ratio 1 2); EngineProgress (Num.ratio 99 100);
         TimerTick (Num.ratio 1 4)]
        (inr [Byte.x01]).

(** The wrapper on an engine, as the pipeline of the orchestrator: the
    processor object, the system it runs in and a counter for the object
    URLs the browser hands out. *)
Record Browser (W : Type) : Type := mkBrowser {
  processor : Processor;
  sys : Sys W;
  urls : Z
}.
Arguments mkBrowser {W}.
Arguments processor {W}.
Arguments sys {W}.
Arguments urls {W}.

(** A reported percentage as the registry takes it; the reports of the
    examples are whole numbers. *)
Definition percent (v : Num.number) : Z := Qfloor (Num.real v).

Section Wrapped.
Context `{Casing} {W : Type} `{Env W}.

Definition wrappedExtract (f : File) (fmt : Format) (q : Quality) (b : Browser W)
  : ((Exn + Blob) * list Z) * Browser W :=
  let s := sys b in
  let '(result, s1) :=
    extractAudio (processor b) f fmt q true
                 (mkSys (Ffmpeg.world s) (calls s) [] (console s)) in
  ((result, List.map percent (reports s1)),
   mkBrowser (processor b)
             (mkSys (Ffmpeg.world s1) (calls s1) (reports s ++ reports s1) (console s1))
             (urls b)).

Definition onWorld {A} (op : W -> A * W) (b : Browser W) : A * Browser W :=
  let s := sys b in
  let '(a, w) := op (Ffmpeg.world s) in
  (a, mkBrowser (processor b) (mkSys w (calls s) (reports s) (console s)) (urls b)).

#[global] Instance wrapped : Processing.Pipeline (Browser W) := {|
  Processing.isLoaded b := Ffmpeg.isLoaded (processor b);
  Processing.extract := wrappedExtract;
  Processing.createObjectURL blob b :=
    ("blob:" ++ decimal (urls b), mkBrowser (processor b) (sys b) (urls b + 1));
  Processing.getTime := onWorld dateNow;
  Processing.random36 := onWorld mathRandom36
|}.

End Wrapped.

(** A pipeline that follows a script: each extraction takes the next
    entry, which gives its result, the progress it reports and whether
    the engine is still loaded when it returns. *)
Record Take : Type := mkTake {
  result : Exn + Blob;
  progress : list Z;
  stillLoaded : bool
}.

Record Stage : Type := mkStage {
  engineUp : bool;
  script : list Take;
  time : Z
}.

#[global] Instance scripted : Processing.Pipeline Stage := {|
  Processing.isLoaded st := engineUp st;
  Processing.extract f fmt q st :=
    match script st with
    | [] => ((inl JsOther, []), st)
    | t :: rest => ((result t, progress t), mkStage (stillLoaded t) rest (time st))
    end;
  Processing.createObjectURL blob st := ("blob:" ++ decimal (time st), st);
  Processing.getTime st := (time st, mkStage (engineUp st) (script st) (time st + 1));
  Processing.random36 st := ("0.h5k2m9p1", st)
|}.

(** A network on which nothing answers and an engine that never
    initialises; and one whose first request already succeeds. *)
Definition deadNet : Net :=
  mkNet (fun _ _ => FetchRejected (JsError "Failed to fetch"))
        (fun _ _ _ => inl (JsError "Failed to fetch"))
        (fun _ _ => inl (JsError "failed to import ffmpeg-core.js"))
        (fun _ _ => inl JsOther).

Definition liveNet : Net :=
  mkNet (fun _ _ => Responded true 200 "OK")
        (fun url _ _ => inr ("blob:" ++ url))
        (fun _ _ => inr tt)
        (fun _ _ => inr tt).

(** A job of the registry. *)
Definition job (i : string) (n : string) (s : Store.Status) (p : Z) (e : option string)
  : Store.VideoFile :=
  Store.mkVideoFile i n 4 "video/mp4" (mkFile n 4 "video/mp4") None None 100 p s
                    None None None None e 1700000000000.

Definition idle : Processing.Component :=
  Processing.mkComponent 0 false None Processing.initialRefs.

Definition run0 {W} (fs : list Store.VideoFile) (w : W) : Processing.Run W :=
  Processing.mkRun (Store.mkAppState fs [] true) w idle [] [] [].

End Sim.

(* ================================================================= *)
(** ** The other actions of the store, and what it persists *)

Module StoreActions.
Import Js Media Store.

Definition set_history (st : AppState) (h : list ProcessingHistory) : AppState :=
  {| files := files st; history := h; ffmpegLoaded := ffmpegLoaded st |}.

Definition removeFile (i : string) (st : AppState) : AppState :=
  set_files st (List.filter (fun file => negb (String.eqb (id file) i)) (files st)).

Definition clearFiles (st : AppState) : AppState := set_files st [].

Definition removeFromHistory (i : string) (st : AppState) : AppState :=
  set_history st (List.filter (fun item => negb (String.eqb (h_id item) i)) (history st)).

Inductive TranscriptFormat : Type := txt | json.

Record TranscriptionData : Type := mkTranscriptionData {
  t_id : string;
  text : string;
  confidence : Num.number;
  timestamp : Z;
  format : TranscriptFormat;
  transcribedAt : Z
}.

(** [{ ...item, transcriptionData, hasTranscription: true, operationType }];
    the record of the history is held without the payload, so of the
    transcription only the two fields derived from it are kept. *)
Definition transcribed (transcription : TranscriptionData) (item : ProcessingHistory)
  : ProcessingHistory :=
  {| h_id := h_id item;
     originalFileName := originalFileName item;
     audioFileName := audioFileName item;
     h_audioUrl := h_audioUrl item;
     h_audioBlob := h_audioBlob item;
     h_audioFormat := h_audioFormat item;
     h_audioQuality := h_audioQuality item;
     fileSize := fileSize item;
     h_duration := h_duration item;
     processedAt := processedAt item;
     hasTranscription := true;
     operationType := match operationType item with
                      | audio_extraction => both
                      | _ => Store.transcription
                      end |}.

Definition addTranscriptionToHistory (historyId : string) (transcription : TranscriptionData)
           (st : AppState) : AppState :=
  set_history st
    (List.map (fun item => if String.eqb (h_id item) historyId
                           then transcribed transcription item
                           else item)
              (history st)).

(** What [partialize] hands to the storage. *)
Record Persisted : Type := mkPersisted {
  s_history : list ProcessingHistory;
  s_currentPage : string;
  s_ffmpegLoaded : bool
}.

(** [{ ...item, audioBlob: undefined }] *)
Definition withoutBlob (item : ProcessingHistory) : ProcessingHistory :=
  {| h_id := h_id item;
     originalFileName := originalFileName item;
     audioFileName := audioFileName item;
     h_audioUrl := h_audioUrl item;
     h_audioBlob := None;
     h_audioFormat := h_audioFormat item;
     h_audioQuality := h_audioQuality item;
     fileSize := fileSize item;
     h_duration := h_duration item;
     processedAt := processedAt item;
     hasTranscription := hasTranscription item;
     operationType := operationType item |}.

Definition partialize (st : AppState) : Persisted :=
  {| s_history := List.map withoutBlob (history st);
     s_currentPage := "home";
     s_ffmpegLoaded := false |}.

(** [s.startsWith(prefix)] *)
Definition startsWith (s prefix : string) : bool := String.prefix prefix s.

(** [item.audioUrl && item.audioUrl.startsWith('blob:')] *)
Definition hasBlobUrl (item : ProcessingHistory) : bool :=
  match h_audioUrl item with
  | Some url => negb (String.eqb url "") && startsWith url "blob:"
  | None => false
  end.

(** [{ ...item, audioUrl: '', audioBlob: undefined }] *)
Definition withoutAudio (item : ProcessingHistory) : ProcessingHistory :=
  {| h_id := h_id item;
     originalFileName := originalFileName item;
     audioFileName := audioFileName item;
     h_audioUrl := Some "";
     h_audioBlob := None;
     h_audioFormat := h_audioFormat item;
     h_audioQuality := h_audioQuality item;
     fileSize := fileSize item;
     h_duration := h_duration item;
     processedAt := processedAt item;
     hasTranscription := hasTranscription item;
     operationType := operationType item |}.

(** The callback of [onRehydrateStorage]; [None] is a store that could
    not be restored. *)
Definition onRehydrateStorage (state : option AppState) : option AppState :=
  match state with
  | Some st =>
      Some (set_history st
              (List.map (fun item => if hasBlobUrl item then withoutAudio item else item)
                        (history st)))
  | None => None
  end.

End StoreActions.

(* ================================================================= *)
(** ** The checks of the upload page: [fileUtils] and [handleFiles] *)

Module FileUtils.
Import Js Media.

(** [s] ends with [suffix]. *)
Fixpoint endsWith (s suffix : string) : bool :=
  if String.eqb s suffix then true
  else match s with
       | EmptyString => false
       | String _ r => endsWith r suffix
       end.

Definition supportedTypes : list string :=
  ["video/mp4"; "video/avi"; "video/mov"; "video/quicktime";
   "video/mkv"; "video/x-msvideo"; "video/webm"; "video/ogg"].

(** The alternatives of [/\.(mp4|avi|mov|mkv|webm|ogg|flv|wmv)$/]. *)
Definition supportedExtensions : list string :=
  ["mp4"; "avi"; "mov"; "mkv"; "webm"; "ogg"; "flv"; "wmv"].

(** [s.match(/\.(mp4|...|wmv)$/) !== null] *)
Definition matchesExtension (s : string) : bool :=
  List.existsb (fun e => endsWith s ("." ++ e)) supportedExtensions.

Section Checks.
Context `{Casing}.

Definition isValidVideoFile (file : File) : bool :=
  mem (file_type file) supportedTypes || matchesExtension (toLowerCase (file_name file)).

Definition isValidFileSize (file : File) (maxSizeMB : Z) : bool :=
  let maxSizeBytes := maxSizeMB * 1024 * 1024 in
  file_size file <=? maxSizeBytes.

(** [filename.split('.').pop()?.toLowerCase() || ''] *)
Definition getFileExtension (filename : string) : string :=
  match option_map toLowerCase (pop (split "." filename)) with
  | Some e => e
  | None => ""
  end.

(** The notices of [handleFiles] for the files it turns away. *)
Inductive Notice : Type :=
| NotAVideo (name : string)
| TooLarge (name : string).

(** The first loop of [handleFiles]: the files kept, and the notices. *)
Fixpoint screen (newFiles : list File) : list File * list Notice :=
  match newFiles with
  | [] => ([], [])
  | file :: rest =>
      let '(validFiles, notices) := screen rest in
      if negb (isValidVideoFile file) then (validFiles, NotAVideo (file_name file) :: notices)
      else if negb (isValidFileSize file 500) then (validFiles, TooLarge (file_name file) :: notices)
      else (file :: validFiles, notices)
  end.

(** [handleFiles] up to the call of [addFiles]. *)
Definition handleFiles (fr : Store.Fresh) (newFiles : list File) (st : Store.AppState)
  : Store.AppState * list Notice :=
  let '(validFiles, notices) := screen newFiles in
  if (0 <? List.length validFiles)%nat
  then (Store.addFiles fr validFiles st, notices)
  else (st, notices).

End Checks.

End FileUtils.

(* ================================================================= *)
(** ** [getVideoInfo] *)

Module Probe.
Import Js Media Ffmpeg.

Record VideoInfo : Type := mkVideoInfo {
  info_duration : Z;
  info_resolution : string;
  info_format : string
}.

Definition msg_probe_not_loaded : string := "FFmpeg 未加载".

Section GetVideoInfo.
Context {W : Type} `{Env W}.

(** ['probe.' + videoFile.name.split('.').pop()] *)
Definition probeName (videoFile : File) : string :=
  "probe." ++ match rawExtension videoFile with
              | Some e => e
              | None => "undefined"
              end.

(** [await this.ffmpeg.exec(command)] with no handler of the caller's. *)
Definition exec (command : list string) : M W unit :=
  fun s =>
    let '((_, outcome), w) := ff_exec command (world s) in
    (outcome, mkSys w (calls s ++ [CExec command]) (reports s) (console s)).

Definition unknownInfo (videoFile : File) : VideoInfo :=
  mkVideoInfo 0 "未知" (file_type videoFile).

Definition getVideoInfo (p : Processor) (videoFile : File) : M W VideoInfo :=
  if negb (bool_decide (is_Some (ffmpeg p))) || negb (loaded p)
  then throw (JsError msg_probe_not_loaded)
  else
    catch
      (let inputFileName := probeName videoFile in
       bind (call (CFetchFile videoFile) (fetchFile videoFile)) (fun data =>
       bind (call (CWriteFile inputFileName data) (ff_writeFile inputFileName data)) (fun _ =>
       bind (exec ["-i"; inputFileName; "-f"; "null"; "-"]) (fun _ =>
       bind (call (CDeleteFile inputFileName) (ff_deleteFile inputFileName)) (fun _ =>
       ret (unknownInfo videoFile))))))
      (fun error => ret (unknownInfo videoFile)).

End GetVideoInfo.

End Probe.

(* ================================================================= *)
(** ** The progress shown by the [Processing] page *)

Module View.
Import Js Media Store.

Definition getOverallProgress (files : list VideoFile) : Num.number :=
  if (List.length files =? 0)%nat then Num.ofZ 0
  else
    let total := Num.ofZ (Z.of_nat (List.length files)) in
    let completedFiles := Num.ofZ (Z.of_nat (Processing.countStatus completed files)) in
    let processingFiles := List.filter (fun f => status_eqb (status f) processing) files in
    let baseProgress := Num.mul (Num.div completedFiles total) (Num.ofZ 100) in
    let baseProgress :=
      match processingFiles with
      | current :: _ =>
          let currentProcessingProgress := processingProgress current in
          let currentFileWeight := Num.mul (Num.div (Num.ofZ 1) total) (Num.ofZ 100) in
          if 0 <? currentProcessingProgress
          then
            let currentFileContribution :=
              Num.mul (Num.div (Num.ofZ currentProcessingProgress) (Num.ofZ 100))
                      currentFileWeight in
            Num.add baseProgress currentFileContribution
          else baseProgress
      | [] => baseProgress
      end in
    Num.round (Num.min (Num.ofZ 100) (Num.max (Num.ofZ 0) baseProgress)).

End View.

(* ================================================================= *)
(** ** More worlds *)

Module Scenes.
Import Js Media Ffmpeg.

(** A network on which the first [k] requests for an artifact fail. *)
Definition flakyNet (k : nat) : Net :=
  mkNet (fun _ i => if (i <? k)%nat then Responded false 503 "Service Unavailable"
                    else Responded true 200 "OK")
        (fun url _ _ => inr ("blob:" ++ url))
        (fun _ _ => inr tt)
        (fun _ _ => inr tt).

(** An engine that initialises from every source but the first of the
    list, directly or from fetched artifacts. *)
Definition secondBest : Net :=
  mkNet (fun _ _ => Responded true 200 "OK")
        (fun url _ _ => inr ("blob:" ++ url))
        (fun coreURL _ =>
           if includes coreURL "unpkg.com"
           then inl (JsError "failed to import ffmpeg-core.js")
           else inr tt)
        (fun _ _ => inr tt).

(** Two pending jobs on a loaded engine, and how the browser may
    schedule two instances of the [Processing] page on them.  The first
    instance mounts and its run awaits the extraction of the first job; the
    page is left and entered again, the second instance mounts and its run
    awaits the extraction of the second job; the first extraction settles
    and the first run goes on to the second job; then the second run's
    extraction settles and that run ends; then the first run's. *)
Definition first : Store.VideoFile := Sim.job "k3x9q2ab7" "a.mp4" Store.pending 0 None.
Definition second : Store.VideoFile := Sim.job "h5k2m9p1c" "b.mp4" Store.pending 0 None.
Definition pair : list Store.VideoFile := [first; second].

Definition desk : Sim.Browser Sim.Mem := Sim.mkBrowser Sim.ready (Ffmpeg.start Sim.quiet) 0.

Definition visit1 : Processing.Run (Sim.Browser Sim.Mem) * bool :=
  Processing.render pair (Store.ffmpegLoaded (Processing.store (Sim.run0 pair desk)))
                    (Sim.run0 pair desk).

Definition await1 :=
  Processing.advance pair 0 pair (fst visit1).

Definition pair2 : list Store.VideoFile := Store.files (Processing.store (fst await1)).

Definition visit2 : Processing.Run (Sim.Browser Sim.Mem) * bool :=
  Processing.render pair2 (Store.ffmpegLoaded (Processing.store (fst await1)))
                    (Processing.mountOn (fst await1)).

Definition await2 :=
  Processing.advance pair2 0 pair2 (fst visit2).

Definition await1' :=
  Processing.advance pair 1 [second]
    (Processing.resumeJob first (Processing.takeover (fst await1) (fst await2))).

Definition end2 : Processing.Run (Sim.Browser Sim.Mem) * Processing.Verdict :=
  Processing.finish
    (fst (Processing.advance pair2 2 []
            (Processing.resumeJob second (Processing.takeover (fst await2) (fst await1'))))).

Definition end1 : Processing.Run (Sim.Browser Sim.Mem) * Processing.Verdict :=
  Processing.finish
    (fst (Processing.advance pair 2 []
            (Processing.resumeJob second (Processing.takeover (fst await1') (fst end2))))).

End Scenes.

(* ================================================================= *)
(** ** What a pass of the loop may do to a job *)

Module Outcome.
Import Js Media Store.

(** A change of a job that keeps its id and its name and does not lower
    its processing progress. *)
Definition advances (F : VideoFile -> VideoFile) : Prop :=
  forall g, id (F g) = id g
            /\ name (F g) = name g
            /\ processingProgress g <= processingProgress (F g).

(** The job has come to an end, one way or the other. *)
Definition settled (g : VideoFile) : bool :=
  status_eqb (status g) completed || status_eqb (status g) Store.error.

(** The record the loop makes of a job it has extracted. *)
Definition recordOf (f : VideoFile) (item : ProcessingHistory) : Prop :=
  originalFileName item = name f
  /\ operationType item = audio_extraction
  /\ hasTranscription item = false
  /\ h_audioFormat item = Some "mp3"
  /\ h_audioQuality item = Some "high"
  /\ is_Some (h_audioBlob item)
  /\ fileSize item = match h_audioBlob item with Some b => blob_size b | None => 0 end.

End Outcome.



(* ================================================================= *)
(** * Properties *)

Import Js Media.
Open Scope list_scope.

(* ================================================================= *)
(** ** The parameter table *)

Section ParameterTable.
Import Ffmpeg Table.

(** C8: for every format and quality the codec arguments are those of the
    parameter table: the encoder of the format, then the flag of the
    format's family (bitrate for mp3 and aac, sample rate for wav) with the
    value of the table's cell. *)
Theorem quality_params_follow_table :
  forall (f : Format) (q : Quality),
    getQualityParams (format_name f) (quality_name q) =
    ["-acodec"; encoder f; family_flag (table_family f); table_value f q].
Proof. intros [] []; reflexivity. Qed.

End ParameterTable.

(* ================================================================= *)
(** ** The registry *)

Section Registry.
Import Store.

Lemma uniqueFiles_fresh (seen : gset string) (l : list File) (f : File) :
  f ∈ uniqueFiles seen l -> file_name f ∉ seen.
Proof.
  revert seen. induction l as [|a l IH]; intros seen Hin; simpl in Hin.
  - by apply elem_of_nil in Hin.
  - case_bool_decide as Ha.
    + by apply IH.
    + apply elem_of_cons in Hin as [-> | Hin]; [done|].
      apply IH in Hin. set_solver.
Qed.

Lemma uniqueFiles_NoDup (seen : gset string) (l : list File) :
  NoDup (file_name <$> uniqueFiles seen l).
Proof.
  revert seen. induction l as [|a l IH]; intros seen; simpl.
  - constructor.
  - case_bool_decide as Ha; [apply IH|].
    rewrite fmap_cons. constructor; [|apply IH].
    intros Hin. apply list_elem_of_fmap in Hin as (g & Hname & Hg).
    apply uniqueFiles_fresh in Hg. set_solver.
Qed.

Lemma uniqueFiles_app (seen : gset string) (pre l : list File) :
  uniqueFiles seen (pre ++ l) =
  uniqueFiles seen pre ++ uniqueFiles (list_to_set (file_name <$> pre) ∪ seen) l.
Proof.
  revert seen. induction pre as [|a pre IH]; intros seen; simpl.
  - f_equal. set_solver.
  - case_bool_decide as Ha.
    + rewrite IH. do 2 f_equal. set_solver.
    + rewrite IH. simpl. do 3 f_equal. set_solver.
Qed.

Lemma uniqueFiles_skip (seen : gset string) (f : File) (post : list File) :
  file_name f ∈ seen -> uniqueFiles seen (f :: post) = uniqueFiles seen post.
Proof. intros Hin. simpl. by rewrite bool_decide_eq_true_2. Qed.

Lemma enqueued_names (fr : Fresh) (st : AppState) (l : list File) :
  name <$> enqueued fr st l =
  file_name <$> uniqueFiles (list_to_set (List.map name (files st))) l.
Proof.
  unfold enqueued. rewrite fmap_imap.
  rewrite <- (imap_const file_name). apply imap_ext. reflexivity.
Qed.

(** C10: a file handed to [addFiles] whose name is the name of a job of
    the registry, or of an earlier file of the same call, is skipped (the
    call does what it does without that file); the jobs added have
    pairwise different names, none of them a name the registry had; and
    every job added starts pending with both progress values at 0. *)
Theorem addFiles_skips_duplicates
        (fr : Fresh) (st : AppState) (pre post : list File) (f : File) :
  (file_name f ∈ List.map name (files st)) \/ (file_name f ∈ List.map file_name pre) ->
  addFiles fr (pre ++ f :: post) st = addFiles fr (pre ++ post) st
  /\ files (addFiles fr (pre ++ f :: post) st)
     = files st ++ enqueued fr st (pre ++ f :: post)
  /\ NoDup (name <$> enqueued fr st (pre ++ f :: post))
  /\ (forall v, v ∈ enqueued fr st (pre ++ f :: post) ->
                (name v ∉ List.map name (files st))
                /\ status v = pending
                /\ uploadProgress v = 0
                /\ processingProgress v = 0).
Proof.
  intros Hdup. split; [|split; [|split]].
  - unfold addFiles, enqueued. do 3 f_equal.
    rewrite !uniqueFiles_app. f_equal. apply uniqueFiles_skip.
    destruct Hdup as [Hold | Hpre]; set_solver.
  - reflexivity.
  - rewrite enqueued_names. apply uniqueFiles_NoDup.
  - intros v Hv. split.
    + assert (Hn : name v ∈ name <$> enqueued fr st (pre ++ f :: post))
        by (apply list_elem_of_fmap; eauto).
      rewrite enqueued_names in Hn.
      apply list_elem_of_fmap in Hn as (g & -> & Hg).
      apply uniqueFiles_fresh in Hg. set_solver.
    + unfold enqueued in Hv. apply elem_of_lookup_imap in Hv as (i & g & -> & _).
      repeat split.
Qed.

End Registry.

Lemma addFiles_skips_duplicates_witness :
  let fr := Store.mkFresh (fun _ => "0.k3x9q2ab7h5") (fun _ => 1700000000000) in
  let st := Store.mkAppState [Sim.job "k3x9q2ab7" "a.mp4" Store.completed 100 None] [] true in
  let again := mkFile "a.mp4" 4 "video/mp4" in
  let b := mkFile "b.mp4" 8 "video/mp4" in
  let c := mkFile "c.mp4" 9 "video/mp4" in
  Store.addFiles fr ([b] ++ again :: [c; b]) st = Store.addFiles fr ([b] ++ [c; b]) st.
Proof.
  intros fr st again b c.
  refine (proj1 (addFiles_skips_duplicates fr st [b] [c; b] again _)).
  left. simpl. constructor.
Defined.

(** The call of the witness, run: the file named like a job of the registry
    and the second file named "b.mp4" are left out. *)
Example addFiles_run :
  let fr := Store.mkFresh (fun _ => "0.k3x9q2ab7h5") (fun _ => 1700000000000) in
  let st := Store.mkAppState [Sim.job "k3x9q2ab7" "a.mp4" Store.completed 100 None] [] true in
  List.map (fun v => (Store.name v, Store.status v, Store.processingProgress v))
           (Store.files (Store.addFiles fr [mkFile "b.mp4" 8 "video/mp4";
                                            mkFile "a.mp4" 4 "video/mp4";
                                            mkFile "c.mp4" 9 "video/mp4";
                                            mkFile "b.mp4" 8 "video/mp4"] st))
  = [("a.mp4", Store.completed, 100); ("b.mp4", Store.pending, 0); ("c.mp4", Store.pending, 0)].
Proof. vm_compute. reflexivity. Qed.

(* ================================================================= *)
(** ** The retry action *)

Section Retry.
Import Store Processing.
Context {W : Type} `{Pipeline W}.

Lemma rearmed_id g : id (rearmed g) = id g.
Proof. reflexivity. Qed.

Lemma rearmed_idem g : rearmed (rearmed g) = rearmed g.
Proof.
  destruct g. unfold rearmed, spread, with_progress. simpl. f_equal. lia.
Qed.

Lemma retry_updates_one (i : string) (st : AppState) :
  updateFileInfo i (errorInfo None)
    (updateFileProgress i 0 processing_ (updateFileStatus i pending st))
  = set_files st (List.map (fun g => if String.eqb (id g) i then rearmed g else g) (files st)).
Proof.
  unfold updateFileInfo, updateFileProgress, updateFileStatus, set_files. simpl.
  f_equal. rewrite !List.map_map. apply List.map_ext. intros g.
  destruct (String.eqb (id g) i) eqn:E; simpl; rewrite ?E; [|reflexivity].
  simpl. rewrite E. destruct g; reflexivity.
Qed.

(** The whole [forEach]: every job that carries the id of a failed job is
    pending again with its error cleared, its processing progress is the
    larger of its old value and 0 (the update never lowers a progress);
    every other job is as it was. *)
Lemma resetFailed_spec (fs : list VideoFile) (st : AppState) :
  resetFailed fs st
  = set_files st (List.map (fun g => if failedId fs g then rearmed g else g) (files st)).
Proof.
  revert st. induction fs as [|f fs IH]; intros st; simpl.
  - unfold set_files. destruct st; simpl. f_equal. symmetry. apply List.map_id.
  - unfold resetFailed in *. simpl.
    destruct (status_eqb (status f) Store.error) eqn:Ef; simpl.
    + rewrite IH, retry_updates_one. unfold set_files; simpl. f_equal.
      rewrite List.map_map. apply List.map_ext. intros g.
      destruct (String.eqb (id g) (id f)) eqn:Eg; simpl.
      * destruct (failedId fs (rearmed g)); [apply rearmed_idem | reflexivity].
      * unfold failedId. reflexivity.
    + apply IH.
Qed.

End Retry.

(** C1, at a job that failed at 40%: retrying makes it pending and clears
    its error, and leaves its processing progress at 40.  The action calls
    [updateFileProgress] with 0, which keeps the larger of the old value and
    the new one. *)
Theorem retry_keeps_old_progress :
  let failed := Sim.job "k3x9q2ab7" "clip.mp4" Store.error 40 (Some Ffmpeg.msg_generic) in
  let outcome := Processing.retryProcessing [failed] true
                   (Sim.run0 [failed] (Sim.mkStage true [] 0)) in
  Store.files (Processing.store (fst outcome))
  = [Sim.job "k3x9q2ab7" "clip.mp4" Store.pending 40 None]
  /\ snd outcome = true.
Proof. vm_compute. split; reflexivity. Qed.

(* ================================================================= *)
(** ** The loader *)

Section Loader.
Import Ffmpeg.
Variable net : Net.

Lemma initialize_without_instance (coreURL wasmURL : string) :
  exists e, initialize net None coreURL wasmURL = inl e.
Proof. unfold initialize, ffmpegLoad. eauto. Qed.

(** With the instance gone, no source can succeed, whatever it answers. *)
Lemma fromSource_without_instance (baseURL : string) :
  exists e, fst (fromSource net None baseURL) = inl e.
Proof.
  unfold fromSource, direct, staged.
  destruct (initialize_without_instance (baseURL ++ "/ffmpeg-core.js")%string
                                        (baseURL ++ "/ffmpeg-core.wasm")%string) as [e ->].
  destruct (loadWithRetry net _ "text/javascript" 3) as [[e1|coreURL] d1]; [eauto|].
  destruct (loadWithRetry net _ "application/wasm" 3) as [[e2|wasmURL] d2]; [eauto|].
  simpl. apply initialize_without_instance.
Qed.

Lemma loadLoop_without_instance (sources : list string) :
  fst (loadLoop net sources notLoaded) = (inl (JsError msg_load_failed), notLoaded).
Proof.
  unfold notLoaded.
  induction sources as [|baseURL rest IH]; simpl; [reflexivity|].
  destruct (fromSource_without_instance baseURL) as [e He].
  destruct (fromSource net None baseURL) as [[e'|?] d]; simpl in He; [|discriminate].
  destruct (loadLoop net rest (mkProcessor None false)) as [r d']. exact IH.
Qed.

(** A source that fails on a live instance fails in the loop. *)
Lemma fromSource_fails (baseURL : string) :
  directFails net baseURL = true -> stagedFails net baseURL = true ->
  exists e, fst (fromSource net (Some NewFFmpeg) baseURL) = inl e.
Proof.
  unfold directFails, stagedFails, fromSource. intros Hd Hs.
  destruct (direct net (Some NewFFmpeg) baseURL) as [directError|?]; [|discriminate].
  destruct (staged net (Some NewFFmpeg) baseURL) as [[e|?] d]; simpl in *; [eauto|discriminate].
Qed.

(** Once the first source has failed the call fails: the loop goes on
    with the instance set to [null]. *)
Lemma loadLoop_first_source_fails (baseURL : string) (rest : list string) (b : bool) :
  directFails net baseURL = true -> stagedFails net baseURL = true ->
  fst (loadLoop net (baseURL :: rest) (mkProcessor (Some NewFFmpeg) b))
  = (inl (JsError msg_load_failed), notLoaded).
Proof.
  intros Hd Hs. simpl.
  destruct (fromSource_fails baseURL Hd Hs) as [e He].
  destruct (fromSource net (Some NewFFmpeg) baseURL) as [[e'|?] d]; simpl in He; [|discriminate].
  pose proof (loadLoop_without_instance rest) as Hrest. unfold notLoaded in *.
  destruct (loadLoop net rest (mkProcessor None false)) as [r d']. exact Hrest.
Qed.

(** A source whose direct initialisation works loads the engine. *)
Lemma loadFrom_first_source_works (baseURL : string) (rest : list string) :
  directFails net baseURL = false ->
  fst (loadFrom net (baseURL :: rest) notLoaded) = (inr tt, mkProcessor (Some NewFFmpeg) true).
Proof.
  unfold directFails, loadFrom, fromSource. simpl. unfold fromSource. intros Hd.
  destruct (direct net (Some NewFFmpeg) baseURL) as [e|[]]; [discriminate|reflexivity].
Qed.

End Loader.

(** C4: when the engine is not already loaded and every source of the list
    fails both its direct initialisation and its staged path, [load] ends
    with the one error "the engine could not be loaded" and leaves the
    object not loaded ([loaded = false], no instance kept); a later call
    starts over with a new instance, and succeeds as soon as its first
    source initialises. *)
Theorem load_all_sources_fail (net : Ffmpeg.Net) (sources : list string) (p : Ffmpeg.Processor) :
  Ffmpeg.loaded p && bool_decide (is_Some (Ffmpeg.ffmpeg p)) = false ->
  (forall baseURL, baseURL ∈ sources ->
     Ffmpeg.directFails net baseURL = true /\ Ffmpeg.stagedFails net baseURL = true) ->
  fst (Ffmpeg.loadFrom net sources p) = (inl (JsError Ffmpeg.msg_load_failed), Ffmpeg.notLoaded)
  /\ (forall (later : Ffmpeg.Net) (baseURL : string) (rest : list string),
        Ffmpeg.directFails later baseURL = false ->
        fst (Ffmpeg.loadFrom later (baseURL :: rest) (snd (fst (Ffmpeg.loadFrom net sources p))))
        = (inr tt, Ffmpeg.mkProcessor (Some Ffmpeg.NewFFmpeg) true)).
Proof.
  intros Hnot Hall.
  assert (Hres : fst (Ffmpeg.loadFrom net sources p)
                 = (inl (JsError Ffmpeg.msg_load_failed), Ffmpeg.notLoaded)).
  { unfold Ffmpeg.loadFrom. rewrite Hnot.
    destruct sources as [|baseURL rest]; [reflexivity|].
    destruct (Hall baseURL) as [Hd Hs]; [left|].
    apply loadLoop_first_source_fails; assumption. }
  split; [exact Hres|].
  intros later baseURL rest Hd. rewrite Hres. simpl.
  apply loadFrom_first_source_works. exact Hd.
Qed.

(** The loader on a network that answers and an engine that initialises:
    the first source loads it, directly. *)
Example load_succeeds :
  Ffmpeg.load Sim.liveNet Ffmpeg.notLoaded
  = ((inr tt, Ffmpeg.mkProcessor (Some Ffmpeg.NewFFmpeg) true), []).
Proof. reflexivity. Qed.

(** The loader when nothing answers: for each of the three sources, three
    attempts at the first artifact with waits of one and two seconds between
    them (the second and third source are tried with the instance gone). *)
Example load_backs_off :
  snd (Ffmpeg.load Sim.deadNet Ffmpeg.notLoaded) = [1000; 2000; 1000; 2000; 1000; 2000].
Proof. reflexivity. Qed.

Lemma load_all_sources_fail_witness :
  fst (Ffmpeg.load Sim.deadNet Ffmpeg.notLoaded) = (inl (JsError Ffmpeg.msg_load_failed), Ffmpeg.notLoaded).
Proof.
  refine (proj1 (load_all_sources_fail Sim.deadNet Ffmpeg.cdnSources Ffmpeg.notLoaded _ _)).
  - reflexivity.
  - intros baseURL _. split; reflexivity.
Defined.

(* ================================================================= *)
(** ** The pre-flight checks of the pipeline *)

Section Preflight.
Import Ffmpeg.
Context {W : Type} `{Env W} `{Casing}.

Lemma call_spec {A} (c : Call) (op : W -> (Exn + A) * W) (s : Sys W) :
  calls (snd (call c op s)) = calls s ++ [c]
  /\ reports (snd (call c op s)) = reports s.
Proof. unfold call. destruct (op (world s)). split; reflexivity. Qed.

Lemma deleteLeftover_spec (p : Processor) (fileName : string) (s : Sys W) :
  is_Some (ffmpeg p) ->
  fst (deleteLeftover p fileName s) = inr tt
  /\ calls (snd (deleteLeftover p fileName s)) = calls s ++ [CDeleteFile fileName]
  /\ reports (snd (deleteLeftover p fileName s)) = reports s.
Proof.
  intros [inst Hinst]. unfold deleteLeftover, call, log. rewrite Hinst.
  destruct (ff_deleteFile fileName (world s)) as [[e|[]] w]; simpl; auto.
Qed.

(** The [catch] block always throws, after one listing and the deletion
    of the two temporary names. *)
Lemma onFailure_spec (p : Processor) (i o : string) (e : Exn) (s : Sys W) :
  is_Some (ffmpeg p) ->
  fst (onFailure p i o e s) = inl (classify e)
  /\ calls (snd (onFailure p i o e s))
     = calls s ++ [CListDir "/"; CDeleteFile i; CDeleteFile o]
  /\ reports (snd (onFailure p i o e s)) = reports s.
Proof.
  intros [inst Hinst]. unfold onFailure, bind, attempt, throw. rewrite Hinst.
  pose proof (call_spec (CListDir "/") (ff_listDir "/") s) as [Hc Hr].
  destruct (call (CListDir "/") (ff_listDir "/") s) as [r1 s1]. simpl in Hc, Hr.
  pose proof (deleteLeftover_spec p i s1 (ex_intro _ inst Hinst)) as (Hv2 & Hc2 & Hr2).
  destruct (deleteLeftover p i s1) as [v2 s2]. simpl in Hv2, Hc2, Hr2. subst v2.
  pose proof (deleteLeftover_spec p o s2 (ex_intro _ inst Hinst)) as (Hv3 & Hc3 & Hr3).
  destruct (deleteLeftover p o s2) as [v3 s3]. simpl in Hv3, Hc3, Hr3. subst v3.
  simpl. rewrite Hc3, Hc2, Hc, Hr3, Hr2, Hr, <- !app_assoc. auto.
Qed.

(** A call that the pre-flight checks reject: the error that leaves, and
    every call made on the engine. *)
Lemma extractAudio_rejected
      (p : Processor) (videoFile : File) (outputFormat : Format) (quality : Quality)
      (hasCallback : bool) (s : Sys W) (e : Exn) :
  usable p = true ->
  (forall s' : Sys W, preflight videoFile s' = (inl e, s')) ->
  let r := extractAudio p videoFile outputFormat quality hasCallback s in
  fst r = inl (classify e)
  /\ calls (snd r)
     = calls s ++ [CListDir "/"; CListDir "/";
                   CDeleteFile (inputNameIn (world s) videoFile);
                   CDeleteFile (outputNameIn (world s) outputFormat)]
  /\ reports (snd r) = reports s.
Proof.
  intros Hp Hpre r. subst r.
  unfold usable in Hp. apply andb_prop in Hp as [Hinst Hloaded].
  apply bool_decide_eq_true in Hinst.
  unfold extractAudio, inputNameIn, outputNameIn, uniqueIdIn.
  rewrite (bool_decide_eq_true_2 _ Hinst), Hloaded. simpl.
  unfold bind, ambient, attempt, catch.
  destruct (dateNow (world s)) as [timestamp w1]. simpl.
  destruct (mathRandom36 w1) as [random w2]. simpl.
  pose proof (call_spec (CListDir "/") (ff_listDir "/")
                        (mkSys w2 (calls s) (reports s) (console s))) as [Hc Hr].
  destruct (call (CListDir "/") (ff_listDir "/") _) as [r1 s1]. simpl in Hc, Hr.
  rewrite Hpre.
  pose proof (onFailure_spec p
                (inputName (decimal timestamp ++ "_" ++ substring 2 8 random)%string videoFile)
                (outputName (decimal timestamp ++ "_" ++ substring 2 8 random)%string
                            outputFormat)
                e s1 Hinst) as (Hv & Hc' & Hr').
  rewrite Hv, Hc', Hr', Hc, Hr, <- app_assoc. auto.
Qed.

Lemma preflight_oversize (videoFile : File) (s : Sys W) :
  file_size videoFile > sizeLimit ->
  preflight videoFile s = (inl (JsError msg_too_large), s).
Proof.
  intros Hbig. unfold preflight.
  destruct (Z.gtb_spec (file_size videoFile) sizeLimit); [reflexivity | lia].
Qed.

Lemma preflight_unsupported (videoFile : File) (s : Sys W) :
  file_size videoFile <= sizeLimit ->
  isTypeSupported videoFile = false -> isExtensionSupported videoFile = false ->
  preflight videoFile s = (inl (JsError msg_unsupported), s).
Proof.
  intros Hsize Ht He. unfold preflight.
  destruct (Z.gtb_spec (file_size videoFile) sizeLimit); [lia|].
  rewrite Ht, He. reflexivity.
Qed.

Lemma preflight_accepts (videoFile : File) (s : Sys W) :
  file_size videoFile <= sizeLimit ->
  isTypeSupported videoFile || isExtensionSupported videoFile = true ->
  preflight videoFile s = (inr tt, s).
Proof.
  intros Hsize Hok. unfold preflight.
  destruct (Z.gtb_spec (file_size videoFile) sizeLimit); [lia|].
  destruct (isTypeSupported videoFile), (isExtensionSupported videoFile);
    simpl in *; try discriminate; reflexivity.
Qed.

End Preflight.

Section Rejections.
Import Ffmpeg.
Context {W : Type} `{Env W} `{Casing}.

Lemma classify_too_large : classify (JsError msg_too_large) = JsError msg_generic.
Proof.
  unfold classify. rewrite toLowerCase_caseless by (vm_compute; reflexivity).
  vm_compute. reflexivity.
Qed.

Lemma classify_unsupported : classify (JsError msg_unsupported) = JsError msg_unsupported.
Proof.
  unfold classify. rewrite toLowerCase_caseless by (vm_compute; reflexivity).
  vm_compute. reflexivity.
Qed.

Lemma extractAudio_unusable
      (p : Processor) (videoFile : File) (outputFormat : Format) (quality : Quality)
      (hasCallback : bool) (s : Sys W) :
  usable p = false ->
  extractAudio p videoFile outputFormat quality hasCallback s
  = (inl (JsError msg_not_loaded), s).
Proof.
  unfold usable, extractAudio. intros Hp.
  destruct (bool_decide (is_Some (ffmpeg p))), (loaded p); simpl in *;
    try discriminate; reflexivity.
Qed.

(** C5, as the code has it: a file of more than 100MB is rejected,
    whatever the state of the engine; nothing is fetched, written, read
    back or executed for it, so no temporary file comes to exist.  When the
    engine is loaded it is still asked four things: the directory listing
    that opens every call, and in the error handler one more listing and
    the deletion of the two temporary names. *)
Theorem oversize_is_rejected_without_write
        (p : Processor) (videoFile : File) (outputFormat : Format) (quality : Quality)
        (hasCallback : bool) (s : Sys W) :
  file_size videoFile > sizeLimit ->
  let r := extractAudio p videoFile outputFormat quality hasCallback s in
  (exists e, fst r = inl e)
  /\ calls (snd r)
     = calls s ++ (if usable p
                   then [CListDir "/"; CListDir "/";
                         CDeleteFile (inputNameIn (world s) videoFile);
                         CDeleteFile (outputNameIn (world s) outputFormat)]
                   else [])
  /\ (exists extra, calls (snd r) = calls s ++ extra
                    /\ Forall (fun c => housekeeping c = true) extra)
  /\ reports (snd r) = reports s.
Proof.
  intros Hbig r. subst r. destruct (usable p) eqn:Hp.
  - destruct (extractAudio_rejected p videoFile outputFormat quality hasCallback s
                (JsError msg_too_large) Hp
                (fun s' => preflight_oversize videoFile s' Hbig)) as (Hv & Hc & Hr).
    repeat split; eauto.
    eexists. split; [exact Hc|]. repeat constructor.
  - rewrite extractAudio_unusable by exact Hp. simpl. rewrite app_nil_r.
    repeat split; eauto. exists []. rewrite app_nil_r. split; [reflexivity | constructor].
Qed.

(** C9: with the engine loaded and a file within the size limit, the
    declared type is looked at first: a supported type accepts the file
    whatever its name; only when the type is not a supported one (an empty
    type never is) does the extension decide.  When neither is supported
    the call fails with the error of the format check, and nothing has been
    fetched, written or executed: the engine was only asked for listings
    and for the deletion of the two temporary names. *)
Theorem type_before_extension
        (p : Processor) (videoFile : File) (outputFormat : Format) (quality : Quality)
        (hasCallback : bool) (s : Sys W) :
  usable p = true ->
  file_size videoFile <= sizeLimit ->
  (isTypeSupported videoFile = true ->
     forall s' : Sys W, preflight videoFile s' = (inr tt, s'))
  /\ (isTypeSupported videoFile = false ->
      forall s' : Sys W,
        fst (preflight videoFile s') = inr tt <-> isExtensionSupported videoFile = true)
  /\ (file_type videoFile = "" -> isTypeSupported videoFile = false)
  /\ (isTypeSupported videoFile = false -> isExtensionSupported videoFile = false ->
      let r := extractAudio p videoFile outputFormat quality hasCallback s in
      fst r = inl (JsError msg_unsupported)
      /\ calls (snd r)
         = calls s ++ [CListDir "/"; CListDir "/";
                       CDeleteFile (inputNameIn (world s) videoFile);
                       CDeleteFile (outputNameIn (world s) outputFormat)]
      /\ Forall (fun c => writes c = false)
                [CListDir "/"; CListDir "/";
                 CDeleteFile (inputNameIn (world s) videoFile);
                 CDeleteFile (outputNameIn (world s) outputFormat)]).
Proof.
  intros Hp Hsize. split; [|split; [|split]].
  - intros Ht s'. apply preflight_accepts; [exact Hsize | by rewrite Ht].
  - intros Ht s'. split.
    + destruct (isExtensionSupported videoFile) eqn:He; [reflexivity|].
      rewrite preflight_unsupported by assumption. discriminate.
    + intros He. rewrite preflight_accepts; [reflexivity | exact Hsize |].
      rewrite He. apply orb_true_r.
  - intros Hempty. unfold isTypeSupported. rewrite Hempty. reflexivity.
  - intros Ht He r. subst r.
    destruct (extractAudio_rejected p videoFile outputFormat quality hasCallback s
                (JsError msg_unsupported) Hp
                (fun s' => preflight_unsupported videoFile s' Hsize Ht He)) as (Hv & Hc & _).
    rewrite Hv, classify_unsupported. split; [reflexivity|]. split; [exact Hc|].
    repeat constructor.
Qed.

End Rejections.

(** C5 as the specification states it is false: for a file of 100MB and one
    byte, on a loaded engine, the engine is asked for a listing before the
    size is looked at, and again by the error handler. *)
Lemma oversize_reaches_engine :
  let videoFile := Sim.clip 104857601 in
  let r := Ffmpeg.extractAudio Sim.ready videoFile mp3 high true (Ffmpeg.start Sim.quiet) in
  file_size videoFile > Ffmpeg.sizeLimit
  /\ Ffmpeg.calls (snd r)
     = [Ffmpeg.CListDir "/"; Ffmpeg.CListDir "/";
        Ffmpeg.CDeleteFile "input_1700000000000_k3x9q2.mp4";
        Ffmpeg.CDeleteFile "output_1700000000000_k3x9q2.mp3"]
  /\ ~ Ffmpeg.rejectedBeforeEngine r.
Proof.
  split; [reflexivity|]. split; [vm_compute; reflexivity|].
  intros [_ Hnone]. vm_compute in Hnone.
  apply Forall_cons in Hnone as [Hfirst _]. discriminate.
Qed.

Lemma oversize_is_rejected_without_write_witness :
  file_size (Sim.clip 104857601) > Ffmpeg.sizeLimit
  /\ exists e, fst (Ffmpeg.extractAudio Sim.ready (Sim.clip 104857601) mp3 high true
                                        (Ffmpeg.start Sim.quiet)) = inl e.
Proof.
  split; [reflexivity|].
  refine (proj1 (oversize_is_rejected_without_write
                   Sim.ready (Sim.clip 104857601) mp3 high true (Ffmpeg.start Sim.quiet) _)).
  reflexivity.
Defined.

Lemma type_before_extension_witness :
  let notes := mkFile "notes.txt" 10 "text/plain" in
  fst (Ffmpeg.extractAudio Sim.ready notes wav low false (Ffmpeg.start Sim.quiet))
  = inl (JsError Ffmpeg.msg_unsupported).
Proof.
  intros notes.
  refine (proj1 (proj2 (proj2 (proj2
            (type_before_extension Sim.ready notes wav low false (Ffmpeg.start Sim.quiet) _ _)))
            _ _)); [reflexivity | | reflexivity | reflexivity].
  vm_compute. discriminate.
Defined.

(* ================================================================= *)
(** ** The check of the written input *)

Section WriteVerification.
Import Ffmpeg.
Context {W : Type} `{Env W} `{Casing}.

(** A read-back of another length is sent to the console and nothing
    else: [writeInput] returns normally. *)
Lemma writeInput_mismatch_is_logged
      (inputFileName : string) (videoFile : File) (s : Sys W)
      (data back : bytes) (w1 w2 w3 : W) :
  fetchFile videoFile (world s) = (inr data, w1) ->
  ff_writeFile inputFileName data w1 = (inr tt, w2) ->
  ff_readFile inputFileName w2 = (inr back, w3) ->
  byteLength back <> byteLength data ->
  writeInput inputFileName videoFile s
  = (inr tt,
     mkSys w3
           (calls s ++ [CFetchFile videoFile; CWriteFile inputFileName data;
                        CReadFile inputFileName])
           (reports s)
           (console s ++ [LogSizeMismatch (byteLength back) (byteLength data)])).
Proof.
  intros Hfetch Hwrite Hread Hne.
  unfold writeInput, bind, catch, call, log. simpl.
  rewrite Hfetch. simpl. rewrite Hwrite. simpl. rewrite Hread. simpl.
  destruct (Z.eqb_spec (byteLength back) (byteLength data)); [contradiction|].
  simpl. rewrite <- !app_assoc. reflexivity.
Qed.

(** The one way the check fails: the read-back itself rejects. *)
Lemma writeInput_unreadable
      (inputFileName : string) (videoFile : File) (s : Sys W)
      (data : bytes) (e : Exn) (w1 w2 w3 : W) :
  fetchFile videoFile (world s) = (inr data, w1) ->
  ff_writeFile inputFileName data w1 = (inr tt, w2) ->
  ff_readFile inputFileName w2 = (inl e, w3) ->
  fst (writeInput inputFileName videoFile s) = inl (JsError msg_write_verify).
Proof.
  intros Hfetch Hwrite Hread.
  unfold writeInput, bind, catch, call, throw. simpl.
  rewrite Hfetch. simpl. rewrite Hwrite. simpl. rewrite Hread. reflexivity.
Qed.

End WriteVerification.

Section Mismatch.
Context `{Casing}.

(** C2, on an engine whose filesystem keeps two bytes of the four written:
    the read-back has length 2, the mismatch goes to the console, and the
    call goes on to build and execute the codec command and returns the
    encoded audio. *)
Theorem size_mismatch_is_not_an_error :
  let r := Ffmpeg.extractAudio Sim.ready (Sim.clip 4) mp3 high false (Ffmpeg.start Sim.lossy) in
  Ffmpeg.console (snd r) = [Ffmpeg.LogSizeMismatch 2 4]
  /\ fst r = inr (mkBlob [Byte.x01] "audio/mpeg")
  /\ Ffmpeg.calls (snd r)
     = [Ffmpeg.CListDir "/";
        Ffmpeg.CFetchFile (Sim.clip 4);
        Ffmpeg.CWriteFile "input_1700000000000_k3x9q2.mp4" [Byte.x00; Byte.x00; Byte.x00; Byte.x00];
        Ffmpeg.CReadFile "input_1700000000000_k3x9q2.mp4";
        Ffmpeg.CExec ["-i"; "input_1700000000000_k3x9q2.mp4"; "-vn"; "-acodec"; "libmp3lame";
                      "-b:a"; "320k"; "output_1700000000000_k3x9q2.mp3"];
        Ffmpeg.CListDir "/";
        Ffmpeg.CReadFile "output_1700000000000_k3x9q2.mp3";
        Ffmpeg.CDeleteFile "input_1700000000000_k3x9q2.mp4";
        Ffmpeg.CDeleteFile "output_1700000000000_k3x9q2.mp3"].
Proof. vm_compute. repeat split; reflexivity. Qed.

End Mismatch.

(* ================================================================= *)
(** ** Numbers: the order and [Math.round] *)

Section Numbers.
Import SpecFloat Num.

Lemma Qle_bool_false (a b : Q) : Qle_bool a b = false -> (b < a)%Q.
Proof.
  intros Hb. apply Qnot_le_lt. intros Hle. apply Qle_bool_iff in Hle. congruence.
Qed.

Lemma ext_ltb_leb (a b : Ext) : ext_ltb a b = true -> ext_leb a b = true.
Proof.
  destruct a as [|p|], b as [|q|]; cbn; try congruence.
  rewrite negb_true_iff. intros Hlt%Qle_bool_false. apply Qle_bool_iff. lra.
Qed.

Lemma ext_leb_total (a b : Ext) : ext_ltb a b = false -> ext_leb b a = true.
Proof.
  destruct a as [|p|], b as [|q|]; cbn; try congruence.
  by rewrite negb_false_iff.
Qed.

Lemma ext_lt_le_trans (a b c : Ext) :
  ext_ltb a b = true -> ext_leb b c = true -> ext_ltb a c = true.
Proof.
  destruct a as [|p|], b as [|q|], c as [|r|]; cbn; try congruence.
  rewrite !negb_true_iff. intros Hlt%Qle_bool_false Hle%Qle_bool_iff.
  destruct (Qle_bool r p) eqn:E; [|reflexivity]. apply Qle_bool_iff in E. lra.
Qed.

Lemma ext_leb_refl (a : Ext) : ext_leb a a = true.
Proof. destruct a as [|p|]; cbn; try reflexivity. apply Qle_bool_iff. lra. Qed.

Lemma real_ofZ (z : Z) : (real (ofZ z) == inject_Z z)%Q.
Proof. destruct z; cbn [ofZ real]; [reflexivity | |]; change (2 ^ 0)%Q with 1%Q; ring. Qed.

Lemma ext_ofZ (z : Z) : ext (ofZ z) = Some (Real (real (ofZ z))).
Proof. by destruct z. Qed.

Lemma ltb_leb (x y : Num.number) : ltb x y = true -> leb x y = true.
Proof.
  unfold ltb, leb. destruct (ext x), (ext y); try congruence. apply ext_ltb_leb.
Qed.

(** Nothing is below, and nothing above, NaN. *)
Lemma ltb_NaN (x : Num.number) : ltb x NaN = false.
Proof. unfold ltb. by destruct (ext x). Qed.

Lemma round_inject_Z (z : Z) : Js.round (inject_Z z) = z.
Proof.
  unfold Js.round.
  assert (Hlo : z <= Qfloor (inject_Z z + (1 # 2))).
  { rewrite <- (Qfloor_Z z) at 1. apply Qfloor_resp_le. lra. }
  assert (Hhi : Qfloor (inject_Z z + (1 # 2)) < z + 1).
  { rewrite Zlt_Qlt.
    apply Qle_lt_trans with (inject_Z z + (1 # 2))%Q; [apply Qfloor_le|].
    rewrite inject_Z_plus. change (inject_Z 1) with 1%Q. lra. }
  lia.
Qed.

Lemma round_le (x : Q) (n : Z) : (x <= inject_Z n)%Q -> Js.round x <= n.
Proof.
  intros Hx. apply Z.le_trans with (Js.round (inject_Z n)); [|by rewrite round_inject_Z].
  unfold Js.round. apply Qfloor_resp_le. lra.
Qed.

Lemma round_idem (x : Num.number) : round (round x) = round x.
Proof.
  destruct x as [s|s| |s m e]; try reflexivity. cbn [round].
  destruct (0 <=? e) eqn:E; [cbn [round]; by rewrite E|].
  destruct (Js.round (real (S754_finite s m e))); reflexivity.
Qed.

(** The smaller of two numbers is at most the second, unless it is NaN. *)
Lemma min_capped (a b : Num.number) : min a b = NaN \/ leb (min a b) b = true.
Proof.
  unfold min.
  destruct a as [sa|sa| |sa ma ea]; try (by left);
    destruct b as [sb|sb| |sb mb eb]; try (by left); right;
    match goal with
    | |- context [ltb ?a ?b] =>
        destruct (ltb a b) eqn:Hab; [by apply ltb_leb|];
        destruct (ltb b a) eqn:Hba;
        [unfold leb; cbn [ext]; apply ext_leb_refl|];
        try (unfold ltb in Hba; cbn [ext] in Hba; unfold leb; cbn [ext];
             by apply ext_leb_total)
    end.
Qed.

Lemma round_leb (x : Num.number) (n : Z) : leb x (ofZ n) = true -> leb (round x) (ofZ n) = true.
Proof.
  destruct x as [s|s| |s m e]; try (intros Hx; exact Hx).
  intros Hx. unfold round. destruct (0 <=? e); [exact Hx|].
  unfold leb in Hx. rewrite ext_ofZ in Hx. cbn [ext ext_leb] in Hx.
  apply Qle_bool_iff in Hx. rewrite real_ofZ in Hx. apply round_le in Hx.
  destruct (Js.round (real (S754_finite s m e))) as [|p|p] eqn:Ez;
    unfold leb; rewrite !ext_ofZ; cbn [ext ext_leb];
    apply Qle_bool_iff; rewrite ?real_ofZ;
    [change (inject_Z 0 <= inject_Z n)%Q| |]; rewrite <- Zle_Qle; exact Hx.
Qed.

End Numbers.

(* ================================================================= *)
(** ** The progress estimate *)

Section Progress.
Import Ffmpeg.

Lemma handle_is_larger (sg : Signal) (t : Tracker) :
  isCompleted t = false ->
  lastProgress (fst (handle sg t)) = larger (lastProgress t) (candidate sg t).
Proof.
  intros Hc. unfold larger. destruct sg as [p | r]; cbn [handle candidate].
  - unfold progressCallback. rewrite Hc. cbn [negb].
    by destruct (Num.gtb _ (lastProgress t)).
  - unfold intervalTick. rewrite Hc. cbv zeta. cbn [negb andb].
    set (newProgress := Num.min _ _).
    destruct (Num.ltb (lastProgress t) (Num.ofZ 95)) eqn:E95.
    + by destruct (Num.gtb newProgress (lastProgress t)).
    + cbn [fst]. replace (Num.gtb newProgress (lastProgress t)) with false; [reflexivity|].
      symmetry. unfold Num.gtb.
      destruct (min_capped (Num.add (lastProgress t)
                  (Num.add (Num.mul r (Num.ofZ 2)) (Num.ratio 1 2))) (Num.ofZ 95))
        as [Hnan | Hcap]; [fold newProgress in Hnan | fold newProgress in Hcap].
      * rewrite Hnan. apply ltb_NaN.
      * unfold Num.ltb, Num.leb in *.
        destruct (Num.ext (lastProgress t)) as [a|]; [|reflexivity].
        destruct (Num.ext newProgress) as [b|]; [|reflexivity].
        destruct (Num.ext (Num.ofZ 95)) as [c|]; [|discriminate].
        destruct (Num.ext_ltb a b) eqn:Hab; [|reflexivity].
        by rewrite (ext_lt_le_trans a b c Hab Hcap) in E95.
Qed.

(** What is reported is the value kept, rounded. *)
Lemma handle_reports_value (sg : Signal) (t : Tracker) (v : Num.number) :
  snd (handle sg t) = Some v -> v = Num.round (lastProgress (fst (handle sg t))).
Proof.
  destruct sg as [p | r]; cbn [handle].
  - unfold progressCallback. destruct (negb (isCompleted t)); [|discriminate].
    destruct (Num.gtb _ (lastProgress t)); [|discriminate].
    cbn [fst snd lastProgress]. intros [= <-]. symmetry. apply round_idem.
  - unfold intervalTick.
    destruct (negb (isCompleted t) && Num.ltb (lastProgress t) (Num.ofZ 95)); [|discriminate].
    destruct (Num.gtb _ (lastProgress t)); [|discriminate].
    cbn [fst snd lastProgress]. by intros [= <-].
Qed.

(** The filler never reports more than 95. *)
Lemma intervalTick_capped (r : Num.number) (t : Tracker) (v : Num.number) :
  snd (intervalTick r t) = Some v -> Num.leb v (Num.ofZ 95) = true.
Proof.
  unfold intervalTick. cbv zeta.
  destruct (negb (isCompleted t) && Num.ltb (lastProgress t) (Num.ofZ 95)); [|discriminate].
  set (newProgress := Num.min _ _).
  destruct (Num.gtb newProgress (lastProgress t)) eqn:Hgt; [|discriminate].
  cbn [snd]. intros [= <-]. apply round_leb.
  destruct (min_capped (Num.add (lastProgress t)
              (Num.add (Num.mul r (Num.ofZ 2)) (Num.ratio 1 2))) (Num.ofZ 95))
    as [Hnan | Hcap]; [fold newProgress in Hnan | exact Hcap].
  unfold Num.gtb in Hgt. rewrite Hnan, ltb_NaN in Hgt. discriminate.
Qed.

Lemma handle_modest (sg : Signal) (t : Tracker) (v : Num.number) :
  modest sg = true -> snd (handle sg t) = Some v -> Num.leb v (Num.ofZ 95) = true.
Proof.
  destruct sg as [p | r]; cbn [handle modest]; intros Hm Hv.
  - unfold progressCallback in Hv. destruct (negb (isCompleted t)); [|discriminate].
    destruct (Num.gtb _ (lastProgress t)); [|discriminate].
    cbn [snd] in Hv. by injection Hv as <-.
  - by eapply intervalTick_capped.
Qed.

Lemma feed_modest (sgs : list Signal) (t : Tracker) :
  List.forallb modest sgs = true ->
  Forall (fun v => Num.leb v (Num.ofZ 95) = true) (snd (feed sgs t)).
Proof.
  revert t. induction sgs as [|sg sgs IH]; intros t Hm; simpl.
  - constructor.
  - simpl in Hm. apply andb_prop in Hm as [Hsg Hrest].
    pose proof (handle_modest sg t) as Hone.
    destruct (handle sg t) as [t1 r]. specialize (IH t1 Hrest).
    destruct (feed sgs t1) as [t2 rs]. simpl in *.
    destruct r as [v|]; [constructor; auto | exact IH].
Qed.

(** A command that completes, run with a callback: the reports made while
    it ran, then 100. *)
Lemma runCommand_completed {W : Type} `{Env W}
      (command : list string) (s : Sys W) (sgs : list Signal) (w : W) :
  ff_exec command (world s) = ((sgs, inr tt), w) ->
  runCommand true command s
  = (inr tt, mkSys w (calls s ++ [CExec command])
                   ((reports s ++ snd (feed sgs initialTracker)) ++ [Num.ofZ 100])
                   (console s)).
Proof. intros Hexec. unfold runCommand. rewrite Hexec. reflexivity. Qed.

(** A command that fails reports nothing more. *)
Lemma runCommand_failed {W : Type} `{Env W}
      (command : list string) (s : Sys W) (sgs : list Signal) (e : Exn) (w : W) :
  ff_exec command (world s) = ((sgs, inl e), w) ->
  runCommand true command s
  = (inl e, mkSys w (calls s ++ [CExec command])
                  (reports s ++ snd (feed sgs initialTracker))
                  (console s)).
Proof. intros Hexec. unfold runCommand. rewrite Hexec. reflexivity. Qed.

End Progress.

(** C6, as the code has it: while the command runs the value kept is the
    larger of the value so far and what the signal at hand offers (the
    engine's rounded percentage, or the filler's step held at 95), and what
    is reported is that value rounded; the filler never reports more than
    95, and nothing above 95 is reported as long as the engine's own
    percentages stay at or below 95 (they are passed on as they come); a
    command that completes reports 100 last. *)
Theorem progress_is_blended (sgs : list Ffmpeg.Signal) :
  List.forallb Ffmpeg.modest sgs = true ->
  Forall (fun v => Num.leb v (Num.ofZ 95) = true)
         (snd (Ffmpeg.feed sgs Ffmpeg.initialTracker))
  /\ (forall r t v, snd (Ffmpeg.intervalTick r t) = Some v -> Num.leb v (Num.ofZ 95) = true)
  /\ (forall sg t, Ffmpeg.isCompleted t = false ->
        Ffmpeg.lastProgress (fst (Ffmpeg.handle sg t))
        = Ffmpeg.larger (Ffmpeg.lastProgress t) (Ffmpeg.candidate sg t))
  /\ (forall sg t v, snd (Ffmpeg.handle sg t) = Some v ->
        v = Num.round (Ffmpeg.lastProgress (fst (Ffmpeg.handle sg t))))
  /\ (forall (W : Type) (E : Ffmpeg.Env W) (command : list string) (s : Ffmpeg.Sys W)
             (any : list Ffmpeg.Signal) (w : W),
        Ffmpeg.ff_exec command (Ffmpeg.world s) = ((any, inr tt), w) ->
        Ffmpeg.reports (snd (Ffmpeg.runCommand true command s))
        = (Ffmpeg.reports s ++ snd (Ffmpeg.feed any Ffmpeg.initialTracker))
            ++ [Num.ofZ 100]).
Proof.
  intros Hm. split; [by apply feed_modest|].
  split; [exact intervalTick_capped|].
  split; [exact handle_is_larger|].
  split; [exact handle_reports_value|].
  intros W E command s any w Hexec. by rewrite (runCommand_completed command s any w Hexec).
Qed.

Lemma progress_is_blended_witness :
  Forall (fun v => Num.leb v (Num.ofZ 95) = true)
         (snd (Ffmpeg.feed [Ffmpeg.TimerTick (Num.ratio 1 2);
                            Ffmpeg.EngineProgress (Num.ratio 1 2);
                            Ffmpeg.TimerTick (Num.ratio 9 10);
                            Ffmpeg.EngineProgress (Num.ratio 1 4)]
                           Ffmpeg.initialTracker)).
Proof.
  refine (proj1 (progress_is_blended
                   [Ffmpeg.TimerTick (Num.ratio 1 2);
                    Ffmpeg.EngineProgress (Num.ratio 1 2);
                    Ffmpeg.TimerTick (Num.ratio 9 10);
                    Ffmpeg.EngineProgress (Num.ratio 1 4)] _)).
  vm_compute. reflexivity.
Defined.

(** C6 as the specification states it is false: an engine that reports 99%
    while the command is still running has 99 passed to the caller before
    the command completes. *)
Lemma engine_progress_is_not_capped :
  let r := Ffmpeg.extractAudio Sim.ready (Sim.clip 4) mp3 high true (Ffmpeg.start Sim.eager) in
  Ffmpeg.reports (snd r) = [Num.ofZ 2; Num.ofZ 99; Num.ofZ 100]
  /\ snd (Ffmpeg.feed (Sim.signals Sim.eager) Ffmpeg.initialTracker) = [Num.ofZ 2; Num.ofZ 99]
  /\ ~ Forall (fun v => Num.leb v (Num.ofZ 95) = true)
               (snd (Ffmpeg.feed (Sim.signals Sim.eager) Ffmpeg.initialTracker)).
Proof.
  split; [vm_compute; reflexivity|]. split; [vm_compute; reflexivity|].
  intros Hall.
  replace (snd (Ffmpeg.feed (Sim.signals Sim.eager) Ffmpeg.initialTracker))
    with [Num.ofZ 2; Num.ofZ 99] in Hall by (vm_compute; reflexivity).
  apply Forall_cons in Hall as [_ Hall]. apply Forall_cons in Hall as [Hle _].
  vm_compute in Hle. discriminate.
Qed.

(** The engine's fraction is multiplied and rounded as doubles are: 0.955
    times 100 is 95.5 and is reported as 96, 0.015 as 2 and 0.29 (times 100
    just below 29) as 29. *)
Example engine_percentage_is_a_double :
  snd (Ffmpeg.progressCallback (Num.ratio 955 1000) Ffmpeg.initialTracker) = Some (Num.ofZ 96)
  /\ snd (Ffmpeg.progressCallback (Num.ratio 15 1000) Ffmpeg.initialTracker) = Some (Num.ofZ 2)
  /\ snd (Ffmpeg.progressCallback (Num.ratio 29 100) Ffmpeg.initialTracker) = Some (Num.ofZ 29)
  /\ Ffmpeg.modest (Ffmpeg.EngineProgress (Num.ratio 955 1000)) = false.
Proof. vm_compute. repeat split; reflexivity. Qed.

(* ================================================================= *)
(** ** The loop over the jobs when the engine is gone *)

Section Dispatch.
Import Store Processing.
Context {W : Type} `{Pipeline W}.

Lemma onId_compose (i : string) (F G : VideoFile -> VideoFile) (st : AppState) :
  (forall g, id (F g) = id g) ->
  onId i G (onId i F st) = onId i (fun g => G (F g)) st.
Proof.
  intros Hid. unfold onId, set_files. cbn [files history ffmpegLoaded]. f_equal.
  rewrite List.map_map. apply List.map_ext. intros g.
  destruct (String.eqb (id g) i) eqn:E; [rewrite Hid, E | rewrite E]; reflexivity.
Qed.

Lemma lostJob_idem (g : VideoFile) : lostJob (lostJob g) = lostJob g.
Proof. destruct g. cbv -[Z.max]. f_equal. lia. Qed.

Lemma lostJob_failed (g : VideoFile) :
  id (lostJob g) = id g
  /\ status (lostJob g) = Store.error
  /\ error_ (lostJob g) = Some msg_engine_lost.
Proof. repeat split. Qed.

Lemma lose_updates_one (i : string) (st : AppState) :
  updateFileInfo i (errorInfo (Some msg_engine_lost))
    (updateFileStatus i Store.error
       (updateFileProgress i 0 processing_ (updateFileStatus i processing st)))
  = onId i lostJob st.
Proof.
  change (onId i (fun f => spread f (errorInfo (Some msg_engine_lost)))
            (onId i (fun f => spread f (mkPartial None None None None None None None None None
                                          (Some Store.error) None None None None None None))
               (onId i (fun f => with_progress f processing_
                                   (Z.max (progress_of f processing_) (Z.min 100 (Z.max 0 0))))
                  (onId i (fun f => spread f (mkPartial None None None None None None None None
                                                None (Some processing) None None None None None
                                                None)) st)))
          = onId i lostJob st).
  rewrite !onId_compose by reflexivity. reflexivity.
Qed.

(** One pass of the loop with the engine not loaded: the pipeline is not
    called and the world is as it was; a job the loop starts is failed. *)
Lemma processFile_engine_down (fs : list VideoFile) (i : nat) (f : VideoFile) (r : Run W) :
  isLoaded (world r) = false ->
  world (processFile fs i f r) = world r
  /\ dispatched (processFile fs i f r) = dispatched r
  /\ processedFiles (processFile fs i f r) = processedFiles r
  /\ store (processFile fs i f r)
     = (if dispatchable fs f then onId (id f) lostJob (store r) else store r)
  /\ toasts (processFile fs i f r)
     = toasts r ++ (if dispatchable fs f then [lostToast f] else []).
Proof.
  intros Hdown. unfold processFile, dispatchable.
  destruct (status_eqb (status f) pending); cbn [negb andb];
    [|rewrite app_nil_r; repeat split; reflexivity].
  destruct (List.find (fun g => String.eqb (id g) (id f)) fs) as [cur|];
    [|rewrite app_nil_r; repeat split; reflexivity].
  destruct (status_eqb (status cur) pending); cbn [negb];
    [|rewrite app_nil_r; repeat split; reflexivity].
  unfold with_store, with_component. cbn [world store]. rewrite Hdown. cbn [negb].
  unfold failJob, toast, with_store.
  cbn [world store dispatched processedFiles toasts component].
  rewrite lose_updates_one. repeat split; reflexivity.
Qed.

Lemma processFrom_app (fs : list VideoFile) (i : nat) (done rest : list VideoFile) (r : Run W) :
  processFrom fs i (done ++ rest) r
  = processFrom fs (i + List.length done) rest (processFrom fs i done r).
Proof.
  revert i r. induction done as [|f done IH]; intros i r; simpl.
  - by rewrite Nat.add_0_r.
  - rewrite IH. by rewrite Nat.add_succ_r.
Qed.

(** The rest of the loop with the engine not loaded. *)
Lemma processFrom_engine_down (fs : list VideoFile) (i : nat) (rest : list VideoFile)
      (r : Run W) :
  isLoaded (world r) = false ->
  world (processFrom fs i rest r) = world r
  /\ dispatched (processFrom fs i rest r) = dispatched r
  /\ processedFiles (processFrom fs i rest r) = processedFiles r
  /\ store (processFrom fs i rest r)
     = set_files (store r)
         (List.map (fun g => if startedId fs rest g then lostJob g else g) (files (store r)))
  /\ toasts (processFrom fs i rest r)
     = toasts r ++ List.map lostToast (List.filter (dispatchable fs) rest).
Proof.
  revert i r. induction rest as [|f rest IH]; intros i r Hdown;
    cbn [processFrom List.filter List.map].
  - rewrite app_nil_r. unfold startedId. cbn [List.existsb]. rewrite List.map_id.
    destruct r as [[] ? ? ? ? ?]; repeat split; reflexivity.
  - destruct (processFile_engine_down fs i f r Hdown) as (Hw & Hd & Hp & Hs & Ht).
    destruct (IH (S i) (processFile fs i f r)) as (Hw' & Hd' & Hp' & Hs' & Ht');
      [by rewrite Hw|].
    rewrite Hw', Hd', Hp', Hs', Ht', Hw, Hd, Hp, Hs, Ht.
    split; [reflexivity|]. split; [reflexivity|]. split; [reflexivity|]. split.
    + unfold startedId. cbn [List.existsb]. destruct (dispatchable fs f); cbn [andb orb].
      * unfold onId, set_files. cbn [files history ffmpegLoaded]. f_equal.
        rewrite List.map_map. apply List.map_ext.
        intros g. destruct (String.eqb (id g) (id f)) eqn:Eg; cbn [orb]; [|reflexivity].
        change (id (lostJob g)) with (id g).
        destruct (List.existsb _ rest); [apply lostJob_idem | reflexivity].
      * reflexivity.
    + destruct (dispatchable fs f); cbn [List.map app]; by rewrite <- ?app_assoc.
Qed.

End Dispatch.

(** C7: if the engine is no longer loaded when the loop comes to a job
    (after the jobs [done]), the pipeline is called for none of the jobs
    still to come and the world stays as it is; each of them that the loop
    would start is failed at once, with the message that the engine is
    gone, in the registry and in a notice to the user; no result is recorded
    for any of them. *)
Theorem engine_lost_stops_dispatch
        {W : Type} `{Processing.Pipeline W}
        (fs done rest : list Store.VideoFile) (r : Processing.Run W) :
  let mid := Processing.processFrom fs 0 done r in
  let final := Processing.processFrom fs 0 (done ++ rest) r in
  Processing.isLoaded (Processing.world mid) = false ->
  Processing.dispatched final = Processing.dispatched mid
  /\ Processing.world final = Processing.world mid
  /\ Processing.processedFiles final = Processing.processedFiles mid
  /\ (forall f g,
        f ∈ rest -> Processing.dispatchable fs f = true ->
        g ∈ Store.files (Processing.store final) -> Store.id g = Store.id f ->
        Store.status g = Store.error
        /\ Store.error_ g = Some Processing.msg_engine_lost)
  /\ Processing.toasts final
     = Processing.toasts mid
       ++ List.map Processing.lostToast (List.filter (Processing.dispatchable fs) rest).
Proof.
  intros mid final Hdown. subst final. rewrite processFrom_app. fold mid.
  destruct (processFrom_engine_down fs (0 + List.length done) rest mid Hdown)
    as (Hw & Hd & Hp & Hs & Ht).
  rewrite Hw, Hd, Hp, Hs, Ht.
  split; [reflexivity|]. split; [reflexivity|]. split; [reflexivity|]. split; [|reflexivity].
  intros f g Hf Hdisp Hg Hid. simpl in Hg.
  apply list_elem_of_fmap in Hg as (g0 & -> & _).
  assert (Hid0 : Store.id g0 = Store.id f)
    by (destruct (Processing.startedId fs rest g0); exact Hid).
  assert (Hst : Processing.startedId fs rest g0 = true).
  { unfold Processing.startedId. apply List.existsb_exists. exists f.
    split; [by apply list_elem_of_In|].
    rewrite Hdisp. simpl. by apply String.eqb_eq. }
  rewrite Hst. split; reflexivity.
Qed.

Lemma engine_lost_stops_dispatch_witness :
  let a := Sim.job "a1" "a.mp4" Store.pending 0 None in
  let b := Sim.job "b2" "b.mp4" Store.pending 0 None in
  let c := Sim.job "c3" "c.mp4" Store.pending 0 None in
  let gone := Sim.mkTake (inr (mkBlob [Byte.x01] "audio/mpeg")) [40; 100] false in
  let r := Sim.run0 [a; b; c] (Sim.mkStage true [gone] 5) in
  Processing.isLoaded (Processing.world (Processing.processFrom [a; b; c] 0 [a] r)) = false
  /\ Processing.dispatched (Processing.processFrom [a; b; c] 0 ([a] ++ [b; c]) r)
     = Processing.dispatched (Processing.processFrom [a; b; c] 0 [a] r).
Proof.
  intros a b c gone r. split; [reflexivity|].
  refine (proj1 (engine_lost_stops_dispatch [a; b; c] [a] [b; c] r _)).
  reflexivity.
Defined.

(** The same run as a whole: the first job is extracted and completes, the
    engine goes while it runs, the two others are failed without being
    handed to the pipeline, and the run still advances. *)
Example engine_lost_run :
  let a := Sim.job "a1" "a.mp4" Store.pending 0 None in
  let b := Sim.job "b2" "b.mp4" Store.pending 0 None in
  let c := Sim.job "c3" "c.mp4" Store.pending 0 None in
  let gone := Sim.mkTake (inr (mkBlob [Byte.x01] "audio/mpeg")) [40; 100] false in
  let outcome := Processing.startProcessing [a; b; c] true false
                   (Sim.run0 [a; b; c] (Sim.mkStage true [gone] 5)) in
  Processing.dispatched (fst outcome) = ["a1"]
  /\ List.map Store.status (Store.files (Processing.store (fst outcome)))
     = [Store.completed; Store.error; Store.error]
  /\ List.map Store.processingProgress (Store.files (Processing.store (fst outcome)))
     = [100; 0; 0]
  /\ snd outcome = Processing.Advance.
Proof. vm_compute. repeat split; reflexivity. Qed.

(** A run on the wrapper itself: one pending job, a loaded engine that
    encodes its input; the job goes from pending to completed with progress
    100, the result carries the media type of mp3, one record goes to the
    history and the run advances. *)
Example batch_run_completes :
  let a := Sim.job "k3x9q2ab7" "clip.mp4" Store.pending 0 None in
  let outcome := Processing.startProcessing [a] true false
                   (Sim.run0 [a] (Sim.mkBrowser Sim.ready (Ffmpeg.start Sim.quiet) 0)) in
  List.map (fun v => (Store.status v, Store.processingProgress v,
                      option_map blob_type (Store.audioBlob v)))
           (Store.files (Processing.store (fst outcome)))
  = [(Store.completed, 100, Some "audio/mpeg")]
  /\ List.map Store.originalFileName (Store.history (Processing.store (fst outcome)))
     = ["clip.mp4"]
  /\ Processing.dispatched (fst outcome) = ["k3x9q2ab7"]
  /\ snd outcome = Processing.Advance.
Proof. vm_compute. repeat split; reflexivity. Qed.

(* ================================================================= *)
(** ** The guard of the batch run *)

Section Hash.

Lemma insert_sorted_perm (x : string) (l : list string) :
  Permutation (insert_sorted x l) (x :: l).
Proof.
  induction l as [|y l IH]; simpl; [reflexivity|].
  destruct (String.leb x y); [reflexivity|].
  rewrite IH. apply perm_swap.
Qed.

Lemma sort_perm (l : list string) : Permutation (sort l) l.
Proof.
  induction l as [|x l IH]; simpl; [reflexivity|].
  fold (sort l). rewrite insert_sorted_perm. by constructor.
Qed.

Lemma split_free (sep : ascii) (s : string) :
  freeOf sep s = true -> split sep s = [s].
Proof.
  induction s as [|c s IH]; simpl; [reflexivity|].
  intros Hfree. apply andb_prop in Hfree as [Hc Hs].
  apply negb_true_iff in Hc. rewrite Hc, (IH Hs). reflexivity.
Qed.

Lemma split_app_sep (sep : ascii) (s r : string) :
  freeOf sep s = true ->
  split sep (s ++ String sep r)%string = s :: split sep r.
Proof.
  induction s as [|c s IH]; simpl.
  - intros _. by rewrite Ascii.eqb_refl.
  - intros Hfree. apply andb_prop in Hfree as [Hc Hs].
    apply negb_true_iff in Hc. rewrite Hc, (IH Hs). reflexivity.
Qed.

(** Joining with a separator loses nothing when no element holds it and
    the list is not empty. *)
Lemma split_join (sep : ascii) (l : list string) :
  l <> [] -> Forall (fun s => freeOf sep s = true) l ->
  split sep (join (String sep EmptyString) l) = l.
Proof.
  unfold join. induction l as [|x l IH]; [congruence|].
  intros _ Hall. apply Forall_cons in Hall as [Hx Hl].
  destruct l as [|y l].
  - simpl. by apply split_free.
  - change (String.concat (String sep EmptyString) (x :: y :: l))
      with (x ++ String sep (String.concat (String sep EmptyString) (y :: l)))%string.
    rewrite split_app_sep by exact Hx. f_equal. apply IH; [congruence | exact Hl].
Qed.

Lemma wellFormedId_spec (i : string) :
  Processing.wellFormedId i = true -> i <> "" /\ freeOf "|" i = true.
Proof.
  unfold Processing.wellFormedId. intros Hwf. apply andb_prop in Hwf as [Hne Hfree].
  split; [|exact Hfree]. intros ->. discriminate.
Qed.

(** On well-formed ids the joined text determines the list. *)
Lemma join_injective (l1 l2 : list string) :
  Forall (fun i => Processing.wellFormedId i = true) l1 ->
  Forall (fun i => Processing.wellFormedId i = true) l2 ->
  join "|" l1 = join "|" l2 -> l1 = l2.
Proof.
  intros H1 H2 Heq.
  assert (Hfree : forall l, Forall (fun i => Processing.wellFormedId i = true) l ->
                            Forall (fun s => freeOf "|" s = true) l).
  { intros l Hl. eapply Forall_impl; [exact Hl|]. intros i Hi. by apply wellFormedId_spec. }
  assert (Hone : forall l, Forall (fun i => Processing.wellFormedId i = true) l ->
                           l <> [] -> l <> [""]).
  { intros l Hl _ ->. apply Forall_cons in Hl as [Hl _]. discriminate. }
  destruct l1 as [|x1 l1], l2 as [|x2 l2]; [reflexivity | | |].
  - exfalso. apply (Hone (x2 :: l2) H2); [congruence|].
    rewrite <- (split_join "|" (x2 :: l2)) by (auto; congruence).
    rewrite <- Heq. reflexivity.
  - exfalso. apply (Hone (x1 :: l1) H1); [congruence|].
    rewrite <- (split_join "|" (x1 :: l1)) by (auto; congruence).
    rewrite Heq. reflexivity.
  - rewrite <- (split_join "|" (x1 :: l1)), <- (split_join "|" (x2 :: l2))
      by (auto; congruence).
    by rewrite Heq.
Qed.

(** Two lists of jobs with the same hash hold the same ids, as many times
    each, when the ids are well formed. *)
Lemma hash_determines_ids (old new : list Store.VideoFile) :
  List.forallb Processing.wellFormedId (List.map Store.id old) = true ->
  List.forallb Processing.wellFormedId (List.map Store.id new) = true ->
  Processing.generateFilesHash old = Processing.generateFilesHash new ->
  Permutation (List.map Store.id old) (List.map Store.id new).
Proof.
  intros Hold Hnew Heq. unfold Processing.generateFilesHash in Heq.
  pose proof (proj1 (List.forallb_forall _ _) Hold) as Hold'.
  pose proof (proj1 (List.forallb_forall _ _) Hnew) as Hnew'.
  assert (Hsorted : sort (List.map Store.id old) = sort (List.map Store.id new)).
  { apply join_injective; [| | exact Heq].
    - apply List.Forall_forall. intros i Hi. apply Hold'.
      eapply Permutation_in; [apply sort_perm | exact Hi].
    - apply List.Forall_forall. intros i Hi. apply Hnew'.
      eapply Permutation_in; [apply sort_perm | exact Hi]. }
  rewrite <- (sort_perm (List.map Store.id old)), <- (sort_perm (List.map Store.id new)).
  by rewrite Hsorted.
Qed.

(** The updates of a run give no job another id. *)
Lemma applyUpdate_ids (st : Store.AppState) (u : Processing.Update) :
  Processing.keepsIds u = true ->
  List.map Store.id (Store.files (Processing.applyUpdate st u))
  = List.map Store.id (Store.files st).
Proof.
  intros Hk. destruct u as [i s | i v k | i info]; simpl;
    rewrite List.map_map; apply List.map_ext; intros g;
    destruct (String.eqb (Store.id g) i); try reflexivity.
  - destruct k; reflexivity.
  - simpl in Hk. unfold Store.spread. simpl. destruct (Store.p_id info); [discriminate|].
    reflexivity.
Qed.

Lemma applyUpdates_ids (us : list Processing.Update) (st : Store.AppState) :
  List.forallb Processing.keepsIds us = true ->
  List.map Store.id (Store.files (List.fold_left Processing.applyUpdate us st))
  = List.map Store.id (Store.files st).
Proof.
  revert st. induction us as [|u us IH]; intros st Hk; simpl; [reflexivity|].
  simpl in Hk. apply andb_prop in Hk as [Hu Hus].
  rewrite IH by exact Hus. by apply applyUpdate_ids.
Qed.

End Hash.

(** Within one instance of the page the guard follows the ids.  After any
    updates of statuses, progress and results the hash is the one stored, so
    a guard that is set stays set and the effect starts nothing.  And when
    the effect runs on a list whose set of ids differs from the one the
    stored hash was made of, the ids being non-empty and free of the bar
    that joins them, it stores the new hash and re-arms: a run starts
    exactly when the engine is loaded, the flag [isProcessing] is down and a
    job is pending. *)
Lemma guard_follows_the_ids
      (st : Store.AppState) (us : list Processing.Update) (new : list Store.VideoFile)
      (r : Processing.Refs) (ffmpegLoaded isProcessing : bool) :
  Processing.filesHashRef r = Processing.generateFilesHash (Store.files st) ->
  (List.forallb Processing.keepsIds us = true ->
   Processing.hasStartedProcessingRef r = true ->
   Processing.effect (Store.files (List.fold_left Processing.applyUpdate us st))
                     ffmpegLoaded isProcessing r
   = (r, false))
  /\ (List.forallb Processing.wellFormedId (List.map Store.id (Store.files st)) = true ->
      List.forallb Processing.wellFormedId (List.map Store.id new) = true ->
      (list_to_set (List.map Store.id (Store.files st)) : gset string)
      <> list_to_set (List.map Store.id new) ->
      let after := Processing.effect new ffmpegLoaded isProcessing r in
      Processing.filesHashRef (fst after) = Processing.generateFilesHash new
      /\ Processing.hasStartedProcessingRef (fst after) = snd after
      /\ snd after = ffmpegLoaded && negb isProcessing && Processing.hasPending new).
Proof.
  intros Hkey. split.
  - intros Hus Hset. unfold Processing.effect.
    assert (Hsame : Processing.generateFilesHash
                      (Store.files (List.fold_left Processing.applyUpdate us st))
                    = Processing.filesHashRef r).
    { rewrite Hkey. unfold Processing.generateFilesHash.
      by rewrite applyUpdates_ids. }
    rewrite Hsame, String.eqb_refl. simpl. rewrite Hset, andb_false_r. reflexivity.
  - intros Hold Hnew Hdiff after. subst after. unfold Processing.effect.
    destruct (String.eqb_spec (Processing.filesHashRef r) (Processing.generateFilesHash new))
      as [Heq | Hne].
    + exfalso. apply Hdiff. apply list_to_set_perm_L.
      apply hash_determines_ids; [exact Hold | exact Hnew | by rewrite <- Hkey].
    + cbn [negb Processing.hasStartedProcessingRef Processing.filesHashRef].
      rewrite andb_true_r.
      destruct new as [|j new'].
      * destruct ffmpegLoaded, isProcessing; repeat split; reflexivity.
      * change (0 <? List.length (j :: new'))%nat with true. rewrite andb_true_r.
        destruct ffmpegLoaded, isProcessing, (Processing.hasPending (j :: new'));
          repeat split; reflexivity.
Qed.

(* ================================================================= *)
(** ** Two instances of the page *)

Section Instances.
Import Store Processing.
Context {W : Type} `{Pipeline W}.

(** The cuts are cuts of the code: the body of the loop is [beginJob]
    and, when the job is awaited, [resumeJob]. *)
Lemma processFile_split (files : list VideoFile) (i : nat) (file : VideoFile) (r : Run W) :
  processFile files i file r
  = let '(r1, awaited) := beginJob files i file r in
    if awaited then resumeJob file r1 else r1.
Proof.
  unfold processFile, beginJob, resumeJob.
  destruct (negb (status_eqb (status file) pending)); [reflexivity|].
  destruct (List.find _ files) as [currentFileState|]; [|reflexivity].
  destruct (negb (status_eqb (status currentFileState) pending)); [reflexivity|].
  cbv zeta. destruct (negb (isLoaded _)); reflexivity.
Qed.

Lemma processFrom_advance (files : list VideoFile) (rest : list VideoFile) (i : nat) (r : Run W) :
  processFrom files i rest r
  = match advance files i rest r with
    | (r1, None) => r1
    | (r1, Some (file, j, rest')) => processFrom files j rest' (resumeJob file r1)
    end.
Proof.
  revert i r. induction rest as [|file rest IH]; intros i r; [reflexivity|].
  cbn [processFrom advance]. rewrite processFile_split.
  destruct (beginJob files i file r) as [r1 [|]]; [reflexivity|]. apply IH.
Qed.

Lemma startProcessing_opened (files : list VideoFile) (ffmpegLoaded isProcessing : bool)
      (r : Run W) :
  (snd (openRun files ffmpegLoaded isProcessing r) = true ->
   startProcessing files ffmpegLoaded isProcessing r
   = finish (processFrom files 0 files (fst (openRun files ffmpegLoaded isProcessing r))))
  /\ (snd (openRun files ffmpegLoaded isProcessing r) = false ->
      fst (startProcessing files ffmpegLoaded isProcessing r)
      = fst (openRun files ffmpegLoaded isProcessing r)).
Proof.
  unfold startProcessing, openRun.
  destruct (isProcessing || (List.length files =? 0)%nat); [split; [discriminate | reflexivity]|].
  destruct (countStatus pending files =? 0)%nat; [split; [discriminate | reflexivity]|].
  destruct (negb ffmpegLoaded || negb (isLoaded (world r)));
    [split; [discriminate | reflexivity]|].
  destruct (getTime (world r)) as [started w]. split; [reflexivity | discriminate].
Qed.

Lemma hasPending_count (files : list VideoFile) :
  hasPending files = true -> (0 < countStatus pending files)%nat /\ (0 < List.length files)%nat.
Proof.
  unfold hasPending, countStatus. induction files as [|f files IH]; [discriminate|].
  cbn [List.existsb List.filter List.length].
  destruct (status_eqb (status f) pending); cbn [orb List.length]; [lia|].
  intros Hrest. destruct (IH Hrest). lia.
Qed.

(** An instance that mounts on a loaded engine opens a run as soon as a
    job is pending, whatever an earlier instance is doing: neither the flag
    nor the refs of the earlier instance are its own. *)
Lemma fresh_instance_starts (files : list VideoFile) (shared : Run W) :
  hasPending files = true -> isLoaded (world shared) = true ->
  snd (render files true (mountOn shared)) = true
  /\ isProcessing (component (fst (render files true (mountOn shared)))) = true
  /\ store (fst (render files true (mountOn shared))) = store shared.
Proof.
  intros Hpending Hloaded. destruct (hasPending_count files Hpending) as [Hcount Hlen].
  assert (Hlen' : (0 <? List.length files)%nat = true) by (apply Nat.ltb_lt; lia).
  assert (Hlen0 : (List.length files =? 0)%nat = false) by (apply Nat.eqb_neq; lia).
  assert (Hcount0 : (countStatus pending files =? 0)%nat = false) by (apply Nat.eqb_neq; lia).
  unfold render, mountOn, effect.
  cbn [component mounted isProcessing refs initialRefs filesHashRef].
  rewrite Hlen', Hpending.
  destruct (negb (String.eqb "" (generateFilesHash files)));
    cbn [hasStartedProcessingRef andb negb filesHashRef];
    unfold openRun; rewrite Hlen0, Hcount0;
    cbn [orb negb with_component world]; rewrite Hloaded; cbn [negb];
    destruct (getTime (world shared)) as [started w]; repeat split; reflexivity.
Qed.

End Instances.

(** C3: the guard against a second run does not hold across instances of
    the page.  Two jobs are pending and the engine is loaded.  The first
    instance opens a run, which hands the first job to the pipeline and
    awaits it: its flag and its ref are set.  The page is left and entered
    again; the jobs are the same, only a status has changed.  The instance
    that mounts opens a second run while the first is under way, and that
    run hands the second job to the pipeline.  When its extraction settles,
    the first run goes on with the list it was started with, where the
    second job is still pending, and hands that job to the pipeline again,
    while the second run's extraction of it is awaited.  In the end the job
    has been extracted twice and the history holds two records of it. *)
Theorem remount_starts_a_second_run :
  snd Scenes.visit1 = true
  /\ snd Scenes.await1 = Some (Scenes.first, 1%nat, [Scenes.second])
  /\ Processing.isProcessing (Processing.component (fst Scenes.await1)) = true
  /\ Processing.hasStartedProcessingRef
       (Processing.refs (Processing.component (fst Scenes.await1))) = true
  /\ List.map Store.id Scenes.pair2 = List.map Store.id Scenes.pair
  /\ List.map Store.status Scenes.pair2 = [Store.processing; Store.pending]
  /\ snd Scenes.visit2 = true
  /\ snd Scenes.await2 = Some (Scenes.second, 2%nat, [])
  /\ Processing.dispatched (fst Scenes.await2) = ["k3x9q2ab7"; "h5k2m9p1c"]
  /\ snd Scenes.await1' = Some (Scenes.second, 2%nat, [])
  /\ Processing.dispatched (fst Scenes.await1') = ["k3x9q2ab7"; "h5k2m9p1c"; "h5k2m9p1c"]
  /\ Processing.dispatched (fst Scenes.end1) = ["k3x9q2ab7"; "h5k2m9p1c"; "h5k2m9p1c"]
  /\ List.map Store.originalFileName (Store.history (Processing.store (fst Scenes.end1)))
     = ["b.mp4"; "a.mp4"; "b.mp4"]
  /\ List.length
       (List.filter Ffmpeg.writes
          (Ffmpeg.calls (Sim.sys (Processing.world (fst Scenes.end1))))) = 6%nat.
Proof. vm_compute. repeat split; reflexivity. Qed.

(** The hash does not tell every two lists of ids apart: the empty
    registry and a single job whose id is empty have the same (the id of a
    job is [Math.random().toString(36).substr(2, 9)], empty when the random
    number is 0), so the guard stays as it is between them. *)
Example empty_id_keeps_the_guard :
  let r := Processing.mkRefs true (Processing.generateFilesHash
                                     [Sim.job "" "a.mp4" Store.pending 0 None]) in
  Processing.effect [] true false r = (r, false).
Proof. reflexivity. Qed.

(* ================================================================= *)
(** ** The registry: the updates by id, removal and the history *)

Section StoreLaws.
Import Store StoreActions.

Lemma onId_unknown (i : string) (F : VideoFile -> VideoFile) (st : AppState) :
  i ∉ List.map id (files st) -> onId i F st = st.
Proof.
  destruct st as [fs h l]. unfold onId, set_files. cbn [files history ffmpegLoaded].
  intros Hnot. f_equal. induction fs as [|g fs IH]; [reflexivity|].
  cbn [List.map] in *. apply not_elem_of_cons in Hnot as [Hne Hnot].
  destruct (String.eqb_spec (id g) i) as [Heq | _]; [congruence|].
  f_equal. apply IH. exact Hnot.
Qed.

Lemma with_progress_id (g : VideoFile) (k : ProgressKind) (v : Z) :
  id (with_progress g k v) = id g.
Proof. destruct k; reflexivity. Qed.

Lemma progress_of_with_progress (g : VideoFile) (k : ProgressKind) (v : Z) :
  progress_of (with_progress g k v) k = v.
Proof. destruct k; reflexivity. Qed.

Lemma with_progress_twice (g : VideoFile) (k : ProgressKind) (a b : Z) :
  with_progress (with_progress g k a) k b = with_progress g k b.
Proof. destruct k, g; reflexivity. Qed.

Lemma removeFile_unknown (i : string) (st : AppState) :
  i ∉ List.map id (files st) -> removeFile i st = st.
Proof.
  destruct st as [fs h l]. unfold removeFile, set_files. cbn [files history ffmpegLoaded].
  intros Hnot. f_equal. induction fs as [|g fs IH]; [reflexivity|].
  cbn [List.map List.filter] in *. apply not_elem_of_cons in Hnot as [Hne Hnot].
  destruct (String.eqb_spec (id g) i) as [Heq | _]; [congruence|].
  cbn [negb]. f_equal. apply IH. exact Hnot.
Qed.

(** X1: an update addressed to an id that no job of the registry carries
    changes nothing, and neither does the removal of such an id. *)
Theorem unknown_id_changes_nothing (i : string) (st : AppState) :
  i ∉ List.map id (files st) ->
  (forall v k, updateFileProgress i v k st = st)
  /\ (forall s, updateFileStatus i s st = st)
  /\ (forall info, updateFileInfo i info st = st)
  /\ removeFile i st = st.
Proof.
  intros Hnot. split; [|split; [|split]].
  - intros v k. exact (onId_unknown i _ st Hnot).
  - intros s. exact (onId_unknown i _ st Hnot).
  - intros info. exact (onId_unknown i _ st Hnot).
  - exact (removeFile_unknown i st Hnot).
Qed.

(** X2: two progress updates of the same job and kind are one update with
    the larger of the two values, so their order does not matter. *)
Theorem progress_updates_merge (i : string) (v1 v2 : Z) (k : ProgressKind) (st : AppState) :
  updateFileProgress i v2 k (updateFileProgress i v1 k st)
  = updateFileProgress i (Z.max v1 v2) k st
  /\ updateFileProgress i v2 k (updateFileProgress i v1 k st)
     = updateFileProgress i v1 k (updateFileProgress i v2 k st).
Proof.
  assert (Hmerge : forall a b s,
            updateFileProgress i b k (updateFileProgress i a k s)
            = updateFileProgress i (Z.max a b) k s).
  { intros a b s. unfold updateFileProgress, set_files. cbn [files history ffmpegLoaded].
    f_equal. rewrite List.map_map. apply List.map_ext. intros g.
    destruct (String.eqb (id g) i) eqn:E.
    - rewrite with_progress_id, E, progress_of_with_progress, with_progress_twice.
      f_equal. lia.
    - rewrite E. reflexivity. }
  split; [apply Hmerge|]. rewrite !Hmerge. f_equal. lia.
Qed.

(** X3: an update of a progress never lowers it, keeps a value between 0
    and 100 between 0 and 100, stores the larger of the old value and the
    new one cut to that range, and leaves every other job as it was. *)
Theorem progress_is_monotone_and_bounded
        (i : string) (v : Z) (k : ProgressKind) (st : AppState) :
  Forall2 (fun g g' =>
             id g' = id g
             /\ progress_of g k <= progress_of g' k
             /\ (0 <= progress_of g k <= 100 -> 0 <= progress_of g' k <= 100)
             /\ (id g = i ->
                 progress_of g' k = Z.max (progress_of g k) (Z.min 100 (Z.max 0 v)))
             /\ (id g <> i -> g' = g))
          (files st) (files (updateFileProgress i v k st)).
Proof.
  unfold updateFileProgress, set_files. cbn [files].
  induction (files st) as [|g fs IH]; cbn [List.map]; constructor; [|exact IH].
  destruct (String.eqb_spec (id g) i) as [Heq | Hne].
  - rewrite with_progress_id, progress_of_with_progress.
    repeat split; try lia. congruence.
  - repeat split; try lia. congruence.
Qed.

(** X4: after [removeFile] no job carries the id; the jobs left are those
    with another id, in the order they had; removing twice is removing
    once, and the history is not touched. *)
Theorem removeFile_removes_exactly (i : string) (st : AppState) :
  (i ∉ List.map id (files (removeFile i st)))
  /\ (forall g, g ∈ files (removeFile i st) <-> g ∈ files st /\ id g <> i)
  /\ sublist (files (removeFile i st)) (files st)
  /\ removeFile i (removeFile i st) = removeFile i st
  /\ history (removeFile i st) = history st.
Proof.
  assert (Hin : forall g, g ∈ files (removeFile i st) <-> g ∈ files st /\ id g <> i).
  { intros g. unfold removeFile, set_files. cbn [files].
    rewrite !list_elem_of_In, List.filter_In, negb_true_iff, String.eqb_neq. reflexivity. }
  split; [|split; [exact Hin|split; [|split; [|reflexivity]]]].
  - intros Hi. apply list_elem_of_fmap in Hi as (g & Hid & Hg).
    apply Hin in Hg as [_ Hne]. congruence.
  - clear Hin. unfold removeFile, set_files. cbn [files].
    induction (files st) as [|g fs IH]; cbn [List.filter]; [constructor|].
    destruct (negb (String.eqb (id g) i)); [by apply sublist_skip | by apply sublist_cons].
  - apply removeFile_unknown. intros Hi. apply list_elem_of_fmap in Hi as (g & Hid & Hg).
    apply Hin in Hg as [_ Hne]. congruence.
Qed.

End StoreLaws.

Lemma unknown_id_changes_nothing_witness :
  let st := Store.mkAppState [Sim.job "k3x9q2ab7" "a.mp4" Store.processing 40 None] [] true in
  Store.updateFileProgress "h5k2m9p1c" 70 Store.processing_ st = st.
Proof.
  intros st.
  refine (proj1 (unknown_id_changes_nothing "h5k2m9p1c" st _) 70 Store.processing_).
  vm_compute. intros Hin. apply elem_of_cons in Hin as [Heq | Hin]; [discriminate|].
  by apply elem_of_nil in Hin.
Defined.

Section Queue.
Import Store StoreActions.

Lemma uniqueFiles_covers (seen : gset string) (l : list File) (f : File) :
  f ∈ l -> file_name f ∈ seen \/ file_name f ∈ file_name <$> uniqueFiles seen l.
Proof.
  revert seen. induction l as [|a l IH]; intros seen Hin; [by apply elem_of_nil in Hin|].
  simpl. apply elem_of_cons in Hin as [-> | Hin].
  - case_bool_decide as Ha; [by left|]. right. rewrite fmap_cons. by left.
  - case_bool_decide as Ha.
    + by apply IH.
    + destruct (IH ({[file_name a]} ∪ seen) Hin) as [Hs | Hu].
      * apply elem_of_union in Hs as [Hs | Hs]; [|by left].
        apply elem_of_singleton in Hs. right. rewrite fmap_cons, Hs. by left.
      * right. rewrite fmap_cons. by right.
Qed.

Lemma uniqueFiles_all_seen (seen : gset string) (l : list File) :
  (forall f, f ∈ l -> file_name f ∈ seen) -> uniqueFiles seen l = [].
Proof.
  induction l as [|a l IH]; intros Hall; [reflexivity|]. simpl.
  rewrite bool_decide_eq_true_2 by (apply Hall; by left).
  apply IH. intros f Hf. apply Hall. by right.
Qed.

(** X5: handing the same files to [addFiles] once more adds nothing,
    whatever ids and dates the second call would draw. *)
Theorem addFiles_again_adds_nothing (fr fr' : Fresh) (l : list File) (st : AppState) :
  addFiles fr' l (addFiles fr l st) = addFiles fr l st.
Proof.
  unfold addFiles at 1. unfold enqueued.
  rewrite uniqueFiles_all_seen.
  - destruct st as [fs h b]. unfold addFiles, set_files. cbn [files history ffmpegLoaded imap].
    by rewrite app_nil_r.
  - intros f Hf. unfold addFiles, set_files. cbn [files].
    rewrite List.map_app. change (List.map name (enqueued fr st l))
      with (name <$> enqueued fr st l). rewrite enqueued_names.
    rewrite list_to_set_app_L, elem_of_union, !elem_of_list_to_set.
    destruct (uniqueFiles_covers (list_to_set (List.map name (files st))) l f Hf) as [Hs | Hu].
    + left. by apply elem_of_list_to_set in Hs.
    + by right.
Qed.

(** X6: a registry in which no two jobs have the same name stays so under
    [addFiles]; the jobs it had are kept in front, in their order, and the
    history is not touched. *)
Theorem addFiles_keeps_names_distinct (fr : Fresh) (l : list File) (st : AppState) :
  NoDup (List.map name (files st)) ->
  NoDup (List.map name (files (addFiles fr l st)))
  /\ files st `prefix_of` files (addFiles fr l st)
  /\ history (addFiles fr l st) = history st.
Proof.
  intros Hnd. split; [|split; [|reflexivity]].
  - unfold addFiles, set_files. cbn [files]. rewrite List.map_app.
    apply NoDup_app. split; [exact Hnd|]. split.
    + intros n Hold Hnew.
      change (List.map name (enqueued fr st l)) with (name <$> enqueued fr st l) in Hnew.
      rewrite enqueued_names in Hnew.
      apply list_elem_of_fmap in Hnew as (f & -> & Hf).
      apply uniqueFiles_fresh in Hf. apply Hf. by apply elem_of_list_to_set.
    + change (List.map name (enqueued fr st l)) with (name <$> enqueued fr st l).
      rewrite enqueued_names. apply uniqueFiles_NoDup.
  - unfold addFiles, set_files. cbn [files]. by apply prefix_app_r.
Qed.

(** X7: a record put into the history comes first, and removing it by its
    id gives back the state before, when no older record has that id. *)
Theorem history_add_then_remove (item : ProcessingHistory) (st : AppState) :
  Forall (fun old => h_id old <> h_id item) (history st) ->
  history (addToHistory item st) = item :: history st
  /\ removeFromHistory (h_id item) (addToHistory item st) = st.
Proof.
  intros Hfresh. split; [reflexivity|].
  destruct st as [fs h b]. unfold removeFromHistory, addToHistory, set_history.
  cbn [files history ffmpegLoaded List.filter] in *. rewrite String.eqb_refl. cbn [negb].
  f_equal. induction Hfresh as [|old h Hne _ IH]; [reflexivity|].
  cbn [List.filter]. destruct (String.eqb_spec (h_id old) (h_id item)); [contradiction|].
  cbn [negb]. by rewrite IH.
Qed.

(** X8: [removeFromHistory] takes out every record with the id and no
    other, keeps the order, and leaves the registry alone; the id need not
    be there. *)
Theorem removeFromHistory_removes_exactly (i : string) (st : AppState) :
  (forall item, item ∈ history (removeFromHistory i st) <-> item ∈ history st /\ h_id item <> i)
  /\ sublist (history (removeFromHistory i st)) (history st)
  /\ removeFromHistory i (removeFromHistory i st) = removeFromHistory i st
  /\ files (removeFromHistory i st) = files st.
Proof.
  split; [|split; [|split; [|reflexivity]]].
  - intros item. unfold removeFromHistory, set_history. cbn [history].
    rewrite !list_elem_of_In, List.filter_In, negb_true_iff, String.eqb_neq. reflexivity.
  - unfold removeFromHistory, set_history. cbn [history].
    induction (history st) as [|g h IH]; cbn [List.filter]; [constructor|].
    destruct (negb (String.eqb (h_id g) i)); [by apply sublist_skip | by apply sublist_cons].
  - unfold removeFromHistory, set_history. cbn [files history ffmpegLoaded]. f_equal.
    induction (history st) as [|g h IH]; cbn [List.filter]; [reflexivity|].
    destruct (negb (String.eqb (h_id g) i)) eqn:E; cbn [List.filter]; rewrite ?E, IH; reflexivity.
Qed.

(** X9: [addTranscriptionToHistory] marks the records with the id as
    transcribed and never leaves one of them an audio extraction: a record
    of an extraction becomes "both", any other becomes "transcription".
    Doing it a second time, with whatever transcription, therefore turns
    "both" into "transcription".  Records with another id are as they
    were. *)
Theorem transcription_relabels (i : string) (first second : TranscriptionData) (st : AppState) :
  Forall2 (fun a b =>
             if String.eqb (h_id a) i
             then b = transcribed first a
                  /\ hasTranscription b = true
                  /\ operationType b = (match operationType a with
                                        | audio_extraction => both
                                        | _ => transcription
                                        end)
             else b = a)
          (history st) (history (addTranscriptionToHistory i first st))
  /\ Forall2 (fun a b =>
                if String.eqb (h_id a) i
                then hasTranscription b = true /\ operationType b = transcription
                     /\ h_id b = h_id a /\ h_audioUrl b = h_audioUrl a
                else b = a)
             (history st)
             (history (addTranscriptionToHistory i second
                         (addTranscriptionToHistory i first st))).
Proof.
  unfold addTranscriptionToHistory, set_history. cbn [history]. split.
  - induction (history st) as [|a h IH]; cbn [List.map]; constructor; [|exact IH].
    destruct (String.eqb (h_id a) i); [|reflexivity]. repeat split.
  - rewrite List.map_map.
    induction (history st) as [|a h IH]; cbn [List.map]; constructor; [|exact IH].
    destruct (String.eqb (h_id a) i) eqn:E.
    + change (h_id (transcribed first a)) with (h_id a). rewrite E.
      repeat split. destruct a as [? ? ? ? ? ? ? ? ? ? ? []]; reflexivity.
    + rewrite E. reflexivity.
Qed.

(** X10: what is persisted and restored.  Every record of the history is
    persisted without its blob; the page and the engine flag persisted are
    always the home page and "not loaded".  After the restore callback no
    record has kept a blob or an object URL ("blob:..."): such a URL is
    replaced by the empty string; a record with another URL, or none, is
    restored as it was persisted.  The records keep their number, order
    and ids. *)
Theorem persisted_history_drops_blobs
        (st : AppState) (restoredFiles : list VideoFile) (restoredLoaded : bool) :
  s_currentPage (partialize st) = "home"
  /\ s_ffmpegLoaded (partialize st) = false
  /\ exists restored,
       onRehydrateStorage
         (Some (mkAppState restoredFiles (s_history (partialize st)) restoredLoaded))
       = Some (mkAppState restoredFiles restored restoredLoaded)
       /\ Forall2 (fun a b =>
                     h_id b = h_id a
                     /\ originalFileName b = originalFileName a
                     /\ h_audioBlob b = None
                     /\ hasBlobUrl b = false
                     /\ (if hasBlobUrl a then h_audioUrl b = Some ""
                         else b = withoutBlob a))
                  (history st) restored.
Proof.
  split; [reflexivity|]. split; [reflexivity|].
  eexists. split; [reflexivity|]. cbn [history partialize s_history].
  rewrite List.map_map.
  induction (history st) as [|a h IH]; cbn [List.map]; constructor; [|exact IH].
  change (hasBlobUrl (withoutBlob a)) with (hasBlobUrl a).
  destruct (hasBlobUrl a) eqn:E; repeat split. exact E.
Qed.

End Queue.

Lemma addFiles_keeps_names_distinct_witness :
  let fr := Store.mkFresh (fun _ => "0.k3x9q2ab7h5") (fun _ => 1700000000000) in
  let st := Store.mkAppState [Sim.job "k3x9q2ab7" "a.mp4" Store.completed 100 None] [] true in
  NoDup (List.map Store.name
           (Store.files (Store.addFiles fr [mkFile "b.mp4" 8 "video/mp4";
                                            mkFile "a.mp4" 4 "video/mp4"] st))).
Proof.
  intros fr st.
  refine (proj1 (addFiles_keeps_names_distinct fr _ st _)).
  vm_compute. apply NoDup_cons. split; [|apply NoDup_nil; exact I].
  intros Hin. by apply elem_of_nil in Hin.
Defined.

Lemma history_add_then_remove_witness :
  let item := Store.mkProcessingHistory "h5k2m9p1c" "clip.mp4" (Some "clip_audio_1.mp3")
                (Some "blob:1") None (Some "mp3") (Some "high") 2 (Some 0) 1700000000000
                false Store.audio_extraction in
  let older := Store.mkProcessingHistory "k3x9q2ab7" "old.mp4" None None None None None 1 None
                 1600000000000 false Store.audio_extraction in
  let st := Store.mkAppState [] [older] true in
  StoreActions.removeFromHistory "h5k2m9p1c" (Store.addToHistory item st) = st.
Proof.
  intros item older st.
  refine (proj2 (history_add_then_remove item st _)).
  repeat constructor. vm_compute. discriminate.
Defined.

(* ================================================================= *)
(** ** The loader: retries, waits and what a call leaves behind *)

Section Retries.
Import Ffmpeg.
Variable net : Net.
Variables url type : string.
Variable maxRetries : nat.

Lemma backoff_bounds (i : nat) : 1000 <= backoff i <= 5000.
Proof.
  unfold backoff. assert (0 < 2 ^ Z.of_nat i) by (apply Z.pow_pos_nonneg; lia). lia.
Qed.

Lemma retryLoop_success_at (k : nat) :
  forall (todo i : nat) (lastError : option Exn) (blobURL : string),
    (forall j, (j < k)%nat -> exists e, fetchOnce net url type (i + j) = inl e) ->
    fetchOnce net url type (i + k) = inr blobURL ->
    (k < todo)%nat -> (i + k < maxRetries)%nat ->
    retryLoop net url type maxRetries todo i lastError
    = (inr blobURL, List.map backoff (List.seq i k)).
Proof.
  induction k as [|k IH]; intros todo i lastError blobURL Hfail Hok Htodo Hmax.
  - destruct todo as [|todo]; [lia|]. cbn [retryLoop List.seq List.map].
    rewrite Nat.add_0_r in Hok. rewrite Hok. reflexivity.
  - destruct todo as [|todo]; [lia|]. cbn [retryLoop List.seq List.map].
    destruct (Hfail 0%nat) as [e He]; [lia|]. rewrite Nat.add_0_r in He. rewrite He.
    destruct (Nat.ltb_spec (S i) maxRetries) as [_ | Hge]; [|lia].
    rewrite (IH todo (S i) (Some e) blobURL).
    + reflexivity.
    + intros j Hj. destruct (Hfail (S j)) as [e' He']; [lia|].
      exists e'. rewrite <- He'. f_equal. lia.
    + rewrite <- Hok. f_equal. lia.
    + lia.
    + lia.
Qed.

Lemma retryLoop_all_fail (failure : nat -> Exn) :
  forall (todo i : nat) (lastError : option Exn),
    (forall j, (i <= j < maxRetries)%nat -> fetchOnce net url type j = inl (failure j)) ->
    (i + todo = maxRetries)%nat -> (0 < todo)%nat ->
    retryLoop net url type maxRetries todo i lastError
    = (inl (failure (maxRetries - 1)%nat),
       List.map backoff (List.seq i (todo - 1))).
Proof.
  induction todo as [|todo IH]; intros i lastError Hfail Hsum Hpos; [lia|].
  cbn [retryLoop]. rewrite Hfail by lia.
  destruct todo as [|todo].
  - cbn [retryLoop default]. destruct (Nat.ltb_spec (S i) maxRetries) as [Hlt | _]; [lia|].
    replace (maxRetries - 1)%nat with i by lia. reflexivity.
  - rewrite (IH (S i) (Some (failure i))) by (try lia; intros j Hj; apply Hfail; lia).
    destruct (Nat.ltb_spec (S i) maxRetries) as [_ | Hge]; [|lia].
    replace (S (S todo) - 1)%nat with (S (S todo - 1)) by lia. reflexivity.
Qed.

Lemma retryLoop_delays :
  forall (todo i : nat) (lastError : option Exn),
    (i + todo = maxRetries)%nat ->
    exists k, (k <= maxRetries - 1 - i)%nat
              /\ snd (retryLoop net url type maxRetries todo i lastError)
                 = List.map backoff (List.seq i k).
Proof.
  induction todo as [|todo IH]; intros i lastError Hsum.
  - exists 0%nat. split; [lia | reflexivity].
  - cbn [retryLoop]. destruct (fetchOnce net url type i) as [e | blobURL].
    + destruct (IH (S i) (Some e)) as (k & Hk & Hds); [lia|].
      destruct (retryLoop net url type maxRetries todo (S i) (Some e)) as [r ds].
      cbn [snd] in *. subst ds.
      destruct (Nat.ltb_spec (S i) maxRetries) as [Hlt | Hge].
      * exists (S k). split; [lia | reflexivity].
      * exists 0%nat. split; [lia|]. assert (k = 0)%nat as -> by lia. reflexivity.
    + exists 0%nat. split; [lia | reflexivity].
Qed.

(** X11: when the first [k] attempts fail and attempt [k] succeeds within
    the allowed number, [loadWithRetry] returns the URL of that attempt
    after having waited once after each failure: 1000ms, 2000ms, 4000ms and
    then 5000ms each. *)
Theorem loadWithRetry_first_success (k : nat) (blobURL : string) :
  (k < maxRetries)%nat ->
  (forall j, (j < k)%nat -> exists e, fetchOnce net url type j = inl e) ->
  fetchOnce net url type k = inr blobURL ->
  loadWithRetry net url type maxRetries = (inr blobURL, List.map backoff (List.seq 0 k)).
Proof.
  intros Hk Hfail Hok. unfold loadWithRetry.
  apply retryLoop_success_at; auto.
Qed.

(** X12: when every allowed attempt fails, [loadWithRetry] rejects with
    the error of the last attempt, having waited after each attempt but the
    last. *)
Theorem loadWithRetry_gives_up (failure : nat -> Exn) :
  (0 < maxRetries)%nat ->
  (forall j, (j < maxRetries)%nat -> fetchOnce net url type j = inl (failure j)) ->
  loadWithRetry net url type maxRetries
  = (inl (failure (maxRetries - 1)%nat),
     List.map backoff (List.seq 0 (maxRetries - 1))).
Proof.
  intros Hpos Hfail. unfold loadWithRetry.
  apply retryLoop_all_fail; [intros j Hj; apply Hfail; lia | lia | lia].
Qed.

(** X13: whatever the network does, the waits of [loadWithRetry] are the
    first few of 1000, 2000, 4000, 5000, 5000, ...: fewer than the number of
    attempts allowed, each between one and five seconds. *)
Theorem loadWithRetry_waits_are_bounded :
  exists k, (k <= maxRetries - 1)%nat
            /\ snd (loadWithRetry net url type maxRetries) = List.map backoff (List.seq 0 k)
            /\ Forall (fun d => 1000 <= d <= 5000) (snd (loadWithRetry net url type maxRetries)).
Proof.
  destruct (retryLoop_delays maxRetries 0 None) as (k & Hk & Hds); [lia|].
  exists k. split; [lia|]. split; [exact Hds|].
  unfold loadWithRetry. rewrite Hds. apply List.Forall_forall.
  intros d Hd. apply List.in_map_iff in Hd as (j & <- & _). apply backoff_bounds.
Qed.

End Retries.

Lemma loadWithRetry_first_success_witness :
  Ffmpeg.loadWithRetry (Scenes.flakyNet 2) "https://unpkg.com/core.js" "text/javascript" 3
  = (inr "blob:https://unpkg.com/core.js", [1000; 2000]).
Proof.
  refine (loadWithRetry_first_success (Scenes.flakyNet 2) "https://unpkg.com/core.js"
            "text/javascript" 3 2 "blob:https://unpkg.com/core.js" _ _ _).
  - lia.
  - intros [|[|j]] Hj; [eexists; reflexivity | eexists; reflexivity | lia].
  - reflexivity.
Defined.

Lemma loadWithRetry_gives_up_witness :
  Ffmpeg.loadWithRetry Sim.deadNet "https://unpkg.com/core.js" "text/javascript" 3
  = (inl (JsError "Failed to fetch"), [1000; 2000]).
Proof.
  refine (loadWithRetry_gives_up Sim.deadNet "https://unpkg.com/core.js" "text/javascript" 3
            (fun _ => JsError "Failed to fetch") _ _).
  - lia.
  - intros j _. reflexivity.
Defined.

Section LoadOutcome.
Import Ffmpeg.
Variable net : Net.

Lemma loadLoop_outcome (sources : list string) (q : Processor) :
  (fst (fst (loadLoop net sources q)) = inr tt
   /\ snd (fst (loadLoop net sources q)) = mkProcessor (ffmpeg q) true
   /\ is_Some (ffmpeg q))
  \/ fst (loadLoop net sources q) = (inl (JsError msg_load_failed), notLoaded).
Proof.
  destruct sources as [|baseURL rest]; [right; reflexivity|].
  cbn [loadLoop].
  destruct (fromSource net (ffmpeg q) baseURL) as [[e|[]] d] eqn:Hsrc.
  - right. pose proof (loadLoop_without_instance net rest) as Hrest. unfold notLoaded in *.
    destruct (loadLoop net rest (mkProcessor None false)) as [r d']. exact Hrest.
  - left. split; [reflexivity|]. split; [reflexivity|].
    destruct (ffmpeg q) as [inst|]; [eauto|].
    destruct (fromSource_without_instance net baseURL) as [e He].
    rewrite Hsrc in He. discriminate.
Qed.

(** X14: a call of [load] ends in one of two ways.  Either it succeeds,
    and then the object is loaded and holds an instance, and a further call
    returns at once without touching the network; or it fails with the one
    message "the engine could not be loaded" and the object holds no
    instance and is not loaded. *)
Theorem load_leaves_a_consistent_object (sources : list string) (p : Processor) :
  let r := fst (loadFrom net sources p) in
  (fst r = inr tt
   /\ usable (snd r) = true
   /\ forall (later : Net) (others : list string),
        loadFrom later others (snd r) = ((inr tt, snd r), []))
  \/ (fst r = inl (JsError msg_load_failed) /\ snd r = notLoaded).
Proof.
  intros r. subst r. unfold loadFrom.
  destruct (loaded p && bool_decide (is_Some (ffmpeg p))) eqn:Hp.
  - left. cbn [fst snd]. apply andb_prop in Hp as [Hl Hi].
    split; [reflexivity|]. split; [unfold usable; by rewrite Hl, Hi|].
    intros later others. unfold loadFrom. by rewrite Hl, Hi.
  - destruct (loadLoop_outcome sources (mkProcessor (Some NewFFmpeg) (loaded p)))
      as [(Hr & Hq & _) | Hfail].
    + left. split; [exact Hr|]. rewrite Hq. split; [reflexivity|].
      intros later others. reflexivity.
    + right. rewrite Hfail. split; reflexivity.
Qed.

(** X15: the sources after the first are of no use.  When the first
    source fails (its direct initialisation and its staged path), the call
    fails, whatever the later sources would answer: the instance is set to
    [null] after the failure and not created again. *)
Theorem first_source_failure_is_final (baseURL : string) (rest : list string) (p : Processor) :
  loaded p && bool_decide (is_Some (ffmpeg p)) = false ->
  directFails net baseURL = true -> stagedFails net baseURL = true ->
  fst (loadFrom net (baseURL :: rest) p) = (inl (JsError msg_load_failed), notLoaded).
Proof.
  intros Hp Hd Hs. unfold loadFrom. rewrite Hp.
  apply loadLoop_first_source_fails; assumption.
Qed.

End LoadOutcome.

Lemma first_source_failure_is_final_witness :
  Forall (fun baseURL => Ffmpeg.directFails Scenes.secondBest baseURL = false)
         (List.tl Ffmpeg.cdnSources)
  /\ fst (Ffmpeg.load Scenes.secondBest Ffmpeg.notLoaded)
     = (inl (JsError Ffmpeg.msg_load_failed), Ffmpeg.notLoaded).
Proof.
  split; [repeat constructor|].
  refine (first_source_failure_is_final Scenes.secondBest _ _ Ffmpeg.notLoaded _ _ _);
    vm_compute; reflexivity.
Defined.

(* ================================================================= *)
(** ** How an extraction fails, and the probe *)

Section Failures.
Import Ffmpeg Probe.
Context {W : Type} `{Env W} `{Casing}.

Lemma catch_spec {A : Type} (m : M W A) (h : Exn -> M W A) (s : Sys W) :
  (exists a s1, m s = (inr a, s1) /\ catch m h s = (inr a, s1))
  \/ (exists e s1, m s = (inl e, s1) /\ catch m h s = h e s1).
Proof.
  unfold catch. destruct (m s) as [[e|a] s1]; [right | left]; eauto.
Qed.

(** The messages the [catch] block of [extractAudio] can give an error. *)
Lemma classify_range (e0 : Exn) :
  exists message,
    classify e0 = JsError message
    /\ (In message [msg_corrupt_input; msg_file_read; msg_permission; msg_memory;
                    msg_codec; msg_damaged; msg_generic]
        \/ (e0 = JsError message /\ includes message "不支持的视频格式" = true)).
Proof.
  destruct e0 as [message|]; [|exists msg_generic; split; [reflexivity|left; simpl; tauto]].
  unfold classify.
  repeat match goal with
         | |- context [if ?b then _ else _] =>
             lazymatch b with
             | includes message "不支持的视频格式" => fail
             | _ => destruct b;
                    [eexists; split; [reflexivity | left; simpl; tauto]|]
             end
         end.
  destruct (includes message "不支持的视频格式") eqn:E.
  - exists message. split; [reflexivity|]. right. split; [reflexivity | exact E].
  - eexists; split; [reflexivity | left; simpl; tauto].
Qed.

(** X16: however a call of [extractAudio] on a loaded engine fails, the
    error that leaves is an [Error] whose message is one of the seven fixed
    texts of the wrapper, or the format-check message passed through; and
    the last things asked of the engine are a directory listing and the
    deletion of the call's two temporary files. *)
Theorem extractAudio_failure_is_classified
        (p : Processor) (videoFile : File) (outputFormat : Format) (quality : Quality)
        (hasCallback : bool) (s : Sys W) (e : Exn) :
  usable p = true ->
  fst (extractAudio p videoFile outputFormat quality hasCallback s) = inl e ->
  (exists message,
     e = JsError message
     /\ (In message [msg_corrupt_input; msg_file_read; msg_permission; msg_memory;
                     msg_codec; msg_damaged; msg_generic]
         \/ includes message "不支持的视频格式" = true))
  /\ exists before,
       calls (snd (extractAudio p videoFile outputFormat quality hasCallback s))
       = before ++ [CListDir "/";
                    CDeleteFile (inputNameIn (world s) videoFile);
                    CDeleteFile (outputNameIn (world s) outputFormat)].
Proof.
  intros Hp. unfold usable in Hp. apply andb_prop in Hp as [Hinst Hloaded].
  apply bool_decide_eq_true in Hinst.
  unfold extractAudio, inputNameIn, outputNameIn, uniqueIdIn.
  rewrite (bool_decide_eq_true_2 _ Hinst), Hloaded. cbn [negb orb].
  unfold bind, ambient, attempt.
  destruct (dateNow (world s)) as [timestamp w1]. cbn [world].
  destruct (mathRandom36 w1) as [random w2].
  destruct (call (CListDir "/") (ff_listDir "/") _) as [r1 s1].
  match goal with
  | |- context [catch ?m ?h s1] => destruct (catch_spec m h s1) as
        [(a & s2 & _ & ->) | (e0 & s2 & _ & ->)]
  end; [discriminate|].
  destruct (onFailure_spec p
              (inputName (decimal timestamp ++ "_" ++ substring 2 8 random)%string videoFile)
              (outputName (decimal timestamp ++ "_" ++ substring 2 8 random)%string
                          outputFormat)
              e0 s2 Hinst) as (Hv & Hc & _).
  rewrite Hv, Hc. intros [= <-]. split; [|eauto].
  destruct (classify_range e0) as (message & -> & [Hin | [_ Hinc]]); eauto.
Qed.

(** X17: [getVideoInfo] rejects only when the engine is not loaded, and
    then asks nothing of it.  On a loaded engine it never rejects and
    always answers duration 0, resolution "未知" and the declared type of
    the file, whatever happens; and when the probe command fails the
    temporary file written for it is not deleted. *)
Theorem getVideoInfo_answers_unknown (p : Processor) (videoFile : File) (s : Sys W) :
  (usable p = false ->
   getVideoInfo p videoFile s = (inl (JsError msg_probe_not_loaded), s))
  /\ (usable p = true ->
      fst (getVideoInfo p videoFile s) = inr (unknownInfo videoFile)
      /\ reports (snd (getVideoInfo p videoFile s)) = reports s
      /\ forall data w1 w2 sgs e w3,
           fetchFile videoFile (world s) = (inr data, w1) ->
           ff_writeFile (probeName videoFile) data w1 = (inr tt, w2) ->
           ff_exec ["-i"; probeName videoFile; "-f"; "null"; "-"] w2 = ((sgs, inl e), w3) ->
           world (snd (getVideoInfo p videoFile s)) = w3
           /\ calls (snd (getVideoInfo p videoFile s))
              = calls s ++ [CFetchFile videoFile;
                            CWriteFile (probeName videoFile) data;
                            CExec ["-i"; probeName videoFile; "-f"; "null"; "-"]]).
Proof.
  unfold usable, getVideoInfo. split.
  - intros Hp. destruct (bool_decide (is_Some (ffmpeg p))), (loaded p);
      simpl in Hp; try discriminate; reflexivity.
  - intros Hp. apply andb_prop in Hp as [-> ->]. cbn [negb orb].
    unfold catch, bind, call, exec, ret. cbn [world calls reports console].
    split; [|split].
    + destruct (fetchFile videoFile (world s)) as [[e|data] w1]; [reflexivity|].
      cbn [world]. destruct (ff_writeFile _ data w1) as [[e|[]] w2]; [reflexivity|].
      cbn [world]. destruct (ff_exec _ w2) as [[sgs [e|[]]] w3]; [reflexivity|].
      cbn [world]. destruct (ff_deleteFile _ w3) as [[e|[]] w4]; reflexivity.
    + destruct (fetchFile videoFile (world s)) as [[e|data] w1]; [reflexivity|].
      cbn [world]. destruct (ff_writeFile _ data w1) as [[e|[]] w2]; [reflexivity|].
      cbn [world]. destruct (ff_exec _ w2) as [[sgs [e|[]]] w3]; [reflexivity|].
      cbn [world]. destruct (ff_deleteFile _ w3) as [[e|[]] w4]; reflexivity.
    + intros data w1 w2 sgs e w3 Hfetch Hwrite Hexec.
      rewrite Hfetch. cbn [world]. rewrite Hwrite. cbn [world]. rewrite Hexec.
      cbn [snd world calls]. rewrite <- !app_assoc. split; reflexivity.
Qed.

End Failures.

Lemma extractAudio_failure_is_classified_witness :
  exists before,
    Ffmpeg.calls (snd (Ffmpeg.extractAudio Sim.ready (mkFile "notes.txt" 10 "text/plain")
                                           wav low false (Ffmpeg.start Sim.quiet)))
    = before ++ [Ffmpeg.CListDir "/";
                 Ffmpeg.CDeleteFile "input_1700000000000_k3x9q2.txt";
                 Ffmpeg.CDeleteFile "output_1700000000000_k3x9q2.wav"].
Proof.
  refine (proj2 (extractAudio_failure_is_classified
                   Sim.ready (mkFile "notes.txt" 10 "text/plain") wav low false
                   (Ffmpeg.start Sim.quiet) (JsError Ffmpeg.msg_unsupported) _ _)).
  - reflexivity.
  - vm_compute. reflexivity.
Defined.

(* ================================================================= *)
(** ** An extraction on an engine with a filesystem *)

Section Restore.
Import Ffmpeg Sim.
Context `{Casing}.

Lemma temporary_names_differ (u : string) (videoFile : File) (outputFormat : Format) :
  inputName u videoFile <> outputName u outputFormat.
Proof. unfold inputName, outputName. discriminate. Qed.

Lemma delete_both_fresh (f : gmap string bytes) (i o : string) :
  f !! i = None -> f !! o = None ->
  delete o (delete i f) = f.
Proof. intros Hi Ho. rewrite (delete_id f i Hi). by apply delete_id. Qed.

Lemma delete_both_input (f : gmap string bytes) (i o : string) (d : bytes) :
  f !! i = None -> f !! o = None ->
  delete o (delete i (<[i := d]> f)) = f.
Proof.
  intros Hi Ho. rewrite delete_insert_eq. by apply delete_both_fresh.
Qed.

Lemma delete_both_output (f : gmap string bytes) (i o : string) (d out : bytes) :
  i <> o -> f !! i = None -> f !! o = None ->
  delete o (delete i (<[o := out]> (<[i := d]> f))) = f.
Proof.
  intros Hne Hi Ho. rewrite delete_insert_ne by congruence.
  rewrite !delete_insert_eq. rewrite (delete_id f i Hi). by apply delete_id.
Qed.

Lemma mem_writeInput (i : string) (videoFile : File) (s : Sys Mem) :
  exists d,
    fst (writeInput i videoFile s) = inr tt
    /\ world (snd (writeInput i videoFile s)) = with_fs (world s) (<[i := d]> (fs (world s))).
Proof.
  unfold writeInput, bind, catch, call, log, ret.
  cbn [fetchFile ff_writeFile ff_readFile memEnv world with_fs fs].
  rewrite lookup_insert_eq.
  eexists. destruct (negb _); split; reflexivity.
Qed.

Lemma mem_runCommand (hasCallback : bool) (i o : string) (params : list string) (d : bytes)
      (s : Sys Mem) :
  fs (world s) !! i = Some d ->
  match encoded (world s) with
  | inr out =>
      fst (runCommand hasCallback (["-i"; i; "-vn"] ++ params ++ [o]) s) = inr tt
      /\ world (snd (runCommand hasCallback (["-i"; i; "-vn"] ++ params ++ [o]) s))
         = with_fs (world s) (<[o := out]> (fs (world s)))
  | inl e =>
      fst (runCommand hasCallback (["-i"; i; "-vn"] ++ params ++ [o]) s) = inl e
      /\ world (snd (runCommand hasCallback (["-i"; i; "-vn"] ++ params ++ [o]) s)) = world s
  end.
Proof.
  intros Hi. unfold runCommand. cbn [ff_exec memEnv]. unfold memExec.
  change (List.nth 1 (["-i"; i; "-vn"] ++ params ++ [o]) "") with i.
  rewrite Hi.
  replace (List.last (["-i"; i; "-vn"] ++ params ++ [o]) "") with o
    by (symmetry; rewrite !app_assoc; apply List.last_last).
  destruct (encoded (world s)) as [e|out].
  - split; reflexivity.
  - destruct hasCallback; split; reflexivity.
Qed.

Lemma mem_readOutput (o : string) (out : bytes) (s : Sys Mem) :
  fs (world s) !! o = Some out ->
  fst (readOutput o s) = inr out /\ world (snd (readOutput o s)) = world s.
Proof.
  intros Ho. unfold readOutput, catch, bind, call.
  cbn [ff_listDir ff_readFile memEnv world]. rewrite Ho. split; reflexivity.
Qed.

Lemma mem_cleanup (i o : string) (s : Sys Mem) :
  is_Some (fs (world s) !! i) -> is_Some (fs (world s) !! o) -> i <> o ->
  fst (cleanup i o s) = inr tt
  /\ world (snd (cleanup i o s)) = with_fs (world s) (delete o (delete i (fs (world s)))).
Proof.
  intros [d Hi] [out Ho] Hne. unfold cleanup, bind, call.
  cbn [ff_deleteFile memEnv world]. rewrite Hi. cbn [world with_fs fs].
  rewrite lookup_delete_ne by exact Hne. rewrite Ho. split; reflexivity.
Qed.

Lemma mem_deleteLeftover (n : string) (s : Sys Mem) :
  fst (deleteLeftover ready n s) = inr tt
  /\ world (snd (deleteLeftover ready n s)) = with_fs (world s) (delete n (fs (world s))).
Proof.
  unfold deleteLeftover, call, log. cbn [ready ffmpeg ff_deleteFile memEnv].
  destruct (fs (world s) !! n) eqn:Hn; cbn [fst snd world].
  - split; reflexivity.
  - split; [reflexivity|]. rewrite (delete_id _ _ Hn). by destruct (world s).
Qed.

Lemma mem_onFailure (i o : string) (e : Exn) (s : Sys Mem) :
  fst (onFailure ready i o e s) = inl (classify e)
  /\ world (snd (onFailure ready i o e s))
     = with_fs (world s) (delete o (delete i (fs (world s)))).
Proof.
  unfold onFailure, bind, attempt, throw. cbn [ready ffmpeg].
  unfold call. cbn [ff_listDir memEnv].
  set (s1 := mkSys (world s) _ _ _).
  destruct (mem_deleteLeftover i s1) as [Hv1 Hw1].
  destruct (deleteLeftover ready i s1) as [v1 s2]. cbn [fst snd] in Hv1, Hw1. subst v1.
  destruct (mem_deleteLeftover o s2) as [Hv2 Hw2].
  destruct (deleteLeftover ready o s2) as [v2 s3]. cbn [fst snd] in Hv2, Hw2. subst v2.
  cbn [fst snd]. split; [reflexivity|]. rewrite Hw2, Hw1. reflexivity.
Qed.

(** X18: an extraction on an engine whose filesystem is a finite map,
    started when the call's two temporary names are not in use.  However
    the call ends, the filesystem is afterwards what it was before: the
    input written and the output produced are both removed.  And for a file
    that passes the pre-flight checks the outcome follows the codec: its
    error leaves classified; an empty output is the general extraction
    error; otherwise the call returns the encoded bytes with the media type
    of the format. *)
Theorem extraction_leaves_no_file
        (m : Mem) (videoFile : File) (outputFormat : Format) (quality : Quality)
        (hasCallback : bool) :
  fs m !! inputNameIn m videoFile = None ->
  fs m !! outputNameIn m outputFormat = None ->
  let r := extractAudio ready videoFile outputFormat quality hasCallback (start m) in
  fs (world (snd r)) = fs m
  /\ (file_size videoFile <= sizeLimit ->
      isTypeSupported videoFile || isExtensionSupported videoFile = true ->
      fst r = match encoded m with
              | inl e => inl (classify e)
              | inr out =>
                  if byteLength out =? 0 then inl (JsError msg_generic)
                  else inr (mkBlob out (getMimeType (format_name outputFormat)))
              end).
Proof.
  destruct m as [fs0 clock0 seed0 keep0 signals0 encoded0].
  unfold inputNameIn, outputNameIn, uniqueIdIn. cbn [dateNow mathRandom36 memEnv fs clock seed].
  set (u := (decimal clock0 ++ "_" ++ substring 2 8 seed0)%string).
  intros Hin Hout.
  pose proof (temporary_names_differ u videoFile outputFormat) as Hne.
  unfold extractAudio. cbn [ready ffmpeg loaded negb orb].
  rewrite bool_decide_eq_true_2 by eauto. cbn [negb orb].
  unfold bind, ambient, attempt, catch, start.
  cbn [dateNow mathRandom36 memEnv world calls reports console clock seed fs keep signals encoded].
  fold u.
  set (i := inputName u videoFile) in *. set (o := outputName u outputFormat) in *.
  set (params := getQualityParams _ _).
  unfold call. cbn [ff_listDir memEnv world calls reports console fs].
  set (s1 := mkSys _ _ _ _).
  assert (Hpure : snd (preflight videoFile s1) = s1).
  { unfold preflight. destruct (file_size videoFile >? sizeLimit); [reflexivity|].
    destruct (negb _ && negb _); reflexivity. }
  pose proof (preflight_accepts videoFile s1) as Haccept.
  destruct (preflight videoFile s1) as [[e|[]] s2]; cbn [snd] in Hpure; subst s2.
  { destruct (mem_onFailure i o e s1) as [Hv Hw]. rewrite Hv, Hw. split.
    - cbn [with_fs fs world s1]. by apply delete_both_fresh.
    - intros Hsize Hok. specialize (Haccept Hsize Hok). discriminate. }
  clear Haccept.
  destruct (mem_writeInput i videoFile s1) as (d & Hv4 & Hw4).
  destruct (writeInput i videoFile s1) as [v4 s4]. cbn [fst snd] in Hv4, Hw4. subst v4.
  cbn [world s1 with_fs fs clock seed keep signals encoded] in Hw4.
  pose proof (mem_runCommand hasCallback i o params d s4) as Hrun.
  rewrite Hw4 in Hrun. cbn [fs encoded with_fs clock seed keep signals] in Hrun.
  specialize (Hrun (lookup_insert_eq _ _ _)).
  destruct encoded0 as [e|out].
  { destruct Hrun as [Hv6 Hw6].
    destruct (runCommand hasCallback _ s4) as [v6 s6]. cbn [fst snd] in Hv6, Hw6. subst v6.
    destruct (mem_onFailure i o e s6) as [Hv Hw]. rewrite Hv, Hw, Hw6. split; [|auto].
    cbn [with_fs fs]. by apply delete_both_input. }
  destruct Hrun as [Hv6 Hw6].
  destruct (runCommand hasCallback _ s4) as [v6 s6]. cbn [fst snd] in Hv6, Hw6. subst v6.
  destruct (mem_readOutput o out s6) as [Hv8 Hw8];
    [rewrite Hw6; cbn [fs with_fs]; apply lookup_insert_eq|].
  destruct (readOutput o s6) as [v8 s8]. cbn [fst snd] in Hv8, Hw8. subst v8.
  destruct (byteLength out =? 0).
  { unfold throw.
    destruct (mem_onFailure i o (JsError msg_empty_output) s8) as [Hv Hw].
    rewrite Hv, Hw, Hw8, Hw6.
    split; [|intros _ _; unfold classify;
             rewrite toLowerCase_caseless by (vm_compute; reflexivity);
             vm_compute; reflexivity].
    cbn [with_fs fs]. by apply delete_both_output. }
  destruct (mem_cleanup i o s8) as [Hv10 Hw10].
  { rewrite Hw8, Hw6. cbn [fs with_fs]. rewrite lookup_insert_ne by congruence.
    rewrite lookup_insert_eq. eauto. }
  { rewrite Hw8, Hw6. cbn [fs with_fs]. rewrite lookup_insert_eq. eauto. }
  { exact Hne. }
  destruct (cleanup i o s8) as [v10 s10]. cbn [fst snd] in Hv10, Hw10. subst v10.
  unfold ret. cbn [fst snd]. rewrite Hw10, Hw8, Hw6. split; [|reflexivity].
  cbn [with_fs fs]. by apply delete_both_output.
Qed.

End Restore.

Lemma extraction_leaves_no_file_witness :
  Sim.fs (Ffmpeg.world (snd (Ffmpeg.extractAudio Sim.ready (Sim.clip 4) aac medium true
                                                 (Ffmpeg.start Sim.quiet))))
  = Sim.fs Sim.quiet.
Proof.
  refine (proj1 (extraction_leaves_no_file Sim.quiet (Sim.clip 4) aac medium true _ _));
    vm_compute; reflexivity.
Defined.

(* ================================================================= *)
(** ** The loop over the jobs, whatever the engine does *)

Section Loop.
Import Store Processing Outcome.
Context {W : Type} `{Pipeline W}.

Lemma advances_compose (F G : VideoFile -> VideoFile) :
  advances F -> advances G -> advances (fun g => G (F g)).
Proof.
  intros HF HG g. destruct (HF g) as (Hi & Hn & Hp). destruct (HG (F g)) as (Hi' & Hn' & Hp').
  repeat split; [congruence | congruence | lia].
Qed.

Lemma advances_progress (v : Z) :
  advances (fun g => with_progress g processing_
                       (Z.max (progress_of g processing_) (Z.min 100 (Z.max 0 v)))).
Proof. intros g. repeat split. cbn. lia. Qed.

Lemma advances_status (s : Status) :
  advances (fun g => spread g (mkPartial None None None None None None None None None (Some s)
                                         None None None None None None)).
Proof. intros g. repeat split. cbn. lia. Qed.

Lemma advances_error (e : option string) : advances (fun g => spread g (errorInfo e)).
Proof. intros g. repeat split. cbn. lia. Qed.

Lemma advances_result (url : string) (b : Blob) (f : Format) (q : Quality) (s : Status) :
  advances (fun g => spread g (resultInfo url b f q s)).
Proof. intros g. repeat split. cbn. lia. Qed.

Lemma advances_lostJob : advances lostJob.
Proof. intros g. repeat split. cbn. lia. Qed.

(** The reports of one extraction, stored one after the other. *)
Lemma reports_stored (i : string) (vs : list Z) :
  exists G, advances G
            /\ forall st, List.fold_left (fun st v => updateFileProgress i v processing_ st) vs st
                          = onId i G st.
Proof.
  induction vs as [|v vs (G & HG & Hfold)].
  - exists (fun g => g). split; [intros g; repeat split; lia|].
    intros [fs h l]. unfold onId, set_files. cbn [files history ffmpegLoaded List.fold_left].
    f_equal. rewrite <- (List.map_id fs) at 1. apply List.map_ext.
    intros g. by destruct (String.eqb (id g) i).
  - exists (fun g => G (with_progress g processing_
                         (Z.max (progress_of g processing_) (Z.min 100 (Z.max 0 v))))).
    split; [apply advances_compose; [apply advances_progress | exact HG]|].
    intros st. cbn [List.fold_left]. rewrite Hfold.
    change (updateFileProgress i v processing_ st)
      with (onId i (fun g => with_progress g processing_
                               (Z.max (progress_of g processing_) (Z.min 100 (Z.max 0 v)))) st).
    apply onId_compose. intros g. apply with_progress_id.
Qed.

Lemma processFile_skips (fs : list VideoFile) (i : nat) (f : VideoFile) (r : Run W) :
  dispatchable fs f = false -> processFile fs i f r = r.
Proof.
  unfold processFile, dispatchable.
  destruct (status_eqb (status f) pending); cbn [negb andb]; [|reflexivity].
  destruct (List.find (fun g => String.eqb (id g) (id f)) fs) as [cur|]; [|reflexivity].
  destruct (status_eqb (status cur) pending); cbn [negb]; [discriminate | reflexivity].
Qed.

(** One pass with the engine loaded: the job is handed to the pipeline
    and ends completed or failed. *)
Lemma processFile_engine_up (fs : list VideoFile) (i : nat) (f : VideoFile) (r : Run W) :
  dispatchable fs f = true -> isLoaded (world r) = true ->
  exists G new,
    store (processFile fs i f r) = onId (id f) G (store r)
    /\ advances G /\ (forall g, settled (G g) = true)
    /\ dispatched (processFile fs i f r) = dispatched r ++ [id f]
    /\ processedFiles (processFile fs i f r) = processedFiles r ++ new
    /\ (List.length new <= 1)%nat
    /\ Forall (recordOf f) new.
Proof.
  intros Hd Hup. unfold processFile. unfold dispatchable in Hd.
  destruct (status_eqb (status f) pending); cbn [negb andb] in *; [|discriminate].
  destruct (List.find (fun g => String.eqb (id g) (id f)) fs) as [cur|]; [|discriminate].
  rewrite Hd. cbn [negb].
  unfold with_store, with_component. cbn [world store component toasts processedFiles dispatched].
  rewrite Hup. cbn [negb].
  destruct (extract (Store.file f) mp3 high (world r)) as [[result progress] w].
  destruct (reports_stored (id f) progress) as (Gp & HGp & ->).
  change (updateFileProgress (id f) 0 processing_ (updateFileStatus (id f) processing (store r)))
    with (onId (id f)
            (fun g => with_progress g processing_
                        (Z.max (progress_of g processing_) (Z.min 100 (Z.max 0 0))))
            (onId (id f)
               (fun g => spread g (mkPartial None None None None None None None None None
                                             (Some processing) None None None None None None))
               (store r))).
  rewrite !onId_compose by (intros g; first [reflexivity | apply with_progress_id]).
  pose proof (advances_compose _ _
                (advances_compose _ _ (advances_status processing) (advances_progress 0)) HGp)
    as Hbefore.
  set (before := fun g => Gp _) in *.
  destruct result as [thrown | audioBlob].
  - unfold failJob, toast, with_store.
    cbn [world store component toasts processedFiles dispatched].
    change (updateFileInfo (id f) ?info (updateFileStatus (id f) Store.error ?st))
      with (onId (id f) (fun g => spread g info)
              (onId (id f)
                 (fun g => spread g (mkPartial None None None None None None None None None
                                               (Some Store.error) None None None None None None))
                 st)).
    rewrite !onId_compose
      by (intros g; first [reflexivity | apply (proj1 (Hbefore g))]).
    eexists. exists []. split; [reflexivity|]. split.
    { intros g. destruct (Hbefore g) as (Hi & Hn & Hp).
      split; [exact Hi|]. split; [exact Hn | exact Hp]. }
    split; [intros g; reflexivity|]. split; [reflexivity|].
    split; [by rewrite app_nil_r|]. split; [simpl; lia | constructor].
  - unfold completeJob. cbn [world store component toasts processedFiles dispatched].
    destruct (createObjectURL audioBlob w) as [audioUrl w1].
    destruct (getTime w1) as [stamp w2].
    destruct (random36 w2) as [rnd w3].
    destruct (getTime w3) as [processed w4].
    cbn [world store component toasts processedFiles dispatched].
    change (updateFileInfo (id f) ?info ?st) with (onId (id f) (fun g => spread g info) st).
    rewrite !onId_compose by (intros g; apply (proj1 (Hbefore g))).
    eexists. eexists. split; [reflexivity|]. split.
    { intros g. destruct (Hbefore g) as (Hi & Hn & Hp).
      split; [exact Hi|]. split; [exact Hn | exact Hp]. }
    split; [intros g; reflexivity|]. split; [reflexivity|].
    split; [reflexivity|]. split; [simpl; lia|].
    constructor; [|constructor]. repeat split. cbn. eauto.
Qed.

(** What one pass makes of the registry, in each of the three cases. *)
Lemma processFile_store (fs : list VideoFile) (i : nat) (f : VideoFile) (r : Run W) :
  exists G,
    advances G /\ (forall g, settled (G g) = true)
    /\ store (processFile fs i f r)
       = (if dispatchable fs f then onId (id f) G (store r) else store r).
Proof.
  destruct (dispatchable fs f) eqn:Hd.
  - destruct (isLoaded (world r)) eqn:Hup.
    + destruct (processFile_engine_up fs i f r Hd Hup) as (G & new & Hs & HG & Hset & _).
      exists G. auto.
    + destruct (processFile_engine_down fs i f r Hup) as (_ & _ & _ & Hs & _).
      rewrite Hd in Hs. exists lostJob.
      split; [apply advances_lostJob|]. split; [intros g; reflexivity | exact Hs].
  - exists lostJob. split; [apply advances_lostJob|]. split; [intros g; reflexivity|].
    by rewrite processFile_skips.
Qed.

Lemma processFile_history (fs : list VideoFile) (i : nat) (f : VideoFile) (r : Run W) :
  history (store (processFile fs i f r)) = history (store r).
Proof.
  destruct (processFile_store fs i f r) as (G & _ & _ & ->).
  by destruct (dispatchable fs f).
Qed.

Lemma processFrom_history (fs : list VideoFile) (i : nat) (rest : list VideoFile) (r : Run W) :
  history (store (processFrom fs i rest r)) = history (store r).
Proof.
  revert i r. induction rest as [|f rest IH]; intros i r; cbn [processFrom]; [reflexivity|].
  by rewrite IH, processFile_history.
Qed.

(** X19: the jobs are handed to the pipeline in the order of the rendered
    list, each pending job once, the others never: what is dispatched is
    always the first few of the list's pending jobs, and all of them when
    the engine is loaded each time the loop comes to a job. *)
Theorem dispatch_follows_the_list
        (fs : list VideoFile) (i : nat) (rest : list VideoFile) (r : Run W) :
  (exists k, dispatched (processFrom fs i rest r)
             = dispatched r ++ List.map id (take k (List.filter (dispatchable fs) rest)))
  /\ ((forall done, done `prefix_of` rest ->
                    isLoaded (world (processFrom fs i done r)) = true) ->
      dispatched (processFrom fs i rest r)
      = dispatched r ++ List.map id (List.filter (dispatchable fs) rest)).
Proof.
  split.
  - revert i r. induction rest as [|f rest IH]; intros i r; cbn [processFrom List.filter].
    + exists 0%nat. by rewrite app_nil_r.
    + destruct (dispatchable fs f) eqn:Hd.
      * destruct (isLoaded (world r)) eqn:Hup.
        -- destruct (processFile_engine_up fs i f r Hd Hup) as (G & new & _ & _ & _ & Hdis & _).
           destruct (IH (S i) (processFile fs i f r)) as [k Hk].
           exists (S k). rewrite Hk, Hdis, <- app_assoc. reflexivity.
        -- exists 0%nat.
           destruct (processFrom_engine_down fs i (f :: rest) r Hup) as (_ & Hdis & _).
           cbn [processFrom] in Hdis. rewrite Hdis. by rewrite app_nil_r.
      * rewrite processFile_skips by exact Hd. apply IH.
  - revert i r. induction rest as [|f rest IH]; intros i r Hup; cbn [processFrom List.filter].
    + by rewrite app_nil_r.
    + assert (Hnow : isLoaded (world r) = true) by (apply (Hup []); apply prefix_nil).
      assert (Hlater : forall done, done `prefix_of` rest ->
                isLoaded (world (processFrom fs (S i) done (processFile fs i f r))) = true).
      { intros done Hdone. apply (Hup (f :: done)). by apply prefix_cons. }
      rewrite (IH (S i) (processFile fs i f r) Hlater).
      destruct (dispatchable fs f) eqn:Hd.
      * destruct (processFile_engine_up fs i f r Hd Hnow) as (G & new & _ & _ & _ & Hdis & _).
        rewrite Hdis, <- app_assoc. reflexivity.
      * by rewrite processFile_skips.
Qed.

(** X20: after the loop every job the loop started has come to an end,
    completed or failed, none is left processing; a job the loop did not
    start is exactly as it was; and no job has changed its id or its name or
    lost progress.  The loop itself does not touch the history. *)
Theorem every_started_job_is_settled
        (fs : list VideoFile) (i : nat) (rest : list VideoFile) (r : Run W) :
  Forall2 (fun g g' =>
             id g' = id g /\ name g' = name g
             /\ processingProgress g <= processingProgress g'
             /\ (if startedId fs rest g then settled g' = true else g' = g))
          (files (store r)) (files (store (processFrom fs i rest r)))
  /\ history (store (processFrom fs i rest r)) = history (store r).
Proof.
  split; [|apply processFrom_history].
  revert i r. induction rest as [|f rest IH]; intros i r; cbn [processFrom].
  - apply Forall_Forall2_diag, List.Forall_forall. intros g _. repeat split. lia.
  - specialize (IH (S i) (processFile fs i f r)).
    destruct (processFile_store fs i f r) as (G & HG & Hset & Hs). rewrite Hs in IH.
    unfold startedId. cbn [List.existsb].
    destruct (dispatchable fs f) eqn:Hd; cbn [andb orb].
    + unfold onId, set_files in IH. cbn [files] in IH.
      apply Forall2_fmap_l in IH. eapply Forall2_impl; [exact IH|].
      intros g g'. cbn. destruct (String.eqb (id g) (id f)) eqn:Eg; cbn [orb].
      * destruct (HG g) as (Hi & Hn & Hp). unfold startedId. rewrite Hi.
        intros (Hi' & Hn' & Hp' & Hrest). repeat split; [congruence | congruence | lia|].
        destruct (List.existsb _ rest); [exact Hrest | subst g'; apply Hset].
      * auto.
    + exact IH.
Qed.

(** X21: the records the loop collects.  One record is added for each
    extraction that succeeded, never more than one per dispatched job; each
    is the record of a job of the list that the loop would start: it carries
    the job's name and the blob with its size, and is always filed as an
    audio extraction in mp3 at high quality, without transcription. *)
Theorem loop_records_extractions
        (fs : list VideoFile) (i : nat) (rest : list VideoFile) (r : Run W) :
  exists new,
    processedFiles (processFrom fs i rest r) = processedFiles r ++ new
    /\ (List.length (dispatched r) + List.length new
        <= List.length (dispatched (processFrom fs i rest r)))%nat
    /\ Forall (fun item => exists f, f ∈ rest /\ dispatchable fs f = true /\ recordOf f item)
              new.
Proof.
  revert i r. induction rest as [|f rest IH]; intros i r; cbn [processFrom].
  - exists []. rewrite app_nil_r. split; [reflexivity|]. split; [simpl; lia | constructor].
  - destruct (IH (S i) (processFile fs i f r)) as (new' & Hp' & Hlen' & Hrec').
    assert (Hrec'' : Forall (fun item => exists f0, f0 ∈ f :: rest /\ dispatchable fs f0 = true
                                                   /\ recordOf f0 item) new').
    { eapply Forall_impl; [exact Hrec'|]. intros item (f0 & Hin & Hrest). exists f0.
      split; [by right | exact Hrest]. }
    destruct (dispatchable fs f) eqn:Hd; [destruct (isLoaded (world r)) eqn:Hup|].
    + destruct (processFile_engine_up fs i f r Hd Hup)
        as (G & new & _ & _ & _ & Hdis & Hpf & Hlen & Hrec).
      exists (new ++ new'). rewrite Hp', Hpf, <- app_assoc. split; [reflexivity|].
      rewrite Hdis in Hlen'. rewrite !length_app in *. cbn [List.length] in Hlen'.
      split; [lia|]. apply Forall_app. split; [|exact Hrec''].
      eapply Forall_impl; [exact Hrec|]. intros item Hitem. exists f.
      split; [by left | auto].
    + destruct (processFile_engine_down fs i f r Hup) as (_ & Hdis & Hpf & _).
      exists new'. rewrite Hp', Hpf. rewrite Hdis in Hlen'. auto.
    + rewrite processFile_skips in * by exact Hd. exists new'. auto.
Qed.

End Loop.

Lemma dispatch_follows_the_list_witness :
  let a := Sim.job "a1" "a.mp4" Store.pending 0 None in
  let b := Sim.job "b2" "b.mp4" Store.processing 10 None in
  let c := Sim.job "c3" "c.mp4" Store.pending 0 None in
  let ok := Sim.mkTake (inr (mkBlob [Byte.x01] "audio/mpeg")) [40; 100] true in
  let r := Sim.run0 [a; b; c] (Sim.mkStage true [ok; ok] 5) in
  Processing.dispatched (Processing.processFrom [a; b; c] 0 [a; b; c] r) = ["a1"; "c3"].
Proof.
  intros a b c ok r.
  refine (proj2 (dispatch_follows_the_list [a; b; c] 0 [a; b; c] r) _).
  intros done Hdone.
  destruct Hdone as [k Hk].
  destruct done as [|x done]; [reflexivity|]. injection Hk as <- Hk.
  destruct done as [|y done]; [reflexivity|]. injection Hk as <- Hk.
  destruct done as [|z done]; [reflexivity|]. injection Hk as <- Hk.
  destruct done as [|t done]; [reflexivity | discriminate].
Defined.

(* ================================================================= *)
(** ** The end of a run, the retry and the effect *)

Section RunEnd.
Import Store Processing Outcome.
Context {W : Type} `{Pipeline W}.

Lemma addToHistory_all (items : list ProcessingHistory) (st : AppState) :
  List.fold_left (fun st item => addToHistory item st) items st
  = mkAppState (files st) (rev items ++ history st) (ffmpegLoaded st).
Proof.
  revert st. induction items as [|item items IH]; intros st; cbn [List.fold_left rev].
  - by destruct st.
  - rewrite IH. cbn [addToHistory files history ffmpegLoaded]. by rewrite <- app_assoc.
Qed.

Lemma countStatus_pos (s : Status) (fs : list VideoFile) :
  (0 < countStatus s fs)%nat <-> exists g, g ∈ fs /\ status g = s.
Proof.
  unfold countStatus. split.
  - destruct (List.filter _ fs) as [|g l] eqn:E; [simpl; lia|]. intros _.
    assert (Hin : In g (List.filter (fun f => status_eqb (status f) s) fs))
      by (rewrite E; by left).
    apply List.filter_In in Hin as [Hin Hs]. exists g. split; [by apply list_elem_of_In|].
    destruct (status g), s; simpl in Hs; congruence.
  - intros (g & Hin & Hs).
    assert (Hf : In g (List.filter (fun f => status_eqb (status f) s) fs)).
    { apply List.filter_In. split; [by apply list_elem_of_In|]. rewrite Hs. by destruct s. }
    destruct (List.filter _ fs); [destruct Hf | simpl; lia].
Qed.

(** X22: what follows the loop.  The records of the run go to the front
    of the history, the last one first; the registry is not touched; the
    component is no longer processing and the guard of the effect is open
    again; one notice is shown; and the run advances to the download page
    exactly when some job of the registry is completed. *)
Theorem finish_files_the_records (r : Run W) :
  history (store (fst (finish r))) = rev (processedFiles r) ++ history (store r)
  /\ files (store (fst (finish r))) = files (store r)
  /\ isProcessing (component (fst (finish r))) = false
  /\ hasStartedProcessingRef (refs (component (fst (finish r)))) = false
  /\ (exists t, toasts (fst (finish r)) = toasts r ++ [t])
  /\ (snd (finish r) = Advance <-> exists g, g ∈ files (store r) /\ status g = completed)
  /\ (snd (finish r) = Advance \/ snd (finish r) = Failure).
Proof.
  unfold finish, with_store, with_component, toast.
  cbn [store world component toasts processedFiles dispatched].
  rewrite addToHistory_all. cbn [files history ffmpegLoaded].
  pose proof (countStatus_pos completed (files (store r))) as Hpos.
  destruct (Nat.ltb_spec 0 (countStatus completed (files (store r)))) as [Hlt | Hge];
    cbn [fst snd store component toasts history files isProcessing refs
         hasStartedProcessingRef setHasStarted setIsProcessing].
  - do 4 (split; [reflexivity|]). split; [eauto|]. split; [|auto].
    split; [intros _; by apply Hpos | reflexivity].
  - do 4 (split; [reflexivity|]). split; [eauto|]. split; [|auto].
    split; [discriminate | intros Hex; apply Hpos in Hex; lia].
Qed.

(** X23: the retry action in general.  When the engine is not ready it
    only shows a notice.  Otherwise every job that carries the id of a
    failed job of the rendered list is pending again with its error
    cleared, its progress being the larger of its old value and 0; every
    other job is as it was; the component is back at job 0, not processing,
    with the guard open; nothing is dispatched and no notice is shown. *)
Theorem retryProcessing_resets_the_failed (fs : list VideoFile) (ffmpegLoaded : bool) (r : Run W) :
  (ffmpegLoaded && isLoaded (world r) = false ->
   retryProcessing fs ffmpegLoaded r = (toast r (ToastError msg_not_ready_retry), false))
  /\ (ffmpegLoaded && isLoaded (world r) = true ->
      snd (retryProcessing fs ffmpegLoaded r) = true
      /\ files (store (fst (retryProcessing fs ffmpegLoaded r)))
         = List.map (fun g => if failedId fs g then rearmed g else g) (files (store r))
      /\ (forall g, status (rearmed g) = pending /\ error_ (rearmed g) = None
                    /\ processingProgress (rearmed g) = Z.max (processingProgress g) 0
                    /\ id (rearmed g) = id g /\ name (rearmed g) = name g)
      /\ component (fst (retryProcessing fs ffmpegLoaded r))
         = mkComponent 0 false (processingStartTime (component r))
                       (mkRefs false (filesHashRef (refs (component r))))
      /\ dispatched (fst (retryProcessing fs ffmpegLoaded r)) = dispatched r
      /\ toasts (fst (retryProcessing fs ffmpegLoaded r)) = toasts r
      /\ world (fst (retryProcessing fs ffmpegLoaded r)) = world r).
Proof.
  unfold retryProcessing. split; intros Hready.
  - destruct ffmpegLoaded, (isLoaded (world r)); try discriminate; reflexivity.
  - apply andb_prop in Hready as [-> ->]. cbn [negb orb].
    unfold with_store, with_component.
    cbn [fst snd store world component toasts processedFiles dispatched].
    rewrite resetFailed_spec. repeat split.
Qed.


End RunEnd.

(* ================================================================= *)
(** ** Numbers: the sign of a sum, a product and a quotient *)

Section Rounding.
Import SpecFloat Num.

(** Shifting a mantissa to the right keeps it from going below zero. *)
Lemma shr_1_sign (mrs : shr_record) : 0 <= shr_m mrs -> 0 <= shr_m (shr_1 mrs).
Proof.
  destruct mrs as [m r s]. cbn [shr_m shr_1].
  destruct m as [|[p|p|]|p]; cbn [shr_m]; lia.
Qed.

Lemma iter_pos_sign (n : positive) (mrs : shr_record) :
  0 <= shr_m mrs -> 0 <= shr_m (iter_pos shr_1 n mrs).
Proof.
  revert mrs. induction n as [n IH | n IH |]; intros mrs Hm; cbn [iter_pos].
  - apply IH, IH, shr_1_sign, Hm.
  - apply IH, IH, Hm.
  - apply shr_1_sign, Hm.
Qed.

Lemma shr_fexp_sign (m e : Z) (l : location) :
  0 <= m -> 0 <= shr_m (fst (shr_fexp prec emax m e l)).
Proof.
  intros Hm. unfold shr_fexp, shr.
  assert (Hrec : 0 <= shr_m (shr_record_of_loc m l)) by (by destruct l as [|[]]).
  destruct (fexp prec emax (Zdigits2 m + e) - e); cbn [fst]; try exact Hrec.
  by apply iter_pos_sign.
Qed.

Lemma round_nearest_even_sign (m : Z) (l : location) :
  0 <= m -> 0 <= round_nearest_even m l.
Proof.
  intros Hm. destruct l as [|[]]; cbn [round_nearest_even]; try lia.
  destruct (Z.even m); lia.
Qed.

(** Rounding a mantissa that is not negative gives a zero, a finite
    number or an infinity with the sign asked for, never NaN. *)
Lemma binary_round_aux_sign (m e : Z) (l : location) :
  0 <= m -> nonNegative (binary_round_aux prec emax false m e l) = true.
Proof.
  intros Hm. unfold binary_round_aux.
  pose proof (shr_fexp_sign m e l Hm) as H1.
  destruct (shr_fexp prec emax m e l) as [mrs1 e1]. cbn [fst] in H1.
  pose proof (shr_fexp_sign _ e1 loc_Exact
                (round_nearest_even_sign _ (loc_of_shr_record mrs1) H1)) as H2.
  destruct (shr_fexp prec emax _ e1 loc_Exact) as [mrs2 e2]. cbn [fst] in H2.
  destruct (shr_m mrs2) as [|p|p]; [reflexivity | | lia].
  by destruct (e2 <=? emax - prec).
Qed.

Lemma mul_sign (x : Num.number) (m : positive) (e : Z) :
  nonNegative x = true -> nonNegative (mul x (S754_finite false m e)) = true.
Proof.
  destruct x as [[]|[]| |[] mx ex]; try discriminate; intros _; try reflexivity.
  unfold mul, SFmul. cbn [xorb]. by apply binary_round_aux_sign.
Qed.

Lemma mul_sign_l (x : Num.number) (m : positive) (e : Z) :
  nonNegative x = true -> nonNegative (mul (S754_finite false m e) x) = true.
Proof.
  destruct x as [[]|[]| |[] mx ex]; try discriminate; intros _; try reflexivity.
  unfold mul, SFmul. cbn [xorb]. by apply binary_round_aux_sign.
Qed.

Lemma div_sign (a : Z) (n : positive) :
  0 <= a -> nonNegative (div (ofZ a) (ofZ (Zpos n))) = true.
Proof.
  intros Ha. destruct a as [|p|p]; [reflexivity | | lia].
  unfold div, ofZ, SFdiv. cbn [xorb].
  destruct (SFdiv_core_binary prec emax (Z.pos p) 0 (Z.pos n) 0) as [[mz ez] lz] eqn:E.
  apply binary_round_aux_sign.
  unfold SFdiv_core_binary in E. cbv zeta in E.
  match type of E with
  | (let '(q, r) := Z.div_eucl ?m' _ in _) = _ =>
      assert (Hm' : 0 <= m');
      [|pose proof (Z.div_pos m' (Z.pos n) Hm' ltac:(lia)) as Hq;
        unfold Z.div in Hq; destruct (Z.div_eucl m' (Z.pos n)) as [q r];
        injection E as <- _ _; exact Hq]
  end.
  destruct (0 - 0 - _); [lia | apply Z.shiftl_nonneg; lia | lia].
Qed.

Lemma add_sign (x y : Num.number) :
  nonNegative x = true -> nonNegative y = true -> nonNegative (add x y) = true.
Proof.
  destruct x as [[]|[]| |[] mx ex]; try discriminate;
    destruct y as [[]|[]| |[] my ey]; try discriminate; intros _ _; try reflexivity.
  unfold add, SFadd. cbv zeta. cbn [cond_Zopp].
  change (Z.pos ?a + Z.pos ?b) with (Z.pos (a + b)). cbn [binary_normalize].
  unfold binary_round. destruct (shl_align _ _ _) as [mz ez].
  by apply binary_round_aux_sign.
Qed.

(** A fraction of equal whole numbers is 1. *)
Lemma div_same (n : positive) :
  div (ofZ (Zpos n)) (ofZ (Zpos n)) = S754_finite false 4503599627370496 (-52).
Proof.
  unfold div, ofZ, SFdiv, SFdiv_core_binary. cbv zeta. cbn [xorb].
  replace (Zdigits2 (Z.pos n) + 0 - (Zdigits2 (Z.pos n) + 0)) with 0 by lia.
  change (Z.min (fexp prec emax 0) (0 - 0)) with (-53).
  change (0 - 0 - -53) with 53. cbv iota beta.
  rewrite Z.shiftl_mul_pow2 by lia.
  pose proof (Z.div_mul (2 ^ 53) (Z.pos n) ltac:(lia)) as Hq.
  pose proof (Z.mod_mul (2 ^ 53) (Z.pos n) ltac:(lia)) as Hr.
  rewrite (Z.mul_comm (2 ^ 53)) in Hq, Hr. unfold Z.div in Hq. unfold Z.modulo in Hr.
  destruct (Z.div_eucl (Z.pos n * 2 ^ 53) (Z.pos n)) as [q r]. subst q r.
  replace (new_location (Z.pos n) 0) with loc_Exact
    by (unfold new_location; destruct (Z.even (Z.pos n)); reflexivity).
  vm_compute. reflexivity.
Qed.

Lemma nonNegative_ext (x : Num.number) : nonNegative x = true -> ext x <> None.
Proof. by destruct x as [[]|[]| |[] m e]. Qed.

Lemma power_positive (e : Z) : (0 < 2 ^ e)%Q.
Proof. apply Qpower_0_lt. reflexivity. Qed.

Lemma nonNegative_real (x : Num.number) : nonNegative x = true -> (0 <= real x)%Q.
Proof.
  destruct x as [[]|[]| |[] m e]; try discriminate; intros _; cbn [real]; try lra.
  pose proof (power_positive e) as Hp.
  assert (Hm : (0 < inject_Z (Z.pos m))%Q) by (rewrite <- (Zlt_Qlt 0); lia).
  nra.
Qed.

Lemma nonNegative_leb (x : Num.number) : nonNegative x = true -> leb (ofZ 0) x = true.
Proof.
  intros Hx. pose proof (nonNegative_real x Hx) as Hr.
  destruct x as [[]|[]| |[] m e]; try discriminate; unfold leb; cbn [ext ext_leb ofZ];
    try reflexivity; apply Qle_bool_iff; exact Hr.
Qed.

(** Held between 0 and 100. *)
Lemma clamp_sign (x : Num.number) :
  nonNegative x = true ->
  nonNegative (min (ofZ 100) (max (ofZ 0) x)) = true
  /\ leb (min (ofZ 100) (max (ofZ 0) x)) (ofZ 100) = true.
Proof.
  intros Hx.
  assert (Hmax : nonNegative (max (ofZ 0) x) = true).
  { unfold max. cbn [ofZ].
    destruct x as [[]|[]| |[] m e]; try discriminate;
      repeat match goal with |- context [if ?c then _ else _] => destruct c end;
      reflexivity. }
  set (y := max (ofZ 0) x) in *. clearbody y. clear x Hx.
  unfold min. cbn [ofZ].
  destruct y as [[]|[]| |[] m e]; try discriminate;
    match goal with
    | |- context [ltb ?a ?b] =>
        destruct (ltb a b) eqn:Hab; [split; reflexivity|];
        destruct (ltb b a) eqn:Hba; [split; [reflexivity | by apply ltb_leb]|];
        split; reflexivity
    end.
Qed.

Lemma whole_integer (x : Num.number) (z : Z) :
  ext x = Some (Real (real x)) -> (real x == inject_Z z)%Q -> whole x = true.
Proof.
  intros Hx Hz. destruct x as [s|s| |s m e]; [reflexivity | by destruct s | discriminate|].
  unfold whole. apply Qeq_bool_iff.
  rewrite (Qfloor_comp _ _ Hz), Qfloor_Z. exact Hz.
Qed.

Lemma power_whole (e : Z) : 0 <= e -> (2 ^ e == inject_Z (2 ^ e))%Q.
Proof. intros He. symmetry. apply (Zpower_Qpower 2 e He). Qed.

Lemma round_sign (x : Q) : (0 <= x)%Q -> 0 <= Js.round x.
Proof.
  intros Hx. unfold Js.round. change 0 with (Qfloor (1 # 2)). apply Qfloor_resp_le. lra.
Qed.

(** [Math.round] of a number between 0 and 100 is a whole number between
    0 and 100. *)
Lemma round_percentage (x : Num.number) :
  nonNegative x = true -> leb x (ofZ 100) = true ->
  whole (round x) = true
  /\ leb (ofZ 0) (round x) = true
  /\ leb (round x) (ofZ 100) = true.
Proof.
  intros Hx Hle.
  assert (Hsign : nonNegative (round x) = true /\ whole (round x) = true).
  { pose proof (nonNegative_real x Hx) as Hreal.
    destruct x as [[]|[]| |[] m e]; try discriminate; [by split|].
    cbn [round]. destruct (Z.leb_spec 0 e) as [He | He].
    - split; [reflexivity|].
      apply (whole_integer _ (Z.pos m * 2 ^ e)); [reflexivity|]. cbn [real].
      rewrite inject_Z_mult, (power_whole e He). reflexivity.
    - pose proof (round_sign _ Hreal) as Hz.
      destruct (Js.round (real (S754_finite false m e))) as [|p|p]; [by split | | lia].
      split; [reflexivity|].
      apply (whole_integer _ (Z.pos p)); [reflexivity | apply real_ofZ]. }
  destruct Hsign as [Hsign Hwhole].
  split; [exact Hwhole|]. split; [by apply nonNegative_leb | by apply round_leb].
Qed.

(** A percentage of 1 to 100, as a fraction, is a finite number above 0. *)
Lemma percentage_finite (p : Z) :
  0 < p <= 100 -> exists m e, div (ofZ p) (ofZ 100) = S754_finite false m e.
Proof.
  intros Hp.
  assert (Hall : List.forallb
                   (fun k => match div (ofZ (Z.of_nat k)) (ofZ 100) with
                             | S754_finite false _ _ => true
                             | _ => false
                             end) (List.seq 1 100) = true) by (vm_compute; reflexivity).
  rewrite List.forallb_forall in Hall.
  specialize (Hall (Z.to_nat p)). rewrite Z2Nat.id in Hall by lia.
  destruct (div (ofZ p) (ofZ 100)) as [s|s| |[] m e];
    try (discriminate Hall; apply List.in_seq; lia).
  by exists m, e.
Qed.

End Rounding.

(* ================================================================= *)
(** ** The progress shown while a run is under way *)

Section Overall.
Import Store Processing View.

Lemma countStatus_all (s : Status) (fs : list VideoFile) :
  Forall (fun g => status g = s) fs -> countStatus s fs = List.length fs.
Proof.
  unfold countStatus. induction 1 as [|g fs Hg _ IH]; [reflexivity|].
  cbn [List.filter]. rewrite Hg. replace (status_eqb s s) with true by (by destruct s).
  cbn [List.length]. by rewrite IH.
Qed.

Lemma filter_status_none (s : Status) (fs : list VideoFile) :
  Forall (fun g => status g <> s) fs ->
  List.filter (fun f => status_eqb (status f) s) fs = [].
Proof.
  induction 1 as [|g fs Hg _ IH]; [reflexivity|].
  cbn [List.filter]. rewrite IH.
  destruct (status g), s; try reflexivity; congruence.
Qed.

(** The sum that is rounded is never NaN and never below zero. *)
Lemma baseProgress_sign (fs : list VideoFile) (n : positive) (c : Z) (current : VideoFile) :
  0 <= c -> processingProgress current <= 100 ->
  let baseProgress := Num.mul (Num.div (Num.ofZ c) (Num.ofZ (Z.pos n))) (Num.ofZ 100) in
  Num.nonNegative baseProgress = true
  /\ Num.nonNegative
       (if 0 <? processingProgress current
        then Num.add baseProgress
               (Num.mul (Num.div (Num.ofZ (processingProgress current)) (Num.ofZ 100))
                        (Num.mul (Num.div (Num.ofZ 1) (Num.ofZ (Z.pos n))) (Num.ofZ 100)))
        else baseProgress) = true.
Proof.
  intros Hc Hp baseProgress.
  assert (Hbase : Num.nonNegative baseProgress = true)
    by (apply mul_sign, div_sign; exact Hc).
  split; [exact Hbase|].
  destruct (Z.ltb_spec 0 (processingProgress current)) as [Hpos | _]; [|exact Hbase].
  apply add_sign; [exact Hbase|].
  destruct (percentage_finite (processingProgress current)) as (m & e & ->); [lia|].
  apply mul_sign_l, mul_sign, div_sign. lia.
Qed.

(** X25: the overall progress.  When no job has a progress above 100,
    it is a whole number between 0 and 100.  It is 0 for an empty list and
    when no job is completed or processing, and 100 when every job is
    completed. *)
Theorem overall_progress_is_a_percentage (fs : list VideoFile) :
  (Forall (fun g => processingProgress g <= 100) fs ->
   Num.whole (getOverallProgress fs) = true
   /\ Num.leb (Num.ofZ 0) (getOverallProgress fs) = true
   /\ Num.leb (getOverallProgress fs) (Num.ofZ 100) = true)
  /\ getOverallProgress [] = Num.ofZ 0
  /\ (fs <> [] -> Forall (fun g => status g = completed) fs ->
      getOverallProgress fs = Num.ofZ 100)
  /\ (Forall (fun g => status g <> completed /\ status g <> processing) fs ->
      getOverallProgress fs = Num.ofZ 0).
Proof.
  split; [|split; [reflexivity|split]].
  - intros Hall. unfold getOverallProgress.
    destruct fs as [|g0 fs0] eqn:Efs; [by vm_compute|]. rewrite <- Efs in *.
    replace (List.length fs =? 0)%nat with false by (rewrite Efs; reflexivity).
    assert (Hn : exists n, Z.of_nat (List.length fs) = Z.pos n).
    { rewrite Efs. cbn [List.length]. rewrite Nat2Z.inj_succ.
      destruct (Z.succ (Z.of_nat (List.length fs0))) eqn:E; try lia. by eexists. }
    destruct Hn as [n ->]. cbv zeta.
    set (c := Z.of_nat (countStatus completed fs)).
    assert (Hc : 0 <= c) by (subst c; lia).
    apply round_percentage; apply clamp_sign.
    all: destruct (List.filter (fun f => status_eqb (status f) processing) fs)
           as [|current rest] eqn:Ef;
      [apply mul_sign, div_sign; exact Hc|].
    all: assert (Hcur : processingProgress current <= 100)
      by (apply (proj1 (List.Forall_forall (fun g => processingProgress g <= 100) fs) Hall);
          eapply (proj1 (List.filter_In _ current fs)); rewrite Ef; by left).
    all: exact (proj2 (baseProgress_sign fs n c current Hc Hcur)).
  - intros Hne Hall. unfold getOverallProgress.
    destruct fs as [|g0 fs0] eqn:Efs; [congruence|]. rewrite <- Efs in *.
    replace (List.length fs =? 0)%nat with false by (rewrite Efs; reflexivity).
    rewrite (countStatus_all completed fs Hall).
    rewrite filter_status_none
      by (eapply Forall_impl; [exact Hall|]; intros g Hg; rewrite Hg; discriminate).
    assert (Hn : exists n, Z.of_nat (List.length fs) = Z.pos n).
    { rewrite Efs. cbn [List.length]. rewrite Nat2Z.inj_succ.
      destruct (Z.succ (Z.of_nat (List.length fs0))) eqn:E; try lia. by eexists. }
    destruct Hn as [n ->]. cbv zeta. rewrite div_same. vm_compute. reflexivity.
  - intros Hall. unfold getOverallProgress.
    destruct fs as [|g0 fs0] eqn:Efs; [reflexivity|]. rewrite <- Efs in *.
    replace (List.length fs =? 0)%nat with false by (rewrite Efs; reflexivity).
    assert (Hzero : countStatus completed fs = 0%nat).
    { unfold countStatus. rewrite filter_status_none; [reflexivity|].
      eapply Forall_impl; [exact Hall|]. by intros g [Hc _]. }
    rewrite Hzero.
    rewrite filter_status_none by (eapply Forall_impl; [exact Hall|]; by intros g [_ Hp]).
    assert (Hn : exists n, Z.of_nat (List.length fs) = Z.pos n).
    { rewrite Efs. cbn [List.length]. rewrite Nat2Z.inj_succ.
      destruct (Z.succ (Z.of_nat (List.length fs0))) eqn:E; try lia. by eexists. }
    destruct Hn as [n ->]. cbv zeta. reflexivity.
Qed.

End Overall.

(** The sum is made and rounded as doubles are: with one of two jobs at
    29 percent, 0.29 times 50 is just below 14.5 and the page shows 14; the
    first of several processing jobs is the one that counts. *)
Example overall_progress_is_a_double :
  View.getOverallProgress [Sim.job "k3x9q2ab7" "a.mp4" Store.processing 29 None;
                           Sim.job "h5k2m9p1c" "b.mp4" Store.error 0 None]
  = Num.ofZ 14
  /\ View.getOverallProgress [Sim.job "k3x9q2ab7" "a.mp4" Store.completed 100 None;
                              Sim.job "h5k2m9p1c" "b.mp4" Store.processing 50 None;
                              Sim.job "w8r4t6y1u" "c.mp4" Store.pending 0 None]
     = Num.ofZ 50.
Proof. vm_compute. split; reflexivity. Qed.

(* ================================================================= *)
(** ** The hash does not see the order of the jobs *)

Section HashOrder.

Lemma leb_trans (a b c : string) :
  String.leb a b = true -> String.leb b c = true -> String.leb a c = true.
Proof.
  unfold String.leb.
  destruct (String.compare a b) eqn:Hab; [| |discriminate];
    (destruct (String.compare b c) eqn:Hbc; [| |discriminate]); intros _ _.
  - apply String.compare_eq_iff in Hab, Hbc. subst.
    replace (String.compare c c) with Eq
      by (symmetry; by apply OrderedTypeEx.String_as_OT.cmp_eq).
    reflexivity.
  - apply String.compare_eq_iff in Hab. subst. by rewrite Hbc.
  - apply String.compare_eq_iff in Hbc. subst. by rewrite Hab.
  - apply OrderedTypeEx.String_as_OT.cmp_lt in Hab, Hbc.
    pose proof (OrderedTypeEx.String_as_OT.lt_trans _ _ _ Hab Hbc) as Hac.
    apply OrderedTypeEx.String_as_OT.cmp_lt in Hac.
    unfold OrderedTypeEx.String_as_OT.cmp in Hac. by rewrite Hac.
Qed.

Lemma insert_sorted_sorted (x : string) (l : list string) :
  StronglySorted (fun a b => String.leb a b = true) l ->
  StronglySorted (fun a b => String.leb a b = true) (insert_sorted x l).
Proof.
  induction 1 as [|y l Hl IH Hy]; cbn [insert_sorted].
  - repeat constructor.
  - destruct (String.leb x y) eqn:Hxy.
    + constructor; [by constructor|]. constructor; [exact Hxy|].
      eapply List.Forall_impl; [|exact Hy]. intros z Hz. cbn beta in *.
      by apply (leb_trans x y z).
    + constructor; [exact IH|].
      apply (Permutation_Forall (Permutation_sym (insert_sorted_perm x l))).
      constructor; [|exact Hy].
      destruct (String.leb_total x y) as [Hle | Hle]; [congruence | exact Hle].
Qed.

Lemma sort_sorted (l : list string) :
  StronglySorted (fun a b => String.leb a b = true) (sort l).
Proof.
  induction l as [|x l IH]; [constructor|]. by apply insert_sorted_sorted.
Qed.

Lemma sorted_perm_unique (l l' : list string) :
  StronglySorted (fun a b => String.leb a b = true) l ->
  StronglySorted (fun a b => String.leb a b = true) l' ->
  Permutation l l' -> l = l'.
Proof.
  intros Hl. revert l'. induction Hl as [|x l Hl IH Hx]; intros l' Hl' Hperm.
  - by apply Permutation_nil in Hperm.
  - destruct Hl' as [|y l' Hl' Hy]; [by apply Permutation_sym, Permutation_nil in Hperm|].
    assert (Hxy : x = y).
    { assert (Hxin : In x (y :: l')) by (eapply Permutation_in; [exact Hperm | by left]).
      assert (Hyin : In y (x :: l))
        by (eapply Permutation_in; [apply Permutation_sym; exact Hperm | by left]).
      destruct Hxin as [-> | Hxin]; [reflexivity|].
      destruct Hyin as [-> | Hyin]; [reflexivity|].
      apply String.leb_antisym.
      - exact (proj1 (List.Forall_forall _ _) Hx y Hyin).
      - exact (proj1 (List.Forall_forall _ _) Hy x Hxin). }
    subst y. f_equal. apply IH; [exact Hl'|]. by apply Permutation_cons_inv in Hperm.
Qed.

(** X26: the hash does not depend on the order of the jobs: two lists
    that hold the same ids, as many times each, have the same hash, so
    reordering the registry never re-arms the guard. *)
Theorem hash_ignores_order (old new : list Store.VideoFile) :
  Permutation (List.map Store.id old) (List.map Store.id new) ->
  Processing.generateFilesHash old = Processing.generateFilesHash new.
Proof.
  intros Hperm. unfold Processing.generateFilesHash. f_equal.
  apply sorted_perm_unique; [apply sort_sorted | apply sort_sorted|].
  rewrite !sort_perm. exact Hperm.
Qed.

End HashOrder.

Lemma hash_ignores_order_witness :
  let a := Sim.job "k3x9q2ab7" "a.mp4" Store.pending 0 None in
  let b := Sim.job "h5k2m9p1c" "b.mp4" Store.completed 100 None in
  Processing.generateFilesHash [a; b] = Processing.generateFilesHash [b; a].
Proof.
  intros a b. refine (hash_ignores_order [a; b] [b; a] _). simpl. apply perm_swap.
Defined.

(* ================================================================= *)
(** ** File names, and the checks of the upload page *)

Section Names.
Import Ffmpeg FileUtils.
Context `{Casing}.

Lemma split_nonempty (sep : ascii) (s : string) : split sep s <> [].
Proof.
  destruct s as [|c r]; cbn [split]; [discriminate|].
  destruct (Ascii.eqb c sep); [discriminate|]. destruct (split sep r); discriminate.
Qed.

(** The text after the last separator is the last piece. *)
Lemma split_snoc (sep : ascii) (n e : string) :
  freeOf sep e = true ->
  split sep (n ++ String sep e)%string = split sep n ++ [e].
Proof.
  intros He. induction n as [|c n IH]; simpl.
  - rewrite Ascii.eqb_refl. by rewrite split_free.
  - rewrite IH. destruct (Ascii.eqb c sep); [reflexivity|].
    pose proof (split_nonempty sep n) as Hne.
    destruct (split sep n) as [|seg segs]; [congruence | reflexivity].
Qed.

Lemma join_split (sep : ascii) (s : string) :
  join (String sep EmptyString) (split sep s) = s.
Proof.
  unfold join. induction s as [|c r IH]; cbn [split]; [reflexivity|].
  pose proof (split_nonempty sep r) as Hne.
  destruct (Ascii.eqb_spec c sep) as [-> | Hc].
  - destruct (split sep r) as [|seg segs]; [congruence|].
    change (String sep (String.concat (String sep "") (seg :: segs)) = String sep r).
    by rewrite IH.
  - destruct (split sep r) as [|seg segs]; [congruence|].
    destruct segs as [|seg' segs].
    + change (String c seg = String c r). f_equal. exact IH.
    + change (String c (String.concat (String sep "") (seg :: seg' :: segs)) = String c r).
      by rewrite IH.
Qed.

Lemma pop_snoc (l : list string) (e : string) : pop (l ++ [e]) = Some e.
Proof. unfold pop. rewrite List.map_app. apply List.last_last. Qed.

Lemma pop_map (f : string -> string) (l : list string) :
  pop (List.map f l) = option_map f (pop l).
Proof.
  unfold pop. induction l as [|x [|y l] IH]; [reflexivity | reflexivity|].
  exact IH.
Qed.

Lemma lower_ascii_dot (c : ascii) : Ascii.eqb (lower_ascii c) "." = Ascii.eqb c ".".
Proof. destruct c as [[] [] [] [] [] [] [] []]; reflexivity. Qed.

Lemma split_lower (s : string) :
  split "." (asciiLower s) = List.map asciiLower (split "." s).
Proof.
  induction s as [|c r IH]; cbn [asciiLower split List.map]; [reflexivity|].
  rewrite lower_ascii_dot, IH. destruct (Ascii.eqb c "."); [reflexivity|].
  destruct (split "." r); reflexivity.
Qed.

Lemma plain_caseless (s : string) : plain s = true -> caseless s = true.
Proof.
  induction s as [|c r IH]; [reflexivity|]. cbn [plain caseless].
  intros Hs. apply andb_prop in Hs as [Hc Hr]. rewrite Hc. by apply IH.
Qed.

(** Only an ASCII character is lowered to an ASCII character. *)
Lemma lower_ascii_plain (c : ascii) :
  (nat_of_ascii (lower_ascii c) <? 128)%nat = true -> (nat_of_ascii c <? 128)%nat = true.
Proof. destruct c as [[] [] [] [] [] [] [] []]; vm_compute; congruence. Qed.

Lemma asciiLower_plain (s : string) : plain (asciiLower s) = true -> plain s = true.
Proof.
  induction s as [|c r IH]; [reflexivity|]. cbn [asciiLower plain].
  intros Hs. apply andb_prop in Hs as [Hc Hr].
  rewrite (lower_ascii_plain c Hc). by apply IH.
Qed.

Lemma endsWith_app (s suffix : string) :
  endsWith s suffix = true -> exists front, s = (front ++ suffix)%string.
Proof.
  induction s as [|c r IH]; cbn [endsWith].
  - destruct (String.eqb_spec "" suffix) as [<- | _]; [|discriminate]. by exists "".
  - destruct (String.eqb_spec (String c r) suffix) as [<- | _]; [by exists ""|].
    intros Hr. destruct (IH Hr) as [front ->]. by exists (String c front).
Qed.

(** The extension the extractor reads of a name that ends in a dot and a
    dot-free text. *)
Lemma fileExtension_of_suffix (f : File) (e : string) :
  freeOf "." e = true -> plain e = true ->
  endsWith (asciiLower (file_name f)) ("." ++ e) = true ->
  fileExtension f = Some e.
Proof.
  intros He Hplain Hends. apply endsWith_app in Hends as [front Hname].
  assert (Hraw : option_map asciiLower (rawExtension f) = Some e).
  { unfold rawExtension. rewrite <- pop_map, <- split_lower, Hname.
    change (front ++ "." ++ e)%string with (front ++ String "." e)%string.
    rewrite split_snoc by exact He. apply pop_snoc. }
  unfold fileExtension. destruct (rawExtension f) as [raw|]; [|discriminate].
  cbn [option_map] in *. injection Hraw as Hraw. f_equal.
  rewrite toLowerCase_caseless; [exact Hraw|].
  apply plain_caseless, asciiLower_plain. by rewrite Hraw.
Qed.

(** X27: the check of the upload page against the format check of the
    extractor, for a file whose name is written in ASCII and in characters
    without case.  A file that the upload page accepts as a video and the
    extractor then turns away for its format is an Ogg file: its declared
    type is "video/ogg" or its name ends in ".ogg", in any mix of upper and
    lower case.  Every other such file the upload page accepts passes the
    extractor's format check. *)
Theorem upload_check_and_extractor_differ_on_ogg (f : File) :
  caseless (file_name f) = true ->
  isValidVideoFile f = true ->
  isTypeSupported f || isExtensionSupported f = false ->
  file_type f = "video/ogg" \/ fileExtension f = Some "ogg".
Proof.
  unfold isValidVideoFile. intros Hname Hvalid Hreject.
  rewrite (toLowerCase_caseless _ Hname) in Hvalid.
  apply orb_false_elim in Hreject as [Htype Hext].
  destruct (matchesExtension (asciiLower (file_name f))) eqn:Hm.
  - right. unfold matchesExtension in Hm.
    apply List.existsb_exists in Hm as (e & Hin & Hends).
    assert (He : freeOf "." e = true /\ plain e = true).
    { cbn in Hin. repeat (destruct Hin as [<- | Hin]; [split; reflexivity|]). destruct Hin. }
    pose proof (fileExtension_of_suffix f e (proj1 He) (proj2 He) Hends) as Hfe.
    unfold isExtensionSupported in Hext. rewrite Hfe in *.
    cbn in Hin.
    repeat (destruct Hin as [<- | Hin];
            [first [reflexivity | exfalso; vm_compute in Hext; discriminate]|]).
    destruct Hin.
  - left. rewrite orb_false_r in Hvalid. unfold mem in Hvalid.
    apply List.existsb_exists in Hvalid as (t & Hin & Heq).
    apply String.eqb_eq in Heq. unfold isTypeSupported in Htype. rewrite Heq in *.
    cbn in Hin.
    repeat (destruct Hin as [<- | Hin];
            [first [reflexivity | exfalso; vm_compute in Htype; discriminate]|]).
    destruct Hin.
Qed.

(** X28: names and extensions.  For a name that ends in a dot and an
    extension (not empty, without dot or slash), [getFileExtension] is the
    extension in lower case, and the name given to the audio file is the
    name without that extension, then "_audio_", the time stamp and the new
    format.  A name without any dot is kept whole in the audio file's name,
    and [getFileExtension] returns the whole name, in lower case. *)
Theorem extension_is_cut_and_replaced (n e format : string) (timestamp : Z) :
  freeOf "." e = true -> e <> "" -> includes e "/" = false ->
  getFileExtension (n ++ "." ++ e) = toLowerCase e
  /\ Processing.nameWithoutExt (n ++ "." ++ e) = n
  /\ Processing.generateUniqueFilename (n ++ "." ++ e) format timestamp
     = (n ++ "_audio_" ++ decimal timestamp ++ "." ++ format)%string
  /\ (freeOf "." n = true ->
      getFileExtension n = toLowerCase n /\ Processing.nameWithoutExt n = n).
Proof.
  intros He Hne Hslash.
  assert (Hsplit : split "." (n ++ "." ++ e) = split "." n ++ [e])
    by (apply (split_snoc "." n e He)).
  assert (Hcut : Processing.nameWithoutExt (n ++ "." ++ e) = n).
  { unfold Processing.nameWithoutExt. rewrite Hsplit, pop_snoc.
    pose proof (split_nonempty "." n) as Hnon.
    replace (1 <? List.length (split "." n ++ [e]))%nat with true
      by (symmetry; apply Nat.ltb_lt; rewrite length_app;
          destruct (split "." n); [congruence | simpl; lia]).
    rewrite Hslash. destruct (String.eqb_spec e "") as [-> | _]; [congruence|].
    cbn [andb negb]. rewrite List.removelast_last. apply join_split. }
  split; [|split; [exact Hcut|split]].
  - unfold getFileExtension. by rewrite Hsplit, pop_snoc.
  - unfold Processing.generateUniqueFilename. by rewrite Hcut.
  - intros Hn. unfold getFileExtension, Processing.nameWithoutExt.
    rewrite (split_free "." n Hn). split; reflexivity.
Qed.

Lemma screen_keeps (l : list File) :
  fst (screen l)
  = List.filter (fun f => isValidVideoFile f && isValidFileSize f 500) l.
Proof.
  induction l as [|f l IH]; [reflexivity|]. cbn [screen List.filter].
  destruct (screen l) as [validFiles notices]. cbn [fst] in IH. subst validFiles.
  destruct (isValidVideoFile f); cbn [negb andb]; [|reflexivity].
  destruct (isValidFileSize f 500); reflexivity.
Qed.

Lemma screen_notices (l : list File) :
  (List.length (fst (screen l)) + List.length (snd (screen l)) = List.length l)%nat.
Proof.
  induction l as [|f l IH]; [reflexivity|]. cbn [screen].
  destruct (screen l) as [validFiles notices]. cbn [fst snd] in *.
  destruct (isValidVideoFile f); cbn [negb]; [|cbn [fst snd List.length]; lia].
  destruct (isValidFileSize f 500); cbn [negb fst snd List.length]; lia.
Qed.

Lemma addFiles_nothing (fr : Store.Fresh) (st : Store.AppState) : Store.addFiles fr [] st = st.
Proof.
  destruct st. unfold Store.addFiles, Store.set_files, Store.enqueued. cbn.
  by rewrite app_nil_r.
Qed.

(** X29: [handleFiles] hands to [addFiles] exactly the files that pass
    both checks of the upload page, in their order, and turns every other
    file away with one notice; so a job it adds is pending, is a video by
    that check and has at most 500MB, which is more than the 100MB the
    extractor will accept. *)
Theorem handleFiles_queues_the_valid_files
        (fr : Store.Fresh) (newFiles : list File) (st : Store.AppState) :
  fst (handleFiles fr newFiles st)
  = Store.addFiles fr
      (List.filter (fun f => isValidVideoFile f && isValidFileSize f 500) newFiles) st
  /\ List.length (snd (handleFiles fr newFiles st))
     = List.length (List.filter (fun f => negb (isValidVideoFile f && isValidFileSize f 500))
                                newFiles)
  /\ (forall g, g ∈ Store.files (fst (handleFiles fr newFiles st)) ->
                g ∈ Store.files st
                \/ (isValidVideoFile (Store.file g) = true
                    /\ file_size (Store.file g) <= 5 * sizeLimit
                    /\ Store.status g = Store.pending
                    /\ Store.file g ∈ newFiles)).
Proof.
  assert (Hfst : fst (handleFiles fr newFiles st)
                 = Store.addFiles fr
                     (List.filter (fun f => isValidVideoFile f && isValidFileSize f 500)
                                  newFiles) st).
  { unfold handleFiles. rewrite <- screen_keeps.
    destruct (screen newFiles) as [validFiles notices]. cbn [fst].
    destruct validFiles; [by rewrite addFiles_nothing | reflexivity]. }
  split; [exact Hfst|]. split.
  - unfold handleFiles. pose proof (screen_notices newFiles) as Hlen.
    rewrite screen_keeps in Hlen.
    pose proof (List.filter_length (fun f => isValidVideoFile f && isValidFileSize f 500)
                                   newFiles) as Hsum.
    destruct (screen newFiles) as [validFiles notices]. cbn [fst snd] in *.
    destruct (0 <? List.length validFiles)%nat; cbn [snd]; lia.
  - rewrite Hfst. intros g Hg. unfold Store.addFiles, Store.set_files in Hg.
    cbn [Store.files] in Hg. apply elem_of_app in Hg as [Hold | Hnew]; [by left|]. right.
    unfold Store.enqueued in Hnew.
    apply elem_of_lookup_imap in Hnew as (k & f & -> & Hk).
    apply list_elem_of_lookup_2 in Hk.
    assert (Hsub : forall seen l x, x ∈ Store.uniqueFiles seen l -> x ∈ l).
    { intros seen l. revert seen. induction l as [|a l IH]; intros seen x Hx; [exact Hx|].
      cbn [Store.uniqueFiles] in Hx. case_bool_decide.
      - right. by eapply IH.
      - apply elem_of_cons in Hx as [-> | Hx]; [by left | right; by eapply IH]. }
    apply Hsub in Hk. apply list_elem_of_In, List.filter_In in Hk as [Hin Hok].
    apply andb_prop in Hok as [Hvideo Hsize].
    cbn [Store.newVideoFile Store.file Store.status].
    split; [exact Hvideo|]. split; [|split; [reflexivity | by apply list_elem_of_In]].
    unfold isValidFileSize in Hsize. apply Z.leb_le in Hsize. unfold sizeLimit. lia.
Qed.

End Names.

Lemma upload_check_and_extractor_differ_on_ogg_witness :
  let f := mkFile "movie.OGG" 10 "" in
  file_type f = "video/ogg" \/ Ffmpeg.fileExtension f = Some "ogg".
Proof.
  intros f.
  refine (upload_check_and_extractor_differ_on_ogg f _ _ _); vm_compute; reflexivity.
Defined.

Lemma extension_is_cut_and_replaced_witness :
  Processing.generateUniqueFilename "holiday.2024.MP4" "mp3" 1700000000000
  = "holiday.2024_audio_1700000000000.mp3".
Proof.
  refine (proj1 (proj2 (proj2
            (extension_is_cut_and_replaced "holiday.2024" "MP4" "mp3" 1700000000000 _ _ _)))).
  - reflexivity.
  - discriminate.
  - reflexivity.
Defined.

(* ================================================================= *)
(** ** What a successful extraction has done *)

Section Success.
Import Ffmpeg.
Context {W : Type} `{Env W} `{Casing}.

Lemma bind_inv {A B : Type} (m : M W A) (k : A -> M W B) (s s' : Sys W) (b : B) :
  bind m k s = (inr b, s') -> exists a s1, m s = (inr a, s1) /\ k a s1 = (inr b, s').
Proof.
  unfold bind. destruct (m s) as [[e|a] s1]; [discriminate|]. eauto.
Qed.

Lemma preflight_inv (videoFile : File) (s s' : Sys W) :
  preflight videoFile s = (inr tt, s') ->
  s' = s /\ file_size videoFile <= sizeLimit
  /\ isTypeSupported videoFile || isExtensionSupported videoFile = true.
Proof.
  unfold preflight, throw, ret.
  destruct (Z.gtb_spec (file_size videoFile) sizeLimit) as [Hbig | Hsize]; [discriminate|].
  destruct (isTypeSupported videoFile), (isExtensionSupported videoFile);
    cbn [negb andb orb]; intros [= <-]; auto.
Qed.

Lemma writeInput_inv (i : string) (videoFile : File) (s s' : Sys W) :
  writeInput i videoFile s = (inr tt, s') ->
  exists data,
    calls s' = calls s ++ [CFetchFile videoFile; CWriteFile i data; CReadFile i]
    /\ reports s' = reports s.
Proof.
  unfold writeInput, bind, catch, call, log, throw, ret.
  destruct (fetchFile videoFile (world s)) as [[e|data] w1]; [discriminate|].
  cbn [world calls reports console].
  destruct (ff_writeFile i data w1) as [[e|[]] w2]; [discriminate|].
  cbn [world calls reports console].
  destruct (ff_readFile i w2) as [[e|back] w3]; [discriminate|].
  destruct (negb (byteLength back =? byteLength data)); intros [= <-];
    exists data; cbn [calls reports]; rewrite <- !app_assoc; auto.
Qed.

Lemma runCommand_inv (hasCallback : bool) (command : list string) (s s' : Sys W) :
  runCommand hasCallback command s = (inr tt, s') ->
  calls s' = calls s ++ [CExec command]
  /\ exists during, reports s' = reports s ++ (if hasCallback then during ++ [Num.ofZ 100] else []).
Proof.
  unfold runCommand, onProgress, ret.
  destruct (ff_exec command (world s)) as [[sgs [e|[]]] w]; [discriminate|].
  destruct hasCallback; intros [= <-]; cbn [calls reports]; split; try reflexivity.
  - eexists. by rewrite <- app_assoc.
  - exists []. reflexivity.
Qed.

Lemma readOutput_inv (o : string) (s s' : Sys W) (data : bytes) :
  readOutput o s = (inr data, s') ->
  calls s' = calls s ++ [CListDir "/"; CReadFile o] /\ reports s' = reports s.
Proof.
  unfold readOutput, catch, bind, attempt, call, throw.
  destruct (ff_listDir "/" (world s)) as [[e|l] w1]; cbn [world calls reports console].
  - destruct (ff_listDir "/" w1) as [r w2]. discriminate.
  - destruct (ff_readFile o w1) as [[e|d] w2]; cbn [world calls reports console].
    + destruct (ff_listDir "/" w2) as [r w3]. discriminate.
    + intros [= <- <-]. cbn [calls reports]. by rewrite <- app_assoc.
Qed.

Lemma cleanup_inv (i o : string) (s : Sys W) :
  fst (cleanup i o s) = inr tt
  /\ reports (snd (cleanup i o s)) = reports s
  /\ exists last,
       calls (snd (cleanup i o s)) = calls s ++ CDeleteFile i :: last
       /\ (last = [CDeleteFile o] \/ last = []).
Proof.
  unfold cleanup, bind, call, log.
  destruct (ff_deleteFile i (world s)) as [[e|[]] w1]; cbn [world calls reports console fst snd].
  - split; [reflexivity|]. split; [reflexivity|]. exists []. auto.
  - destruct (ff_deleteFile o w1) as [[e|[]] w2]; cbn [fst snd calls reports];
      (split; [reflexivity|]; split; [reflexivity|]); exists [CDeleteFile o];
      rewrite <- app_assoc; auto.
Qed.

(** X30: what a call of [extractAudio] that resolves has done, on any
    engine.  The engine was loaded, the file had at most 100MB and a
    supported type or extension; the blob is not empty and carries the
    media type of the format; the engine was asked, in this order, for a
    listing, the write of the input, its read-back, the command, a listing,
    the read of the output and the deletion of the input, then for the
    deletion of the output unless deleting the input failed; and with a
    callback the last value reported is 100, without one nothing is
    reported. *)
Theorem successful_extraction_trace
        (p : Processor) (videoFile : File) (outputFormat : Format) (quality : Quality)
        (hasCallback : bool) (s : Sys W) (audio : Blob) :
  fst (extractAudio p videoFile outputFormat quality hasCallback s) = inr audio ->
  usable p = true
  /\ file_size videoFile <= sizeLimit
  /\ isTypeSupported videoFile || isExtensionSupported videoFile = true
  /\ blob_type audio = getMimeType (format_name outputFormat)
  /\ blob_size audio <> 0
  /\ (exists data last,
        calls (snd (extractAudio p videoFile outputFormat quality hasCallback s))
        = calls s
          ++ [CListDir "/"; CFetchFile videoFile;
              CWriteFile (inputNameIn (world s) videoFile) data;
              CReadFile (inputNameIn (world s) videoFile);
              CExec (["-i"; inputNameIn (world s) videoFile; "-vn"]
                     ++ getQualityParams (format_name outputFormat) (quality_name quality)
                     ++ [outputNameIn (world s) outputFormat]);
              CListDir "/"; CReadFile (outputNameIn (world s) outputFormat);
              CDeleteFile (inputNameIn (world s) videoFile)]
          ++ last
        /\ (last = [CDeleteFile (outputNameIn (world s) outputFormat)] \/ last = []))
  /\ (exists during,
        reports (snd (extractAudio p videoFile outputFormat quality hasCallback s))
        = reports s ++ (if hasCallback then during ++ [Num.ofZ 100] else [])).
Proof.
  intros Hok.
  destruct (usable p) eqn:Hp;
    [|rewrite extractAudio_unusable in Hok by exact Hp; discriminate].
  split; [reflexivity|].
  unfold usable in Hp. apply andb_prop in Hp as [Hinst Hloaded].
  apply bool_decide_eq_true in Hinst.
  destruct (extractAudio p videoFile outputFormat quality hasCallback s) as [res sf] eqn:Hrun.
  cbn [fst snd] in *. subst res.
  unfold extractAudio in Hrun.
  rewrite (bool_decide_eq_true_2 _ Hinst), Hloaded in Hrun. cbn [negb orb] in Hrun.
  unfold inputNameIn, outputNameIn, uniqueIdIn.
  apply bind_inv in Hrun as (timestamp & s1 & Hnow & Hrun).
  unfold ambient in Hnow. destruct (dateNow (world s)) as [t w1]. injection Hnow as <- <-.
  apply bind_inv in Hrun as (random & s2 & Hrnd & Hrun).
  unfold ambient in Hrnd. cbn [world calls reports console] in Hrnd.
  destruct (mathRandom36 w1) as [rnd w2]. injection Hrnd as <- <-.
  apply bind_inv in Hrun as ([] & s3 & Hlist & Hrun).
  unfold attempt, call in Hlist. cbn [world calls reports console] in Hlist.
  destruct (ff_listDir "/" w2) as [listed w3]. injection Hlist as <-.
  set (i := inputName _ videoFile) in *. set (o := outputName _ outputFormat) in *.
  set (params := getQualityParams _ _) in *.
  match type of Hrun with
  | catch ?m ?h ?s1 = _ =>
      destruct (catch_spec m h s1) as [(a & s' & Hbody & Heq) | (e0 & s' & _ & Heq)];
      rewrite Heq in Hrun; clear Heq
  end.
  2: { pose proof (proj1 (onFailure_spec p i o e0 s' Hinst)) as Hv.
       rewrite Hrun in Hv. discriminate. }
  injection Hrun as -> ->.
  apply bind_inv in Hbody as ([] & s4 & Hpre & Hbody).
  apply preflight_inv in Hpre as (-> & Hsize & Hfmt).
  apply bind_inv in Hbody as ([] & s5 & Hwrite & Hbody).
  apply writeInput_inv in Hwrite as (data & Hc5 & Hr5).
  apply bind_inv in Hbody as ([] & s6 & Hexec & Hbody).
  apply runCommand_inv in Hexec as (Hc6 & during & Hr6).
  apply bind_inv in Hbody as (out & s7 & Hread & Hbody).
  apply readOutput_inv in Hread as (Hc7 & Hr7).
  destruct (Z.eqb_spec (byteLength out) 0) as [Hempty | Hfull]; [discriminate|].
  apply bind_inv in Hbody as ([] & s8 & Hclean & Hret).
  destruct (cleanup_inv i o s7) as (_ & Hr8 & last & Hc8 & Hlast).
  rewrite Hclean in Hr8, Hc8. cbn [snd] in Hr8, Hc8.
  unfold ret in Hret. injection Hret as <- <-.
  split; [exact Hsize|]. split; [exact Hfmt|].
  split; [reflexivity|]. split; [exact Hfull|]. split.
  - exists data, last. split; [|exact Hlast].
    rewrite Hc8, Hc7, Hc6, Hc5. cbn [calls]. rewrite <- !app_assoc. reflexivity.
  - exists during. rewrite Hr8, Hr7, Hr6, Hr5. reflexivity.
Qed.

End Success.

Lemma successful_extraction_trace_witness :
  exists during,
    Ffmpeg.reports (snd (Ffmpeg.extractAudio Sim.ready (Sim.clip 4) mp3 high true
                                             (Ffmpeg.start Sim.quiet)))
    = [] ++ (during ++ [Num.ofZ 100]).
Proof.
  refine (proj2 (proj2 (proj2 (proj2 (proj2 (proj2
            (successful_extraction_trace Sim.ready (Sim.clip 4) mp3 high true
               (Ffmpeg.start Sim.quiet) (mkBlob [Byte.x01; Byte.x02] "audio/mpeg") _))))))).
  vm_compute. reflexivity.
Defined.
